(** * Hoverfly authentication storage backend

    A shallow embedding of [authentication/backends/storage_backend.go]:
    the [User] record and its JSON codec, and the [BoltAuth] backend over
    two buckets of a BoltDB store.  The file follows the source; what the
    source calls into is modelled first, one module per Go package:

    - [utf8]   : [unicode/utf8], [DecodeRune] and [EncodeRune];
    - [json]   : [encoding/json], the encoder of a struct of strings and
                 booleans and the decoder;
    - [bolt]   : [github.com/boltdb/bolt], buckets as finite maps whose
                 cursor walks the keys in ascending byte order, and
                 managed transactions with roll-back;
    - [rand]   : [crypto/rand], the reader as the stream it delivers;
    - [bcrypt] : [golang.org/x/crypto/bcrypt], [GenerateFromPassword]
                 around the Blowfish key schedule, which is left open;
    - [uuid]   : [github.com/pborman/uuid], version 4 identifiers.

    The packages are modelled as of their current releases: the encoder
    writes [\b] and [\f] in their short forms, and bcrypt refuses a
    password of more than 72 bytes.

    Go's [string] and [[]byte] are both [list byte].  A Go function that
    returns a value and an error returns a pair here, the error an
    [option].  The names are those of the source, with an underscore
    added where Rocq has the name already ([delete_], [String_], [as_]).

    The definitions come first, then the facts about the packages, then
    the properties of the backend and how its operations compose. *)

From Stdlib Require Import ZArith List Lia Strings.Byte Strings.String Bool.
From stdpp Require Import gmap list sorting.
Import ListNotations.

#[local] Open Scope Z_scope.

Ltac Zify.zify_post_hook ::= Z.div_mod_to_equations.

#[local] Set Warnings "-register-all".

(** ** Bytes *)

Abbreviation bytes := (list byte).

(** The numeric value of a byte, and Go's conversion [byte(z)], which
    keeps the low eight bits. *)
Definition b2z (b : byte) : Z := Z.of_N (Byte.to_N b).

Definition z2b (z : Z) : byte :=
  match Byte.of_N (Z.to_N (z mod 256)) with
  | Some b => b
  | None => x00
  end.

(** A Go string literal without quotes or backslashes. *)
Definition lit (s : string) : bytes := list_byte_of_string s.

#[global] Instance byte_eq_dec : EqDecision byte := Byte.byte_eq_dec.
#[global] Instance byte_countable : Countable byte :=
  inj_countable' Byte.to_N (fun n => default x00 (Byte.of_N n))
    (fun b => f_equal (default x00) (Byte.of_to_N b)).

(** ** unicode/utf8 *)

Module utf8.

Definition RuneError : Z := 0xFFFD.
Definition RuneSelf : Z := 0x80.
Definition MaxRune : Z := 0x10FFFF.
Definition UTFMax : Z := 4.

Definition surrogateMin : Z := 0xD800.
Definition surrogateMax : Z := 0xDFFF.

Definition tx : Z := 0x80.
Definition t2 : Z := 0xC0.
Definition t3 : Z := 0xE0.
Definition t4 : Z := 0xF0.

Definition maskx : Z := 0x3F.
Definition mask2 : Z := 0x1F.
Definition mask3 : Z := 0x0F.
Definition mask4 : Z := 0x07.

Definition rune1Max : Z := 0x7F.
Definition rune2Max : Z := 0x7FF.
Definition rune3Max : Z := 0xFFFF.

Definition locb : Z := 0x80.
Definition hicb : Z := 0xBF.

Definition xx : Z := 0xF1.
Definition as_ : Z := 0xF0.
Definition s1 : Z := 0x02.
Definition s2 : Z := 0x13.
Definition s3 : Z := 0x03.
Definition s4 : Z := 0x23.
Definition s5 : Z := 0x34.
Definition s6 : Z := 0x04.
Definition s7 : Z := 0x44.

(** The table [first], one entry per leading byte, given by its rows. *)
Definition first (p0 : Z) : Z :=
  if p0 <? 0x80 then as_
  else if p0 <? 0xC2 then xx
  else if p0 <? 0xE0 then s1
  else if p0 =? 0xE0 then s2
  else if p0 <? 0xED then s3
  else if p0 =? 0xED then s4
  else if p0 <? 0xF0 then s3
  else if p0 =? 0xF0 then s5
  else if p0 <? 0xF4 then s6
  else if p0 =? 0xF4 then s7
  else xx.

(** The table [acceptRanges]: sixteen entries, five of them set. *)
Definition acceptRanges (i : Z) : Z * Z :=
  if i =? 0 then (locb, hicb)
  else if i =? 1 then (0xA0, hicb)
  else if i =? 2 then (locb, 0x9F)
  else if i =? 3 then (0x90, hicb)
  else if i =? 4 then (locb, 0x8F)
  else (0, 0).

(** A 32-bit two's complement reading of the low 32 bits of [z]. *)
Definition int32 (z : Z) : Z :=
  let u := z mod 2 ^ 32 in if u <? 2 ^ 31 then u else u - 2 ^ 32.

Definition at_ (p : bytes) (i : nat) : Z := b2z (nth i p x00).

Definition DecodeRune (p : bytes) : Z * nat :=
  let n := Z.of_nat (length p) in
  if n <? 1 then (RuneError, 0%nat)
  else
    let p0 := at_ p 0 in
    let x := first p0 in
    if as_ <=? x then
      let mask := Z.shiftr (int32 (Z.shiftl x 31)) 31 in
      (Z.lor (Z.land p0 (Z.lnot mask)) (Z.land RuneError mask), 1%nat)
    else
      let sz := Z.land x 7 in
      let accept := acceptRanges (Z.shiftr x 4) in
      if n <? sz then (RuneError, 1%nat)
      else
        let b1 := at_ p 1 in
        if (b1 <? fst accept) || (snd accept <? b1) then (RuneError, 1%nat)
        else if sz <=? 2 then
          (Z.lor (Z.shiftl (Z.land p0 mask2) 6) (Z.land b1 maskx), 2%nat)
        else
          let b2 := at_ p 2 in
          if (b2 <? locb) || (hicb <? b2) then (RuneError, 1%nat)
          else if sz <=? 3 then
            (Z.lor (Z.lor (Z.shiftl (Z.land p0 mask3) 12)
                          (Z.shiftl (Z.land b1 maskx) 6))
                   (Z.land b2 maskx), 3%nat)
          else
            let b3 := at_ p 3 in
            if (b3 <? locb) || (hicb <? b3) then (RuneError, 1%nat)
            else
              (Z.lor (Z.lor (Z.lor (Z.shiftl (Z.land p0 mask4) 18)
                                   (Z.shiftl (Z.land b1 maskx) 12))
                            (Z.shiftl (Z.land b2 maskx) 6))
                     (Z.land b3 maskx), 4%nat).

Definition encode3 (r : Z) : bytes :=
  [ z2b (Z.lor t3 ((Z.shiftr r 12) mod 256));
    z2b (Z.lor tx (Z.land ((Z.shiftr r 6) mod 256) maskx));
    z2b (Z.lor tx (Z.land (r mod 256) maskx)) ].

Definition encode4 (r : Z) : bytes :=
  [ z2b (Z.lor t4 ((Z.shiftr r 18) mod 256));
    z2b (Z.lor tx (Z.land ((Z.shiftr r 12) mod 256) maskx));
    z2b (Z.lor tx (Z.land ((Z.shiftr r 6) mod 256) maskx));
    z2b (Z.lor tx (Z.land (r mod 256) maskx)) ].

(** [EncodeRune], returning the bytes it writes. *)
Definition EncodeRune (r : Z) : bytes :=
  let i := r mod 2 ^ 32 in
  if i <=? rune1Max then [ z2b r ]
  else if i <=? rune2Max then
    [ z2b (Z.lor t2 ((Z.shiftr r 6) mod 256));
      z2b (Z.lor tx (Z.land (r mod 256) maskx)) ]
  else if (MaxRune <? i) || ((surrogateMin <=? i) && (i <=? surrogateMax))
  then encode3 RuneError
  else if i <=? rune3Max then encode3 r
  else encode4 r.

(** A byte sequence no prefix of which [DecodeRune] rejects: [utf8.Valid]. *)
Fixpoint valid_fuel (fuel : nat) (p : bytes) : bool :=
  match fuel with
  | O => true
  | S fuel' =>
    match p with
    | [] => true
    | _ :: _ =>
      let '(r, size) := DecodeRune p in
      if (r =? RuneError) && (size =? 1)%nat then false
      else valid_fuel fuel' (skipn size p)
    end
  end.

Definition Valid (p : bytes) : bool := valid_fuel (length p) p.

End utf8.

(** ** encoding/json

    The encoder writes a struct as an object whose members are the tagged
    fields in declaration order; [Encoder.Encode] escapes HTML characters
    and ends the value with a newline.  The decoder is given as a
    recursive descent over the grammar that [scanner] accepts, producing
    the value that [decodeState] then stores into the target; string
    literals are unquoted as in [unquoteBytes].  The recursion is bounded
    by a fuel that the callers take larger than the input: each call
    consumes a byte before it calls again ([parseValue_fuel]). *)

Module json.

Inductive error :=
| EOF                    (* io.EOF: no value in the input *)
| SyntaxError            (* SyntaxError, io.ErrUnexpectedEOF *)
| UnmarshalTypeError.    (* UnmarshalTypeError *)

(** *** Encoding *)

(** [hex = "0123456789abcdef"], indexed. *)
Definition hex (i : Z) : byte :=
  if i <? 10 then z2b (0x30 + i) else z2b (0x61 + (i - 10)).

(** [htmlSafeSet]: the ASCII bytes written as they are. *)
Definition htmlSafeSet (b : Z) : bool :=
  (0x20 <=? b) && (b <? 0x80) &&
  negb ((b =? 0x22) || (b =? 0x5C) || (b =? 0x3C) || (b =? 0x3E) || (b =? 0x26)).

(** The [switch b] of [appendString] for an ASCII byte outside
    [htmlSafeSet]. *)
Definition escapeByte (b : byte) : bytes :=
  let z := b2z b in
  if (z =? 0x5C) || (z =? 0x22) then [x5c; b]
  else if z =? 0x08 then [x5c; x62]
  else if z =? 0x0C then [x5c; x66]
  else if z =? 0x0A then [x5c; x6e]
  else if z =? 0x0D then [x5c; x72]
  else if z =? 0x09 then [x5c; x74]
  else [x5c; x75; x30; x30; hex (Z.shiftr z 4); hex (Z.land z 0xF)].

(** The loop of [appendString] with [escapeHTML] set.  The source copies
    the stretch [src[start:i]] of unescaped bytes when it meets a byte to
    escape; here each byte is written when it is passed. *)
Fixpoint appendString_loop (fuel : nat) (src : bytes) : bytes :=
  match fuel with
  | O => []
  | S fuel' =>
    match src with
    | [] => []
    | b :: rest =>
      if b2z b <? utf8.RuneSelf then
        if htmlSafeSet (b2z b) then b :: appendString_loop fuel' rest
        else escapeByte b ++ appendString_loop fuel' rest
      else
        let '(c, size) := utf8.DecodeRune (firstn 4 src) in
        if (c =? utf8.RuneError) && (size =? 1)%nat then
          [x5c; x75; x66; x66; x66; x64] ++ appendString_loop fuel' (skipn size src)
        else if (c =? 0x2028) || (c =? 0x2029) then
          [x5c; x75; x32; x30; x32; hex (Z.land c 0xF)]
            ++ appendString_loop fuel' (skipn size src)
        else
          firstn size src ++ appendString_loop fuel' (skipn size src)
    end
  end.

Definition appendString (src : bytes) : bytes :=
  [x22] ++ appendString_loop (length src) src ++ [x22].

(** The value of a struct field, as reflection presents it. *)
Inductive fieldValue :=
| FString (s : bytes)
| FBool (b : bool).

Definition encodeField (v : fieldValue) : bytes :=
  match v with
  | FString s => appendString s
  | FBool true => lit "true"
  | FBool false => lit "false"
  end.

Fixpoint encodeMembers (first : bool) (fs : list (bytes * fieldValue)) : bytes :=
  match fs with
  | [] => []
  | (name, v) :: fs' =>
    (if first then [] else [x2c])
      ++ appendString name ++ [x3a] ++ encodeField v
      ++ encodeMembers false fs'
  end.

(** [structEncoder.encode]. *)
Definition encodeStruct (fs : list (bytes * fieldValue)) : bytes :=
  [x7b] ++ encodeMembers true fs ++ [x7d].

(** [Encoder.Encode] on a struct of string and bool fields: it cannot
    fail, and the value is followed by a newline. *)
Definition Encode (fs : list (bytes * fieldValue)) : bytes * option error :=
  (encodeStruct fs ++ [x0a], None).

(** *** Decoding *)

Inductive value :=
| Null
| Bool (b : bool)
| Number (literal : bytes)
| String_ (s : bytes)
| Array (elems : list value)
| Object (members : list (bytes * value)).

Definition isSpace (c : Z) : bool :=
  (c =? 0x20) || (c =? 0x09) || (c =? 0x0D) || (c =? 0x0A).

Fixpoint skipSpace (s : bytes) : bytes :=
  match s with
  | c :: t => if isSpace (b2z c) then skipSpace t else s
  | [] => []
  end.

Definition hexDigit (c : Z) : option Z :=
  if (0x30 <=? c) && (c <=? 0x39) then Some (c - 0x30)
  else if (0x61 <=? c) && (c <=? 0x66) then Some (c - 0x61 + 10)
  else if (0x41 <=? c) && (c <=? 0x46) then Some (c - 0x41 + 10)
  else None.

(** [getu4]: the rune of a [\uXXXX] escape at the head of [s], or [-1]. *)
Definition getu4 (s : bytes) : Z :=
  match s with
  | b0 :: b1 :: h1 :: h2 :: h3 :: h4 :: _ =>
    if (b2z b0 =? 0x5C) && (b2z b1 =? 0x75) then
      match hexDigit (b2z h1), hexDigit (b2z h2),
            hexDigit (b2z h3), hexDigit (b2z h4) with
      | Some d1, Some d2, Some d3, Some d4 =>
        d1 * 4096 + d2 * 256 + d3 * 16 + d4
      | _, _, _, _ => -1
      end
    else -1
  | _ => -1
  end.

(** [utf16.IsSurrogate] and [utf16.DecodeRune]. *)
Definition IsSurrogate (r : Z) : bool := (0xD800 <=? r) && (r <? 0xE000).

Definition utf16_DecodeRune (r1 r2 : Z) : Z :=
  if (0xD800 <=? r1) && (r1 <? 0xDC00) && (0xDC00 <=? r2) && (r2 <? 0xE000)
  then Z.lor (Z.shiftl (r1 - 0xD800) 10) (r2 - 0xDC00) + 0x10000
  else utf8.RuneError.

(** The byte a one-letter escape stands for. *)
Definition unescape (c : Z) : option byte :=
  if (c =? 0x22) || (c =? 0x5C) || (c =? 0x2F) then Some (z2b c)
  else if c =? 0x62 then Some x08
  else if c =? 0x66 then Some x0c
  else if c =? 0x6E then Some x0a
  else if c =? 0x72 then Some x0d
  else if c =? 0x74 then Some x09
  else None.

(** A string literal after its opening quote: the unquoted bytes and the
    input after the closing quote. *)
Fixpoint stringBody (fuel : nat) (s : bytes) : option (bytes * bytes) :=
  match fuel with
  | O => None
  | S fuel' =>
    match s with
    | [] => None
    | c :: rest =>
      let z := b2z c in
      if z =? 0x22 then Some ([], rest)
      else if z =? 0x5C then
        match rest with
        | [] => None
        | e :: rest' =>
          if b2z e =? 0x75 then
            let rr := getu4 s in
            if rr <? 0 then None
            else
              let after := skipn 6 s in
              if IsSurrogate rr then
                let dec := utf16_DecodeRune rr (getu4 after) in
                if negb (dec =? utf8.RuneError) then
                  match stringBody fuel' (skipn 6 after) with
                  | Some (t, out) => Some (utf8.EncodeRune dec ++ t, out)
                  | None => None
                  end
                else
                  match stringBody fuel' after with
                  | Some (t, out) =>
                    Some (utf8.EncodeRune utf8.RuneError ++ t, out)
                  | None => None
                  end
              else
                match stringBody fuel' after with
                | Some (t, out) => Some (utf8.EncodeRune rr ++ t, out)
                | None => None
                end
          else
            match unescape (b2z e) with
            | Some b =>
              match stringBody fuel' rest' with
              | Some (t, out) => Some (b :: t, out)
              | None => None
              end
            | None => None
            end
        end
      else if z <? 0x20 then None
      else if z <? utf8.RuneSelf then
        match stringBody fuel' rest with
        | Some (t, out) => Some (c :: t, out)
        | None => None
        end
      else
        let '(rr, size) := utf8.DecodeRune s in
        match stringBody fuel' (skipn size s) with
        | Some (t, out) => Some (utf8.EncodeRune rr ++ t, out)
        | None => None
        end
    end
  end.

Definition isDigit (c : Z) : bool := (0x30 <=? c) && (c <=? 0x39).

Fixpoint digits (s : bytes) : bytes * bytes :=
  match s with
  | c :: t =>
    if isDigit (b2z c) then let '(d, r) := digits t in (c :: d, r)
    else ([], s)
  | [] => ([], [])
  end.

(** A number literal: an optional minus sign; a zero, or a non-zero digit
    and digits; optionally a point and one digit or more; optionally an
    exponent mark, a sign and one digit or more. *)
Definition numberLit (s : bytes) : option (bytes * bytes) :=
  let '(sign, s1) :=
    match s with
    | c :: t => if b2z c =? 0x2D then ([c], t) else ([], s)
    | [] => ([], s)
    end in
  let int :=
    match s1 with
    | c :: t =>
      if b2z c =? 0x30 then Some ([c], t)
      else if isDigit (b2z c) then
        let '(d, r) := digits t in Some (c :: d, r)
      else None
    | [] => None
    end in
  match int with
  | None => None
  | Some (ip, s2) =>
    let frac :=
      match s2 with
      | c :: t =>
        if b2z c =? 0x2E then
          match digits t with
          | ([], _) => None
          | (d, r) => Some (c :: d, r)
          end
        else Some ([], s2)
      | [] => Some ([], s2)
      end in
    match frac with
    | None => None
    | Some (fp, s3) =>
      let exp :=
        match s3 with
        | c :: t =>
          if (b2z c =? 0x65) || (b2z c =? 0x45) then
            let '(sg, t') :=
              match t with
              | g :: u =>
                if (b2z g =? 0x2B) || (b2z g =? 0x2D) then ([g], u)
                else ([], t)
              | [] => ([], t)
              end in
            match digits t' with
            | ([], _) => None
            | (d, r) => Some (c :: sg ++ d, r)
            end
          else Some ([], s3)
        | [] => Some ([], s3)
        end in
      match exp with
      | None => None
      | Some (ep, s4) => Some (sign ++ ip ++ fp ++ ep, s4)
      end
    end
  end.

(** The input after the literal [word], when the input starts with it. *)
Fixpoint expect (word s : bytes) : option bytes :=
  match word, s with
  | [], _ => Some s
  | w :: word', c :: s' => if b2z w =? b2z c then expect word' s' else None
  | _ :: _, [] => None
  end.

(** The scanner refuses a value nested deeper than this. *)
Definition maxNestingDepth : Z := 10000.

(** One value, with the input after it; [depth] counts the objects and
    arrays the value lies in. *)
Fixpoint parseValue (fuel : nat) (depth : Z) (s : bytes)
    : option (value * bytes) :=
  match fuel with
  | O => None
  | S fuel' =>
    match skipSpace s with
    | [] => None
    | c :: t =>
      let z := b2z c in
      if z =? 0x7B then
        if maxNestingDepth <? depth + 1 then None
        else
          match skipSpace t with
          | c' :: t' =>
            if b2z c' =? 0x7D then Some (Object [], t')
            else
              match parseMembers fuel' (depth + 1) t with
              | Some (m, out) => Some (Object m, out)
              | None => None
              end
          | [] => None
          end
      else if z =? 0x5B then
        if maxNestingDepth <? depth + 1 then None
        else
          match skipSpace t with
          | c' :: t' =>
            if b2z c' =? 0x5D then Some (Array [], t')
            else
              match parseElements fuel' (depth + 1) t with
              | Some (l, out) => Some (Array l, out)
              | None => None
              end
          | [] => None
          end
      else if z =? 0x22 then
        match stringBody (length t) t with
        | Some (str, out) => Some (String_ str, out)
        | None => None
        end
      else if z =? 0x74 then
        match expect (lit "rue") t with
        | Some out => Some (Bool true, out)
        | None => None
        end
      else if z =? 0x66 then
        match expect (lit "alse") t with
        | Some out => Some (Bool false, out)
        | None => None
        end
      else if z =? 0x6E then
        match expect (lit "ull") t with
        | Some out => Some (Null, out)
        | None => None
        end
      else
        match numberLit (c :: t) with
        | Some (n, out) => Some (Number n, out)
        | None => None
        end
    end
  end

with parseMembers (fuel : nat) (depth : Z) (s : bytes)
    : option (list (bytes * value) * bytes) :=
  match fuel with
  | O => None
  | S fuel' =>
    match skipSpace s with
    | q :: t =>
      if b2z q =? 0x22 then
        match stringBody (length t) t with
        | Some (key, t1) =>
          match skipSpace t1 with
          | col :: t2 =>
            if b2z col =? 0x3A then
              match parseValue fuel' depth t2 with
              | Some (v, t3) =>
                match skipSpace t3 with
                | d :: t4 =>
                  if b2z d =? 0x2C then
                    match parseMembers fuel' depth t4 with
                    | Some (m, out) => Some ((key, v) :: m, out)
                    | None => None
                    end
                  else if b2z d =? 0x7D then Some ([(key, v)], t4)
                  else None
                | [] => None
                end
              | None => None
              end
            else None
          | [] => None
          end
        | None => None
        end
      else None
    | [] => None
    end
  end

with parseElements (fuel : nat) (depth : Z) (s : bytes)
    : option (list value * bytes) :=
  match fuel with
  | O => None
  | S fuel' =>
    match parseValue fuel' depth s with
    | Some (v, t1) =>
      match skipSpace t1 with
      | d :: t2 =>
        if b2z d =? 0x2C then
          match parseElements fuel' depth t2 with
          | Some (l, out) => Some (v :: l, out)
          | None => None
          end
        else if b2z d =? 0x5D then Some ([v], t2)
        else None
      | [] => None
      end
    | None => None
    end
  end.

(** [Decoder.readValue]: the first value of the stream; what follows
    it stays in the buffer. *)
Definition readValue (data : bytes) : value + error :=
  match skipSpace data with
  | [] => inr EOF
  | _ :: _ =>
    match parseValue (S (2 * length data)) 0 data with
    | Some (v, _) => inl v
    | None => inr SyntaxError
    end
  end.

Definition caseMask : Z := 0xDF.
Definition kelvin : Z := 0x212A.
Definition smallLongEss : Z := 0x17F.

(** Case-insensitive comparison of an ASCII field name [s] with a key
    [t], under Unicode simple folding: the Kelvin sign folds to [k] and
    the long s to [s]. *)
Fixpoint equalFold (s t : bytes) : bool :=
  match s with
  | [] => match t with [] => true | _ :: _ => false end
  | sb :: s' =>
    match t with
    | [] => false
    | tb :: t' =>
      if b2z tb <? utf8.RuneSelf then
        if b2z sb =? b2z tb then equalFold s' t'
        else
          let sbUpper := Z.land (b2z sb) caseMask in
          if (0x41 <=? sbUpper) && (sbUpper <=? 0x5A) then
            if sbUpper =? Z.land (b2z tb) caseMask then equalFold s' t'
            else false
          else false
      else
        let '(tr, size) := utf8.DecodeRune t in
        if (b2z sb =? 0x73) || (b2z sb =? 0x53) then
          if tr =? smallLongEss then equalFold s' (skipn size t) else false
        else if (b2z sb =? 0x6B) || (b2z sb =? 0x4B) then
          if tr =? kelvin then equalFold s' (skipn size t) else false
        else false
    end
  end.

(** The field a key selects: an exact match anywhere, else the first
    match up to case.  The result is the field's index. *)
Fixpoint findField_from (i : nat) (f : option nat)
    (fields : list (bytes * fieldValue)) (key : bytes) : option nat :=
  match fields with
  | [] => f
  | (name, _) :: fields' =>
    if decide (name = key) then Some i
    else
      let f' :=
        match f with
        | None => if equalFold name key then Some i else None
        | Some _ => f
        end in
      findField_from (S i) f' fields' key
  end.

Definition findField := findField_from 0 None.

(** Storing a value into a field of string or bool kind: [null] leaves
    the field as it is, a value of another kind is a type error. *)
Definition storeField (old : fieldValue) (v : value) : fieldValue + error :=
  match old, v with
  | _, Null => inl old
  | FString _, String_ s => inl (FString s)
  | FBool _, Bool b => inl (FBool b)
  | _, _ => inr UnmarshalTypeError
  end.

Definition setNth (i : nat) (v : fieldValue)
    (fs : list (bytes * fieldValue)) : list (bytes * fieldValue) :=
  match fs !! i with
  | Some (name, _) => <[ i := (name, v) ]> fs
  | None => fs
  end.

(** [decodeState.object] on a struct: the members are stored in
    order; the first type error is saved and decoding goes on. *)
Fixpoint object (members : list (bytes * value))
    (fs : list (bytes * fieldValue)) (savedError : option error)
    : list (bytes * fieldValue) * option error :=
  match members with
  | [] => (fs, savedError)
  | (key, v) :: members' =>
    match findField fs key with
    | None => object members' fs savedError
    | Some i =>
      match fs !! i with
      | Some (_, old) =>
        match storeField old v with
        | inl new => object members' (setNth i new fs) savedError
        | inr e =>
          object members' fs
            (match savedError with None => Some e | Some _ => savedError end)
        end
      | None => object members' fs savedError
      end
    end
  end.

(** [Decoder.Decode(&p)] for [p] a nil pointer to a struct whose
    fields, at their zero values, are [zero]: [None] when the pointer
    stays nil. *)
Definition Decode (zero : list (bytes * fieldValue)) (data : bytes)
    : option (list (bytes * fieldValue)) * option error :=
  match readValue data with
  | inr e => (None, Some e)
  | inl Null => (None, None)
  | inl (Object members) =>
    let '(fs, err) := object members zero None in (Some fs, err)
  | inl _ => (Some zero, Some UnmarshalTypeError)
  end.

(** The string [s] with each byte that starts no valid sequence replaced
    by the encoding of U+FFFD: what a string loses in the encoding. *)
Fixpoint coerce_fuel (fuel : nat) (s : bytes) : bytes :=
  match fuel with
  | O => []
  | S fuel' =>
    match s with
    | [] => []
    | _ :: _ =>
      let '(r, size) := utf8.DecodeRune s in
      utf8.EncodeRune r ++ coerce_fuel fuel' (skipn size s)
    end
  end.

Definition coerce (s : bytes) : bytes := coerce_fuel (length s) s.

End json.

(** ** github.com/boltdb/bolt

    A database is a finite map from bucket names to buckets and a bucket
    a finite map from keys to values.  A transaction works on a copy of
    the database; a bucket handle is the bucket's name in it.  Of the
    errors of the engine the ones decided by the arguments are kept; a
    closed or read-only database and I/O failures at commit are not
    modelled. *)

Module bolt.

Definition MaxKeySize : Z := 32768.
Definition MaxValueSize : Z := Z.shiftl 1 31 - 2.

Inductive error :=
| ErrBucketNameRequired
| ErrKeyRequired
| ErrKeyTooLarge
| ErrValueTooLarge.

Abbreviation Bucket := (gmap bytes bytes).
Abbreviation DB := (gmap bytes (gmap bytes bytes)).

(** [bytes.Compare a b <= 0]: the order of the keys in a bucket. *)
Fixpoint lessEq (a b : bytes) : bool :=
  match a, b with
  | [], _ => true
  | _ :: _, [] => false
  | x :: a', y :: b' =>
    if b2z x <? b2z y then true
    else if b2z y <? b2z x then false
    else lessEq a' b'
  end.

Definition entry_le (x y : bytes * bytes) : Prop := lessEq x.1 y.1 = true.

#[global] Instance entry_le_dec : RelDecision entry_le :=
  fun x y => decide (lessEq x.1 y.1 = true).

(** The pairs a cursor yields from [First] through [Next] until it
    returns a nil key. *)
Definition Cursor (b : gmap bytes bytes) : list (bytes * bytes) :=
  merge_sort entry_le (map_to_list b).

(** [Tx.Bucket]: [None] is the nil bucket. *)
Definition Tx_Bucket (name : bytes) (tx : gmap bytes (gmap bytes bytes))
    : option bytes :=
  match tx !! name with
  | Some _ => Some name
  | None => None
  end.

Definition CreateBucketIfNotExists (name : bytes)
    (tx : gmap bytes (gmap bytes bytes))
    : (option bytes * option error) * gmap bytes (gmap bytes bytes) :=
  if (length name =? 0)%nat then ((None, Some ErrBucketNameRequired), tx)
  else
    match tx !! name with
    | Some _ => ((Some name, None), tx)
    | None => ((Some name, None), <[ name := ∅ ]> tx)
    end.

Definition contents (bucket : bytes) (tx : gmap bytes (gmap bytes bytes))
    : gmap bytes bytes :=
  default ∅ (tx !! bucket).

Definition Get (bucket key : bytes) (tx : gmap bytes (gmap bytes bytes))
    : option bytes :=
  contents bucket tx !! key.

Definition Put (bucket key value : bytes)
    (tx : gmap bytes (gmap bytes bytes))
    : option error * gmap bytes (gmap bytes bytes) :=
  if (length key =? 0)%nat then (Some ErrKeyRequired, tx)
  else if MaxKeySize <? Z.of_nat (length key) then (Some ErrKeyTooLarge, tx)
  else if MaxValueSize <? Z.of_nat (length value)
  then (Some ErrValueTooLarge, tx)
  else (None, <[ bucket := <[ key := value ]> (contents bucket tx) ]> tx).

Definition Delete (bucket key : bytes)
    (tx : gmap bytes (gmap bytes bytes))
    : option error * gmap bytes (gmap bytes bytes) :=
  (None, <[ bucket := delete key (contents bucket tx) ]> tx).

(** [DB.Update]: the function's changes are committed when it returns
    nil and rolled back when it returns an error. *)
Definition Update {E : Type} (db : gmap bytes (gmap bytes bytes))
    (fn : gmap bytes (gmap bytes bytes) ->
          option E * gmap bytes (gmap bytes bytes))
    : option E * gmap bytes (gmap bytes bytes) :=
  match fn db with
  | (None, tx) => (None, tx)
  | (Some err, _) => (Some err, db)
  end.

(** [DB.View]: the function reads the database and returns, beside its
    error, the variables it has assigned. *)
Definition View {A : Type} (db : gmap bytes (gmap bytes bytes))
    (fn : gmap bytes (gmap bytes bytes) -> A) : A :=
  fn db.

End bolt.

(** ** crypto/rand

    The reader is the stream of bytes it will deliver; reading does not
    fail. *)

Module rand.

Definition Reader := nat -> byte.

(** [io.ReadFull(rand.Reader, buf)] for a buffer of [n] bytes: the bytes
    read and the reader after them. *)
Definition ReadFull (r : Reader) (n : nat) : bytes * Reader :=
  (map r (seq 0 n), fun i => r (n + i)%nat).

End rand.

(** ** golang.org/x/crypto/bcrypt

    [GenerateFromPassword] with the Blowfish key schedule ([bcrypt]) and
    the radix-64 encoding of the salt ([base64Encode]) left open. *)

Module bcrypt.

Definition MinCost : Z := 4.
Definition MaxCost : Z := 31.
Definition DefaultCost : Z := 10.

Definition majorVersion : byte := x32.
Definition minorVersion : byte := x61.
Definition maxSaltSize : nat := 16.
Definition encodedSaltSize : nat := 22.
Definition encodedHashSize : nat := 31.

Inductive error :=
| ErrPasswordTooLong
| InvalidCostError (cost : Z)
| CipherError.

Record Cipher := {
  base64Encode : bytes -> bytes;
  bcrypt : bytes -> Z -> bytes -> bytes * option error
}.

Record hashed := {
  hash : bytes;
  salt : bytes;
  cost : Z;
  major : byte;
  minor : byte
}.

Definition checkCost (cost : Z) : option error :=
  if (cost <? MinCost) || (MaxCost <? cost) then Some (InvalidCostError cost)
  else None.

(** The built-in [copy(arr[n:], src)]. *)
Definition copy_at (arr : bytes) (n : nat) (src : bytes) : bytes :=
  firstn n arr ++ firstn (length arr - n) src
    ++ skipn (n + length src) arr.

(** [fmt.Sprintf("%02d", cost)] for a cost of at most two digits. *)
Definition Sprintf_02d (cost : Z) : bytes :=
  [z2b (0x30 + cost / 10); z2b (0x30 + cost mod 10)].

Definition Hash (p : hashed) : bytes :=
  let arr := repeat x00 60 in
  let arr := copy_at arr 0 [x24] in
  let arr := copy_at arr 1 [major p] in
  let n := 2%nat in
  let '(arr, n) :=
    if negb (b2z (minor p) =? 0) then (copy_at arr 2 [minor p], 3%nat)
    else (arr, n) in
  let arr := copy_at arr n [x24] in
  let n := (n + 1)%nat in
  let arr := copy_at arr n (Sprintf_02d (cost p)) in
  let n := (n + 2)%nat in
  let arr := copy_at arr n [x24] in
  let n := (n + 1)%nat in
  let arr := copy_at arr n (salt p) in
  let n := (n + encodedSaltSize)%nat in
  let arr := copy_at arr n (hash p) in
  let n := (n + encodedHashSize)%nat in
  firstn n arr.

Definition newFromPassword (c : Cipher) (r : rand.Reader)
    (password : bytes) (cost : Z)
    : (option hashed * option error) * rand.Reader :=
  let cost := if cost <? MinCost then DefaultCost else cost in
  match checkCost cost with
  | Some err => ((None, Some err), r)
  | None =>
    let '(unencodedSalt, r) := rand.ReadFull r maxSaltSize in
    let salt := base64Encode c unencodedSalt in
    match bcrypt c password cost salt with
    | (_, Some err) => ((None, Some err), r)
    | (hash, None) =>
      ((Some {| hash := hash; salt := salt; cost := cost;
                major := majorVersion; minor := minorVersion |}, None), r)
    end
  end.

Definition GenerateFromPassword (c : Cipher) (r : rand.Reader)
    (password : bytes) (cost : Z)
    : (bytes * option error) * rand.Reader :=
  if (72 <? length password)%nat then (([], Some ErrPasswordTooLong), r)
  else
    match newFromPassword c r password cost with
    | ((Some p, None), r) => ((Hash p, None), r)
    | ((_, Some err), r) => (([], Some err), r)
    | ((None, None), r) => (([], None), r)
    end.

End bcrypt.

(** ** github.com/pborman/uuid *)

Module uuid.

Definition hextable (i : Z) : byte :=
  if i <? 10 then z2b (0x30 + i) else z2b (0x61 + (i - 10)).

(** [hex.Encode]. *)
Fixpoint hex_Encode (src : bytes) : bytes :=
  match src with
  | [] => []
  | v :: src' =>
    hextable (Z.shiftr (b2z v) 4) :: hextable (Z.land (b2z v) 0x0F)
      :: hex_Encode src'
  end.

(** [arr[lo:hi]]. *)
Definition slice (arr : bytes) (lo hi : nat) : bytes :=
  firstn (hi - lo) (skipn lo arr).

Definition setByte (arr : bytes) (i : nat) (v : byte) : bytes :=
  <[ i := v ]> arr.

Definition NewRandom (r : rand.Reader) : bytes * rand.Reader :=
  let '(uuid, r) := rand.ReadFull r 16 in
  let uuid :=
    setByte uuid 6 (z2b (Z.lor (Z.land (utf8.at_ uuid 6) 0x0F) 0x40)) in
  let uuid :=
    setByte uuid 8 (z2b (Z.lor (Z.land (utf8.at_ uuid 8) 0x3F) 0x80)) in
  (uuid, r).

Definition String_ (uuid : bytes) : bytes :=
  if negb (length uuid =? 16)%nat then []
  else
    hex_Encode (slice uuid 0 4) ++ [x2d]
      ++ hex_Encode (slice uuid 4 6) ++ [x2d]
      ++ hex_Encode (slice uuid 6 8) ++ [x2d]
      ++ hex_Encode (slice uuid 8 10) ++ [x2d]
      ++ hex_Encode (slice uuid 10 16).

Definition New (r : rand.Reader) : bytes * rand.Reader :=
  let '(u, r) := NewRandom r in (String_ u, r).

End uuid.

(** ** authentication/backends/storage_backend.go *)

(** An [error] value of the file: one passed on from the store or from
    the decoder, or one made by [fmt.Errorf], kept as the format and its
    arguments. *)
Inductive error :=
| BoltError (e : bolt.error)
| JsonError (e : json.error)
| Errorf (format : bytes) (args : list bytes).

(** What a call does besides returning: Go's run-time panics. *)
Inductive panic :=
| NilPointerDereference.

Inductive outcome (A : Type) :=
| Returns (a : A)
| Panics (p : panic).

Arguments Returns {A} a.
Arguments Panics {A} p.

Record User := {
  UUID : bytes;
  Username : bytes;
  Password : bytes;
  IsAdmin : bool
}.

(** The fields of a [User] under their [json] tags, in declaration
    order, and the [User] such a list of fields stands for. *)
Definition User_fields (u : User) : list (bytes * json.fieldValue) :=
  [ (lit "uuid", json.FString (UUID u));
    (lit "username", json.FString (Username u));
    (lit "password", json.FString (Password u));
    (lit "is_admin", json.FBool (IsAdmin u)) ].

Definition zeroUser : User :=
  {| UUID := []; Username := []; Password := []; IsAdmin := false |}.

Definition User_of_fields (fs : list (bytes * json.fieldValue)) : User :=
  match fs with
  | [ (_, json.FString a); (_, json.FString b); (_, json.FString c);
      (_, json.FBool d) ] =>
    {| UUID := a; Username := b; Password := c; IsAdmin := d |}
  | _ => zeroUser
  end.

Definition Encode (u : User) : bytes * option error :=
  let '(buf, err) := json.Encode (User_fields u) in
  match err with
  | Some err => ([], Some (JsonError err))
  | None => (buf, None)
  end.

Definition DecodeUser (user : bytes) : option User * option error :=
  let '(u, err) := json.Decode (User_fields zeroUser) user in
  match err with
  | Some err => (None, Some (JsonError err))
  | None => (option_map User_of_fields u, None)
  end.

(** The interface [AuthBackend].  A backend works on a database; adding
    a user takes the cipher and the random reader as well. *)
Module AuthBackend.

Class t (B : Type) := {
  SetValue : B -> bytes -> bytes -> gmap bytes (gmap bytes bytes) ->
             option error * gmap bytes (gmap bytes bytes);
  GetValue : B -> bytes -> gmap bytes (gmap bytes bytes) ->
             bytes * option error;
  DeleteUser : B -> bytes -> gmap bytes (gmap bytes bytes) ->
               option error * gmap bytes (gmap bytes bytes);
  AddUser : B -> bcrypt.Cipher -> rand.Reader -> bytes -> bytes -> bool ->
            gmap bytes (gmap bytes bytes) ->
            option error * gmap bytes (gmap bytes bytes);
  GetUser : B -> bytes -> gmap bytes (gmap bytes bytes) ->
            option User * option error;
  GetAllUsers : B -> gmap bytes (gmap bytes bytes) ->
                outcome (list User * option error)
}.

End AuthBackend.

(** [UserBucketName] and [TokenBucketName]. *)
Definition UserBucketName : bytes := lit "authbucket".
Definition TokenBucketName : bytes := lit "tokenbucket".

(** [BoltAuth] without its handle [DS], which the operations take and
    return as the database. *)
Record BoltAuth := {
  TokenBucket : bytes;
  UserBucket : bytes
}.

Definition NewBoltDBAuthBackend (tokenBucket userBucket : bytes) : BoltAuth :=
  {| TokenBucket := tokenBucket; UserBucket := userBucket |}.

(** The operations take the database that [DS] points to and return the
    database they leave.  [AddUser] takes as well the cipher behind
    bcrypt and the reader behind [crypto/rand], which are global in the
    source.  The calls to logrus leave the results and the database as
    they are and are left out. *)

Definition AddUser (b : BoltAuth) (c : bcrypt.Cipher) (r : rand.Reader)
    (username password : bytes) (admin : bool)
    (DS : gmap bytes (gmap bytes bytes))
    : option error * gmap bytes (gmap bytes bytes) :=
  bolt.Update DS (fun tx =>
    let '((bucket, err), tx) := bolt.CreateBucketIfNotExists (UserBucket b) tx in
    match err with
    | Some err => (Some (BoltError err), tx)
    | None =>
      let '((hashedPassword, _), r) :=
        bcrypt.GenerateFromPassword c r password 10 in
      let '(uid, r) := uuid.New r in
      let u := {| UUID := uid;
                  Username := username;
                  Password := hashedPassword;
                  IsAdmin := admin |} in
      let '(bts, err) := Encode u in
      match err with
      | Some err => (Some err, tx)
      | None =>
        let '(err, tx) := bolt.Put (default [] bucket) username bts tx in
        match err with
        | Some err => (Some (BoltError err), tx)
        | None => (None, tx)
        end
      end
    end).

Definition delete_ (b : BoltAuth) (key bucket : bytes)
    (DS : gmap bytes (gmap bytes bytes))
    : option error * gmap bytes (gmap bytes bytes) :=
  bolt.Update DS (fun tx =>
    let '((bucket, err), tx) := bolt.CreateBucketIfNotExists bucket tx in
    match err with
    | Some err => (Some (BoltError err), tx)
    | None =>
      let '(err, tx) := bolt.Delete (default [] bucket) key tx in
      match err with
      | Some err => (Some (BoltError err), tx)
      | None => (None, tx)
      end
    end).

Definition DeleteUser (b : BoltAuth) (username : bytes)
    (DS : gmap bytes (gmap bytes bytes))
    : option error * gmap bytes (gmap bytes bytes) :=
  delete_ b username (UserBucket b) DS.

Definition GetUser (b : BoltAuth) (username : bytes)
    (DS : gmap bytes (gmap bytes bytes)) : option User * option error :=
  bolt.View DS (fun tx =>
    match bolt.Tx_Bucket (UserBucket b) tx with
    | None => (None, Some (Errorf (lit "Bucket %q not found!") [UserBucket b]))
    | Some bucket =>
      match bolt.Get bucket username tx with
      | None => (None, Some (Errorf (lit "user not found") []))
      | Some val =>
        let '(user, err) := DecodeUser val in
        match err with
        | Some _ =>
          (user, Some (Errorf (lit "error while getting user %q " ++ [x0a])
                              [username]))
        | None => (user, None)
        end
      end
    end).

(** The loop of [GetAllUsers] over the pairs of the cursor; [*usr]
    panics when [usr] is nil. *)
Fixpoint GetAllUsers_loop (kvs : list (bytes * bytes)) (users : list User)
    : outcome (list User) :=
  match kvs with
  | [] => Returns users
  | (k, v) :: kvs' =>
    let '(usr, err) := DecodeUser v in
    match err with
    | Some _ => GetAllUsers_loop kvs' users
    | None =>
      match usr with
      | Some u => GetAllUsers_loop kvs' (users ++ [u])
      | None => Panics NilPointerDereference
      end
    end
  end.

Definition GetAllUsers (b : BoltAuth) (DS : gmap bytes (gmap bytes bytes))
    : outcome (list User * option error) :=
  bolt.View DS (fun tx =>
    match bolt.Tx_Bucket (UserBucket b) tx with
    | None => Returns ([], None)
    | Some bucket =>
      match GetAllUsers_loop (bolt.Cursor (bolt.contents bucket tx)) [] with
      | Returns users => Returns (users, None)
      | Panics p => Panics p
      end
    end).

Definition SetValue (b : BoltAuth) (key value : bytes)
    (DS : gmap bytes (gmap bytes bytes))
    : option error * gmap bytes (gmap bytes bytes) :=
  bolt.Update DS (fun tx =>
    let '((bucket, err), tx) := bolt.CreateBucketIfNotExists (TokenBucket b) tx in
    match err with
    | Some err => (Some (BoltError err), tx)
    | None =>
      let '(err, tx) := bolt.Put (default [] bucket) key value tx in
      match err with
      | Some err => (Some (BoltError err), tx)
      | None => (None, tx)
      end
    end).

Definition GetValue (b : BoltAuth) (key : bytes)
    (DS : gmap bytes (gmap bytes bytes)) : bytes * option error :=
  bolt.View DS (fun tx =>
    match bolt.Tx_Bucket (TokenBucket b) tx with
    | None => ([], Some (Errorf (lit "Bucket %q not found!") [TokenBucket b]))
    | Some bucket =>
      match bolt.Get bucket key tx with
      | None => ([], Some (Errorf (lit "key %q not found " ++ [x0a]) [key]))
      | Some val => (val, None)
      end
    end).

(** [BoltAuth] implements [AuthBackend]. *)
#[global] Instance BoltAuth_AuthBackend : AuthBackend.t BoltAuth := {|
  AuthBackend.SetValue := SetValue;
  AuthBackend.GetValue := GetValue;
  AuthBackend.DeleteUser := DeleteUser;
  AuthBackend.AddUser := AddUser;
  AuthBackend.GetUser := GetUser;
  AuthBackend.GetAllUsers := GetAllUsers
|}.

(** *** The failures the operations are specified with *)

Definition KeyspaceMissingError (keyspace : bytes) : error :=
  Errorf (lit "Bucket %q not found!") [keyspace].

Definition NotFoundError (key : bytes) : error :=
  Errorf (lit "key %q not found " ++ [x0a]) [key].

Definition UserNotFoundError : error :=
  Errorf (lit "user not found") [].

Definition DecodeError (username : bytes) : error :=
  Errorf (lit "error while getting user %q " ++ [x0a]) [username].

(** The text of an error made by [fmt.Errorf]: the format with each
    [%q] replaced by the quoted form of the next argument, for whatever
    [quote] the verb applies. *)
Fixpoint Sprintf (quote : bytes -> bytes) (format : bytes)
    (args : list bytes) : bytes :=
  match format with
  | [] => []
  | c :: format' =>
    match format' with
    | v :: format'' =>
      if (b2z c =? 0x25) && (b2z v =? 0x71) then
        match args with
        | a :: args' => quote a ++ Sprintf quote format'' args'
        | [] => lit "%!q(MISSING)" ++ Sprintf quote format'' []
        end
      else c :: Sprintf quote format' args
    | [] => [c]
    end
  end.

Definition Error (quote : bytes -> bytes) (e : error) : option bytes :=
  match e with
  | Errorf format args => Some (Sprintf quote format args)
  | _ => None
  end.

(** * Notions used in the statements and in the proofs *)

(** The rune of a well-formed sequence, by arithmetic. *)
Definition rune2 (b0 b1 : Z) : Z := (b0 - 0xC0) * 64 + (b1 - 0x80).
Definition rune3 (b0 b1 b2 : Z) : Z :=
  (b0 - 0xE0) * 4096 + (b1 - 0x80) * 64 + (b2 - 0x80).
Definition rune4 (b0 b1 b2 b3 : Z) : Z :=
  (b0 - 0xF0) * 262144 + (b1 - 0x80) * 4096 + (b2 - 0x80) * 64 + (b3 - 0x80).

(** What [DecodeRune] makes of a sequence, by its leading byte. *)
Inductive decoded : bytes -> Z -> nat -> Prop :=
| dec_ascii b0 t :
    b2z b0 < 0x80 -> decoded (b0 :: t) (b2z b0) 1
| dec_error b0 t :
    0x80 <= b2z b0 -> decoded (b0 :: t) utf8.RuneError 1
| dec_two b0 b1 t :
    0xC2 <= b2z b0 < 0xE0 -> 0x80 <= b2z b1 <= 0xBF ->
    decoded (b0 :: b1 :: t) (rune2 (b2z b0) (b2z b1)) 2
| dec_three b0 b1 b2 t :
    0xE0 <= b2z b0 < 0xF0 -> 0x80 <= b2z b1 <= 0xBF ->
    0x80 <= b2z b2 <= 0xBF ->
    0x800 <= rune3 (b2z b0) (b2z b1) (b2z b2) ->
    ~ (0xD800 <= rune3 (b2z b0) (b2z b1) (b2z b2) <= 0xDFFF) ->
    decoded (b0 :: b1 :: b2 :: t) (rune3 (b2z b0) (b2z b1) (b2z b2)) 3
| dec_four b0 b1 b2 b3 t :
    0xF0 <= b2z b0 < 0xF5 -> 0x80 <= b2z b1 <= 0xBF ->
    0x80 <= b2z b2 <= 0xBF -> 0x80 <= b2z b3 <= 0xBF ->
    0x10000 <= rune4 (b2z b0) (b2z b1) (b2z b2) (b2z b3) <= 0x10FFFF ->
    decoded (b0 :: b1 :: b2 :: b3 :: t)
      (rune4 (b2z b0) (b2z b1) (b2z b2) (b2z b3)) 4.

(** One step of [stringBody], by the head of the input. *)
Definition consBody (pre : bytes) (r : option (bytes * bytes))
    : option (bytes * bytes) :=
  match r with
  | Some (t, out) => Some (pre ++ t, out)
  | None => None
  end.

(** The value the decoder reads back from an encoded field. *)
Definition valueOf (v : json.fieldValue) : json.value :=
  match v with
  | json.FString s => json.String_ (json.coerce s)
  | json.FBool b => json.Bool b
  end.

Definition memberOf (f : bytes * json.fieldValue) : bytes * json.value :=
  (json.coerce f.1, valueOf f.2).

(** The [User] read back from the encoding of [u]. *)
Definition coerceUser (u : User) : User :=
  {| UUID := json.coerce (UUID u);
     Username := json.coerce (Username u);
     Password := json.coerce (Password u);
     IsAdmin := IsAdmin u |}.

(** [a] comes strictly before [b] in byte order: [bytes.Compare a b < 0]. *)
Definition keyLess (a b : bytes) : Prop := bolt.lessEq b a = false.

(** The keys and values [Put] accepts. *)
Definition validKey (key : bytes) : Prop :=
  key <> [] /\ Z.of_nat (length key) <= bolt.MaxKeySize.

Definition validValue (value : bytes) : Prop :=
  Z.of_nat (length value) <= bolt.MaxValueSize.

(** The header of every hash made with cost 10. *)
Definition header : bytes := lit "$2a$10$".

(** Strings of ASCII bytes are well-formed. *)
Definition ascii (s : bytes) : Prop := Forall (fun b => b2z b < 0x80) s.

(** The record [AddUser] builds: the hash, or nothing when hashing
    fails, and an identifier drawn after it. *)
Definition newUser (c : bcrypt.Cipher) (r : rand.Reader)
    (username password : bytes) (admin : bool) : User :=
  let '((hashedPassword, _), r) := bcrypt.GenerateFromPassword c r password 10 in
  let '(uid, r) := uuid.New r in
  {| UUID := uid; Username := username; Password := hashedPassword;
     IsAdmin := admin |}.

(** The reader that [AddUser] draws the identifier from. *)
Definition idReader (c : bcrypt.Cipher) (r : rand.Reader) (password : bytes)
    : rand.Reader :=
  (bcrypt.GenerateFromPassword c r password 10).2.

(** Values for the examples: the backend on the default keyspace names,
    a stand-in for the cipher and a stream of bytes for the reader. *)
Definition defaultBackend : BoltAuth :=
  NewBoltDBAuthBackend TokenBucketName UserBucketName.

Definition sampleCipher : bcrypt.Cipher :=
  {| bcrypt.base64Encode := fun s => s;
     bcrypt.bcrypt := fun password cost salt => (password, None) |}.

Definition sampleReader (seed : nat) : rand.Reader :=
  fun i => z2b (Z.of_nat (seed + 7 * i)).

Definition longPassword : bytes := repeat x78 73.

(** The user a stored pair decodes to, if it decodes to one. *)
Definition decodable (kv : bytes * bytes) : option User :=
  match DecodeUser kv.2 with
  | (Some u, None) => Some u
  | _ => None
  end.

(** A stored value that decodes without error to no user, as the
    literal [null] does. *)
Definition decodesToNil (v : bytes) : Prop := DecodeUser v = (None, None).

Definition sampleUser : User :=
  {| UUID := lit "6ba7b810-9dad-41d1-80b4-00c04fd430c8";
     Username := lit "carol";
     Password := lit "$2a$10$N9qo8uLOickgx2ZMRZoMye";
     IsAdmin := true |}.

(** A [User] whose username is the single byte [0xff], which is not
    UTF-8. *)
Definition latin1User : User :=
  {| UUID := lit "6ba7b810-9dad-41d1-80b4-00c04fd430c8";
     Username := [xff];
     Password := lit "$2a$10$N9qo8uLOickgx2ZMRZoMye";
     IsAdmin := false |}.

(** A store with the users bob and alice, added in this order. *)
Definition sampleStore : gmap bytes (gmap bytes bytes) :=
  (AddUser defaultBackend sampleCipher (sampleReader 2) (lit "alice")
     (lit "pw2") true
     (AddUser defaultBackend sampleCipher (sampleReader 1) (lit "bob")
        (lit "pw1") false ∅).2).2.

(** A user keyspace whose one record is the JSON literal [null]. *)
Definition nullStore : gmap bytes (gmap bytes bytes) :=
  {[ UserBucketName := {[ lit "k" := lit "null" ]} ]}.

(** The users alice and carol, and between them a record for bob that
    the storage layer has replaced. *)
Definition twoUsers : gmap bytes (gmap bytes bytes) :=
  (AddUser defaultBackend sampleCipher (sampleReader 2) (lit "carol")
     (lit "pw2") true
     (AddUser defaultBackend sampleCipher (sampleReader 1) (lit "alice")
        (lit "pw1") false ∅).2).2.

Definition replaceRecord (key value : bytes)
    (DS : gmap bytes (gmap bytes bytes)) : gmap bytes (gmap bytes bytes) :=
  <[ UserBucketName := <[ key := value ]> (bolt.contents UserBucketName DS) ]> DS.

(** The calls that change the store, and the store after a sequence of
    them. *)
Inductive call :=
| CallAddUser (c : bcrypt.Cipher) (r : rand.Reader)
    (username password : bytes) (admin : bool)
| CallDeleteUser (username : bytes)
| CallSetValue (key value : bytes).

Definition perform (b : BoltAuth) (DS : gmap bytes (gmap bytes bytes))
    (cl : call) : gmap bytes (gmap bytes bytes) :=
  match cl with
  | CallAddUser c r username password admin =>
    (AddUser b c r username password admin DS).2
  | CallDeleteUser username => (DeleteUser b username DS).2
  | CallSetValue key value => (SetValue b key value DS).2
  end.

Definition performAll (b : BoltAuth) (calls : list call)
    (DS : gmap bytes (gmap bytes bytes)) : gmap bytes (gmap bytes bytes) :=
  fold_left (perform b) calls DS.

(** A stored pair as [AddUser] writes it: the value decodes to a user
    whose username is the key, as the encoding keeps it. *)
Definition userRecord (kv : bytes * bytes) : Prop :=
  exists u, DecodeUser kv.2 = (Some u, None) /\ Username u = json.coerce kv.1.

Definition userRecords (b : BoltAuth) (DS : gmap bytes (gmap bytes bytes))
    : Prop :=
  forall k v : bytes,
    bolt.Get (UserBucket b) k DS = Some v -> userRecord (k, v).
(** * Facts about bytes and bit operations *)

Lemma b2z_range b : 0 <= b2z b < 256.
Proof. unfold b2z. pose proof (Byte.to_N_bounded b). lia. Qed.

Lemma z2b_b2z b : z2b (b2z b) = b.
Proof.
  unfold z2b, b2z. pose proof (Byte.to_N_bounded b).
  rewrite Z.mod_small by lia. rewrite N2Z.id, Byte.of_to_N. reflexivity.
Qed.

Lemma b2z_z2b z : b2z (z2b z) = z mod 256.
Proof.
  unfold z2b, b2z. pose proof (Z.mod_pos_bound z 256 ltac:(lia)).
  destruct (Byte.of_N (Z.to_N (z mod 256))) eqn:E.
  - apply Byte.to_of_N in E. rewrite E. lia.
  - apply Byte.of_N_None_iff in E. lia.
Qed.

Lemma b2z_inj a b : b2z a = b2z b -> a = b.
Proof. intros H. rewrite <- (z2b_b2z a), <- (z2b_b2z b), H. reflexivity. Qed.

Lemma z2b_eq z b : z = b2z b -> z2b z = b.
Proof. intros ->. apply z2b_b2z. Qed.

(** Bit operations on bounded numbers, as arithmetic. *)
Lemma lor_add a b n :
  0 <= n -> 0 <= b < 2 ^ n -> a mod 2 ^ n = 0 -> Z.lor a b = a + b.
Proof.
  intros Hn Hb Ha.
  assert (Hl : Z.land a b = 0).
  { apply Z.bits_inj'. intros m Hm. rewrite Z.land_spec, Z.bits_0.
    destruct (Z.lt_ge_cases m n) as [Hlt | Hge].
    - rewrite (Z.div_mod a (2 ^ n)) by lia. rewrite Ha, Z.add_0_r.
      rewrite Z.mul_comm, Z.mul_pow2_bits_low by lia. reflexivity.
    - rewrite <- (Z.mod_small b (2 ^ n)) by lia.
      rewrite Z.mod_pow2_bits_high by lia. apply andb_false_r. }
  rewrite <- Z.lxor_lor by exact Hl. symmetry. apply Z.add_nocarry_lxor, Hl.
Qed.

Lemma land_mask a n : 0 <= n -> Z.land a (2 ^ n - 1) = a mod 2 ^ n.
Proof.
  intros Hn. rewrite <- Z.land_ones by exact Hn.
  rewrite Z.ones_equiv, Z.sub_1_r. reflexivity.
Qed.

(** * Facts about unicode/utf8 *)

Lemma first_cases z :
  0 <= z < 256 ->
  (z < 0x80 /\ utf8.first z = utf8.as_) \/
  ((0x80 <= z < 0xC2 \/ 0xF5 <= z) /\ utf8.first z = utf8.xx) \/
  (0xC2 <= z < 0xE0 /\ utf8.first z = utf8.s1) \/
  (z = 0xE0 /\ utf8.first z = utf8.s2) \/
  ((0xE1 <= z < 0xED \/ 0xEE <= z < 0xF0) /\ utf8.first z = utf8.s3) \/
  (z = 0xED /\ utf8.first z = utf8.s4) \/
  (z = 0xF0 /\ utf8.first z = utf8.s5) \/
  (0xF1 <= z < 0xF4 /\ utf8.first z = utf8.s6) \/
  (z = 0xF4 /\ utf8.first z = utf8.s7).
Proof.
  intros Hz. unfold utf8.first.
  repeat match goal with
  | |- context [?a <? ?b] => destruct (Z.ltb_spec a b)
  | |- context [?a =? ?b] => destruct (Z.eqb_spec a b)
  end; try lia; intuition lia.
Qed.

Lemma land_63 a : Z.land a 0x3F = a mod 64.
Proof. exact (land_mask a 6 ltac:(lia)). Qed.
Lemma land_31 a : Z.land a 0x1F = a mod 32.
Proof. exact (land_mask a 5 ltac:(lia)). Qed.
Lemma land_15 a : Z.land a 0x0F = a mod 16.
Proof. exact (land_mask a 4 ltac:(lia)). Qed.
Lemma land_7 a : Z.land a 0x07 = a mod 8.
Proof. exact (land_mask a 3 ltac:(lia)). Qed.

Lemma shiftl_6 a : Z.shiftl a 6 = a * 64.
Proof. rewrite Z.shiftl_mul_pow2 by lia. reflexivity. Qed.
Lemma shiftl_12 a : Z.shiftl a 12 = a * 4096.
Proof. rewrite Z.shiftl_mul_pow2 by lia. reflexivity. Qed.
Lemma shiftl_18 a : Z.shiftl a 18 = a * 262144.
Proof. rewrite Z.shiftl_mul_pow2 by lia. reflexivity. Qed.
Lemma shiftr_4 a : Z.shiftr a 4 = a / 16.
Proof. rewrite Z.shiftr_div_pow2 by lia. reflexivity. Qed.
Lemma shiftr_6 a : Z.shiftr a 6 = a / 64.
Proof. rewrite Z.shiftr_div_pow2 by lia. reflexivity. Qed.
Lemma shiftr_12 a : Z.shiftr a 12 = a / 4096.
Proof. rewrite Z.shiftr_div_pow2 by lia. reflexivity. Qed.
Lemma shiftr_18 a : Z.shiftr a 18 = a / 262144.
Proof. rewrite Z.shiftr_div_pow2 by lia. reflexivity. Qed.

Lemma lor_64 a b : 0 <= b < 64 -> a mod 64 = 0 -> Z.lor a b = a + b.
Proof. intros. apply (lor_add a b 6); [lia | exact H | exact H0]. Qed.
Lemma lor_4096 a b : 0 <= b < 4096 -> a mod 4096 = 0 -> Z.lor a b = a + b.
Proof. intros. apply (lor_add a b 12); [lia | exact H | exact H0]. Qed.
Lemma lor_262144 a b : 0 <= b < 262144 -> a mod 262144 = 0 -> Z.lor a b = a + b.
Proof. intros. apply (lor_add a b 18); [lia | exact H | exact H0]. Qed.

Ltac lead_class x sz lo hi :=
  change (utf8.as_ <=? x) with false;
  change (Z.land x 7) with sz;
  change (utf8.acceptRanges (Z.shiftr x 4)) with (lo, hi);
  cbv beta iota zeta; cbn [fst snd].

Ltac split_tests :=
  repeat match goal with
  | |- context [Z.of_nat ?n <? ?k] =>
    destruct (Z.ltb_spec (Z.of_nat n) k)
  | |- context [(?a <? ?b) || (?c <? ?d)] =>
    destruct (Z.ltb_spec a b); destruct (Z.ltb_spec c d);
    cbn [orb]
  | |- context [?a <=? ?b] => destruct (Z.leb_spec a b)
  end.

Ltac to_arith :=
  unfold utf8.mask2, utf8.mask3, utf8.mask4, utf8.maskx;
  rewrite ?land_63, ?land_31, ?land_15, ?land_7,
    ?shiftl_6, ?shiftl_12, ?shiftl_18.

Lemma decode2_arith b0 b1 :
  0xC2 <= b0 < 0xE0 -> 0x80 <= b1 <= 0xBF ->
  Z.lor (Z.shiftl (Z.land b0 utf8.mask2) 6) (Z.land b1 utf8.maskx)
  = rune2 b0 b1.
Proof.
  intros. to_arith. rewrite lor_64 by lia. unfold rune2. lia.
Qed.

Lemma decode3_arith b0 b1 b2 :
  0xE0 <= b0 < 0xF0 -> 0x80 <= b1 <= 0xBF -> 0x80 <= b2 <= 0xBF ->
  Z.lor (Z.lor (Z.shiftl (Z.land b0 utf8.mask3) 12)
               (Z.shiftl (Z.land b1 utf8.maskx) 6))
        (Z.land b2 utf8.maskx)
  = rune3 b0 b1 b2.
Proof.
  intros. to_arith. rewrite (lor_4096 _ (b1 mod 64 * 64)) by lia.
  rewrite lor_64 by lia. unfold rune3. lia.
Qed.

Lemma decode4_arith b0 b1 b2 b3 :
  0xF0 <= b0 < 0xF8 -> 0x80 <= b1 <= 0xBF -> 0x80 <= b2 <= 0xBF ->
  0x80 <= b3 <= 0xBF ->
  Z.lor (Z.lor (Z.lor (Z.shiftl (Z.land b0 utf8.mask4) 18)
                      (Z.shiftl (Z.land b1 utf8.maskx) 12))
               (Z.shiftl (Z.land b2 utf8.maskx) 6))
        (Z.land b3 utf8.maskx)
  = rune4 b0 b1 b2 b3.
Proof.
  intros. to_arith. rewrite (lor_262144 _ (b1 mod 64 * 4096)) by lia.
  rewrite (lor_4096 _ (b2 mod 64 * 64)) by lia.
  rewrite lor_64 by lia. unfold rune4. lia.
Qed.

Ltac finish_decoded :=
  eexists _, _; split; [reflexivity|];
  first
  [ apply dec_error; lia
  | rewrite decode2_arith by lia; apply dec_two; lia
  | rewrite decode3_arith by lia; apply dec_three; unfold rune3; lia
  | rewrite decode4_arith by lia; apply dec_four; unfold rune4; lia ].

Lemma DecodeRune_decoded b0 t :
  exists r n, utf8.DecodeRune (b0 :: t) = (r, n) /\ decoded (b0 :: t) r n.
Proof.
  pose proof (b2z_range b0) as R0.
  unfold utf8.DecodeRune.
  change (utf8.at_ (b0 :: t) 0) with (b2z b0).
  replace (Z.of_nat (length (b0 :: t)) <? 1) with false
    by (symmetry; apply Z.ltb_ge; simpl length; lia).
  destruct (first_cases (b2z b0) R0)
    as [[H ->]|[[H ->]|[[H ->]|[[H ->]|[[H ->]|[[H ->]|[[H ->]|[[H ->]|[H ->]]]]]]]]].
  - eexists _, _. split; [reflexivity|].
    change (Z.shiftr (utf8.int32 (Z.shiftl utf8.as_ 31)) 31) with 0.
    change (Z.lnot 0) with (-1). rewrite Z.land_m1_r, Z.land_0_r, Z.lor_0_r.
    constructor. lia.
  - eexists _, _. split; [reflexivity|].
    change (Z.shiftr (utf8.int32 (Z.shiftl utf8.xx 31)) 31) with (-1).
    change (Z.lnot (-1)) with 0. rewrite Z.land_0_r, Z.land_m1_r, Z.lor_0_l.
    constructor. lia.
  - lead_class utf8.s1 2 0x80 0xBF.
    destruct t as [|b1 t]; simpl length; unfold utf8.locb, utf8.hicb;
      unfold utf8.at_; cbn [nth]; split_tests; try lia; finish_decoded.
  - lead_class utf8.s2 3 0xA0 0xBF.
    destruct t as [|b1 [|b2 t]]; simpl length; unfold utf8.locb, utf8.hicb;
      unfold utf8.at_; cbn [nth]; split_tests; try lia; finish_decoded.
  - lead_class utf8.s3 3 0x80 0xBF.
    destruct t as [|b1 [|b2 t]]; simpl length; unfold utf8.locb, utf8.hicb;
      unfold utf8.at_; cbn [nth]; split_tests; try lia; finish_decoded.
  - lead_class utf8.s4 3 0x80 0x9F.
    destruct t as [|b1 [|b2 t]]; simpl length; unfold utf8.locb, utf8.hicb;
      unfold utf8.at_; cbn [nth]; split_tests; try lia; finish_decoded.
  - lead_class utf8.s5 4 0x90 0xBF.
    destruct t as [|b1 [|b2 [|b3 t]]]; simpl length; unfold utf8.locb, utf8.hicb;
      unfold utf8.at_; cbn [nth]; split_tests; try lia; finish_decoded.
  - lead_class utf8.s6 4 0x80 0xBF.
    destruct t as [|b1 [|b2 [|b3 t]]]; simpl length; unfold utf8.locb, utf8.hicb;
      unfold utf8.at_; cbn [nth]; split_tests; try lia; finish_decoded.
  - lead_class utf8.s7 4 0x80 0x8F.
    destruct t as [|b1 [|b2 [|b3 t]]]; simpl length; unfold utf8.locb, utf8.hicb;
      unfold utf8.at_; cbn [nth]; split_tests; try lia; finish_decoded.
Qed.

Ltac decode_exact :=
  match goal with
  | |- utf8.DecodeRune (?b0 :: ?t) = _ =>
    let R0 := fresh "R0" in
    pose proof (b2z_range b0) as R0;
    unfold utf8.DecodeRune;
    change (utf8.at_ (b0 :: t) 0) with (b2z b0);
    replace (Z.of_nat (length (b0 :: t)) <? 1) with false
      by (symmetry; apply Z.ltb_ge; simpl length; lia);
    destruct (first_cases (b2z b0) R0)
      as [[? ->]|[[? ->]|[[? ->]|[[? ->]|[[? ->]|[[? ->]|[[? ->]|[[? ->]|[? ->]]]]]]]]];
    try (exfalso; lia)
  end.

Lemma DecodeRune_ascii b0 t :
  b2z b0 < 0x80 -> utf8.DecodeRune (b0 :: t) = (b2z b0, 1%nat).
Proof.
  intros H. decode_exact.
  change (Z.shiftr (utf8.int32 (Z.shiftl utf8.as_ 31)) 31) with 0.
  change (Z.lnot 0) with (-1). rewrite Z.land_m1_r, Z.land_0_r, Z.lor_0_r.
  reflexivity.
Qed.

Lemma DecodeRune_two b0 b1 t :
  0xC2 <= b2z b0 < 0xE0 -> 0x80 <= b2z b1 <= 0xBF ->
  utf8.DecodeRune (b0 :: b1 :: t) = (rune2 (b2z b0) (b2z b1), 2%nat).
Proof.
  intros H0 H1. decode_exact.
  lead_class utf8.s1 2 0x80 0xBF. simpl length. unfold utf8.at_. cbn [nth].
  split_tests; try (exfalso; lia); rewrite decode2_arith by lia; reflexivity.
Qed.

Lemma DecodeRune_three b0 b1 b2 t :
  0xE0 <= b2z b0 < 0xF0 -> 0x80 <= b2z b1 <= 0xBF ->
  0x80 <= b2z b2 <= 0xBF ->
  0x800 <= rune3 (b2z b0) (b2z b1) (b2z b2) ->
  ~ (0xD800 <= rune3 (b2z b0) (b2z b1) (b2z b2) <= 0xDFFF) ->
  utf8.DecodeRune (b0 :: b1 :: b2 :: t)
  = (rune3 (b2z b0) (b2z b1) (b2z b2), 3%nat).
Proof.
  intros H0 H1 H2 Hlo Hsur. unfold rune3 in Hlo, Hsur. decode_exact.
  - lead_class utf8.s2 3 0xA0 0xBF. simpl length. unfold utf8.at_, utf8.locb, utf8.hicb.
    cbn [nth]. split_tests; try (exfalso; lia); rewrite decode3_arith by lia; reflexivity.
  - lead_class utf8.s3 3 0x80 0xBF. simpl length. unfold utf8.at_, utf8.locb, utf8.hicb.
    cbn [nth]. split_tests; try (exfalso; lia); rewrite decode3_arith by lia; reflexivity.
  - lead_class utf8.s4 3 0x80 0x9F. simpl length. unfold utf8.at_, utf8.locb, utf8.hicb.
    cbn [nth]. split_tests; try (exfalso; lia); rewrite decode3_arith by lia; reflexivity.
Qed.

Lemma DecodeRune_four b0 b1 b2 b3 t :
  0xF0 <= b2z b0 < 0xF5 -> 0x80 <= b2z b1 <= 0xBF ->
  0x80 <= b2z b2 <= 0xBF -> 0x80 <= b2z b3 <= 0xBF ->
  0x10000 <= rune4 (b2z b0) (b2z b1) (b2z b2) (b2z b3) <= 0x10FFFF ->
  utf8.DecodeRune (b0 :: b1 :: b2 :: b3 :: t)
  = (rune4 (b2z b0) (b2z b1) (b2z b2) (b2z b3), 4%nat).
Proof.
  intros H0 H1 H2 H3 Hr. unfold rune4 in Hr. decode_exact.
  - lead_class utf8.s5 4 0x90 0xBF. simpl length. unfold utf8.at_, utf8.locb, utf8.hicb.
    cbn [nth]. split_tests; try (exfalso; lia); rewrite decode4_arith by lia; reflexivity.
  - lead_class utf8.s6 4 0x80 0xBF. simpl length. unfold utf8.at_, utf8.locb, utf8.hicb.
    cbn [nth]. split_tests; try (exfalso; lia); rewrite decode4_arith by lia; reflexivity.
  - lead_class utf8.s7 4 0x80 0x8F. simpl length. unfold utf8.at_, utf8.locb, utf8.hicb.
    cbn [nth]. split_tests; try (exfalso; lia); rewrite decode4_arith by lia; reflexivity.
Qed.

(** A sequence that [DecodeRune] accepts is decoded the same whatever
    follows it. *)
Lemma decoded_prefix p r n q :
  decoded p r n -> ~ (r = utf8.RuneError /\ n = 1%nat) ->
  utf8.DecodeRune (firstn n p ++ q) = (r, n).
Proof.
  intros D Hne. destruct D; cbn [firstn app].
  - apply DecodeRune_ascii. assumption.
  - exfalso. apply Hne. split; reflexivity.
  - apply DecodeRune_two; assumption.
  - apply DecodeRune_three; assumption.
  - apply DecodeRune_four; assumption.
Qed.

Lemma decoded_size p r n : decoded p r n -> (1 <= n <= 4)%nat /\ (n <= length p)%nat.
Proof. intros D. destruct D; simpl length; lia. Qed.

Lemma lor_16 a b : 0 <= b < 16 -> a mod 16 = 0 -> Z.lor a b = a + b.
Proof. intros. apply (lor_add a b 4); [lia | exact H | exact H0]. Qed.

Ltac enc_arith :=
  unfold utf8.t2, utf8.t3, utf8.t4, utf8.tx, utf8.maskx;
  rewrite ?shiftr_6, ?shiftr_12, ?shiftr_18, ?land_63.

Lemma EncodeRune_ascii z :
  0 <= z < 0x80 -> utf8.EncodeRune z = [z2b z].
Proof.
  intros H. unfold utf8.EncodeRune. change (2 ^ 32) with 4294967296.
  unfold utf8.rune1Max. destruct (Z.leb_spec (z mod 4294967296) 127); [reflexivity | lia].
Qed.

Lemma EncodeRune_two b0 b1 :
  0xC2 <= b2z b0 < 0xE0 -> 0x80 <= b2z b1 <= 0xBF ->
  utf8.EncodeRune (rune2 (b2z b0) (b2z b1)) = [b0; b1].
Proof.
  intros H0 H1. unfold utf8.EncodeRune, rune2. change (2 ^ 32) with 4294967296.
  unfold utf8.rune1Max, utf8.rune2Max.
  split_tests; try lia. enc_arith.
  rewrite (lor_64 192), (lor_64 128) by lia.
  f_equal; [|f_equal]; apply z2b_eq; lia.
Qed.

Lemma encode3_rune3 b0 b1 b2 :
  0xE0 <= b2z b0 < 0xF0 -> 0x80 <= b2z b1 <= 0xBF ->
  0x80 <= b2z b2 <= 0xBF ->
  utf8.encode3 (rune3 (b2z b0) (b2z b1) (b2z b2)) = [b0; b1; b2].
Proof.
  intros H0 H1 H2. unfold utf8.encode3, rune3. enc_arith.
  rewrite (lor_16 224), !(lor_64 128) by lia.
  f_equal; [|f_equal; [|f_equal]]; apply z2b_eq; lia.
Qed.

Lemma EncodeRune_three b0 b1 b2 :
  0xE0 <= b2z b0 < 0xF0 -> 0x80 <= b2z b1 <= 0xBF ->
  0x80 <= b2z b2 <= 0xBF ->
  0x800 <= rune3 (b2z b0) (b2z b1) (b2z b2) ->
  ~ (0xD800 <= rune3 (b2z b0) (b2z b1) (b2z b2) <= 0xDFFF) ->
  utf8.EncodeRune (rune3 (b2z b0) (b2z b1) (b2z b2)) = [b0; b1; b2].
Proof.
  intros H0 H1 H2 Hlo Hsur. rewrite <- encode3_rune3 by assumption.
  unfold rune3 in *. unfold utf8.EncodeRune. change (2 ^ 32) with 4294967296.
  unfold utf8.rune1Max, utf8.rune2Max, utf8.rune3Max, utf8.MaxRune,
    utf8.surrogateMin, utf8.surrogateMax.
  repeat match goal with
  | |- context [?a <=? ?b] => destruct (Z.leb_spec a b)
  | |- context [?a <? ?b] => destruct (Z.ltb_spec a b)
  end; cbn [orb andb]; try lia; reflexivity.
Qed.

Lemma EncodeRune_four b0 b1 b2 b3 :
  0xF0 <= b2z b0 < 0xF5 -> 0x80 <= b2z b1 <= 0xBF ->
  0x80 <= b2z b2 <= 0xBF -> 0x80 <= b2z b3 <= 0xBF ->
  0x10000 <= rune4 (b2z b0) (b2z b1) (b2z b2) (b2z b3) <= 0x10FFFF ->
  utf8.EncodeRune (rune4 (b2z b0) (b2z b1) (b2z b2) (b2z b3))
  = [b0; b1; b2; b3].
Proof.
  intros H0 H1 H2 H3 Hr. unfold rune4 in *.
  unfold utf8.EncodeRune. change (2 ^ 32) with 4294967296.
  unfold utf8.rune1Max, utf8.rune2Max, utf8.rune3Max, utf8.MaxRune,
    utf8.surrogateMin, utf8.surrogateMax.
  repeat match goal with
  | |- context [?a <=? ?b] => destruct (Z.leb_spec a b)
  | |- context [?a <? ?b] => destruct (Z.ltb_spec a b)
  end; cbn [orb andb]; try lia.
  unfold utf8.encode4. enc_arith.
  rewrite (lor_16 240), !(lor_64 128) by lia.
  f_equal; [|f_equal; [|f_equal; [|f_equal]]]; apply z2b_eq; lia.
Qed.

(** Encoding the rune of an accepted sequence gives the sequence back. *)
Lemma EncodeRune_decoded p r n :
  decoded p r n -> ~ (r = utf8.RuneError /\ n = 1%nat) ->
  utf8.EncodeRune r = firstn n p.
Proof.
  intros D Hne. destruct D; cbn [firstn].
  - pose proof (b2z_range b0). rewrite EncodeRune_ascii by lia.
    rewrite z2b_b2z. reflexivity.
  - exfalso. apply Hne. split; reflexivity.
  - apply EncodeRune_two; assumption.
  - apply EncodeRune_three; assumption.
  - apply EncodeRune_four; assumption.
Qed.

Lemma EncodeRune_RuneError : utf8.EncodeRune utf8.RuneError = [xef; xbf; xbd].
Proof. reflexivity. Qed.
(** * Facts about encoding/json: string literals *)

Lemma DecodeRune_firstn4 p :
  utf8.DecodeRune (firstn 4 p) = utf8.DecodeRune p.
Proof.
  destruct p as [|b0 [|b1 [|b2 [|b3 t]]]]; try reflexivity.
  cbn [firstn]. pose proof (b2z_range b0) as R0.
  unfold utf8.DecodeRune. simpl length. unfold utf8.at_. cbn [nth].
  destruct (first_cases (b2z b0) R0)
    as [[? ->]|[[? ->]|[[? ->]|[[? ->]|[[? ->]|[[? ->]|[[? ->]|[[? ->]|[? ->]]]]]]]]].
  - change (utf8.as_ <=? utf8.as_) with true.
    split_tests; try (exfalso; lia); reflexivity.
  - change (utf8.as_ <=? utf8.xx) with true.
    split_tests; try (exfalso; lia); reflexivity.
  - lead_class utf8.s1 2 0x80 0xBF. split_tests; try (exfalso; lia); reflexivity.
  - lead_class utf8.s2 3 0xA0 0xBF. split_tests; try (exfalso; lia); reflexivity.
  - lead_class utf8.s3 3 0x80 0xBF. split_tests; try (exfalso; lia); reflexivity.
  - lead_class utf8.s4 3 0x80 0x9F. split_tests; try (exfalso; lia); reflexivity.
  - lead_class utf8.s5 4 0x90 0xBF. split_tests; try (exfalso; lia); reflexivity.
  - lead_class utf8.s6 4 0x80 0xBF. split_tests; try (exfalso; lia); reflexivity.
  - lead_class utf8.s7 4 0x80 0x8F. split_tests; try (exfalso; lia); reflexivity.
Qed.

Lemma stringBody_quote f rest :
  json.stringBody (S f) (x22 :: rest) = Some ([], rest).
Proof. reflexivity. Qed.

Lemma stringBody_safe f b rest :
  json.htmlSafeSet (b2z b) = true ->
  json.stringBody (S f) (b :: rest) = consBody [b] (json.stringBody f rest).
Proof.
  unfold json.htmlSafeSet. intros H.
  cbn [json.stringBody]. cbv zeta. unfold utf8.RuneSelf.
  repeat match goal with
  | |- context [?a =? ?b] => destruct (Z.eqb_spec a b)
  | |- context [?a <? ?b] => destruct (Z.ltb_spec a b)
  | H : context [?a =? ?b] |- _ => destruct (Z.eqb_spec a b)
  | H : context [?a <? ?b] |- _ => destruct (Z.ltb_spec a b)
  | H : context [?a <=? ?b] |- _ => destruct (Z.leb_spec a b)
  end; cbn in H; try discriminate; try (exfalso; lia).
  unfold consBody. destruct (json.stringBody f rest) as [[? ?]|]; reflexivity.
Qed.

Lemma stringBody_escape f b rest :
  b2z b < 0x80 -> json.htmlSafeSet (b2z b) = false ->
  json.stringBody (S f) (json.escapeByte b ++ rest)
  = consBody [b] (json.stringBody f rest).
Proof.
  intros Hlt Hsafe.
  destruct b; try (exfalso; vm_compute in Hlt; discriminate Hlt);
    try (vm_compute in Hsafe; discriminate Hsafe); reflexivity.
Qed.

Lemma stringBody_ufffd f rest :
  json.stringBody (S f) ([x5c; x75; x66; x66; x66; x64] ++ rest)
  = consBody (utf8.EncodeRune utf8.RuneError) (json.stringBody f rest).
Proof. reflexivity. Qed.

Lemma stringBody_u2028 f rest :
  json.stringBody (S f)
    ([x5c; x75; x32; x30; x32; json.hex (Z.land 0x2028 0xF)] ++ rest)
  = consBody (utf8.EncodeRune 0x2028) (json.stringBody f rest).
Proof. reflexivity. Qed.

Lemma stringBody_u2029 f rest :
  json.stringBody (S f)
    ([x5c; x75; x32; x30; x32; json.hex (Z.land 0x2029 0xF)] ++ rest)
  = consBody (utf8.EncodeRune 0x2029) (json.stringBody f rest).
Proof. reflexivity. Qed.

Lemma stringBody_multi f b0 t r n :
  0x80 <= b2z b0 -> utf8.DecodeRune (b0 :: t) = (r, n) ->
  json.stringBody (S f) (b0 :: t)
  = consBody (utf8.EncodeRune r) (json.stringBody f (skipn n (b0 :: t))).
Proof.
  intros H D. cbn [json.stringBody]. cbv zeta. rewrite D.
  unfold utf8.RuneSelf.
  repeat match goal with
  | |- context [?a =? ?b] => destruct (Z.eqb_spec a b)
  | |- context [?a <? ?b] => destruct (Z.ltb_spec a b)
  end; try (exfalso; lia). reflexivity.
Qed.

Lemma escapeByte_length b :
  (2 <= length (json.escapeByte b) <= 6)%nat.
Proof.
  unfold json.escapeByte. cbv zeta.
  repeat match goal with
  | |- context [if ?c then _ else _] => destruct c
  end; simpl length; lia.
Qed.

(** The encoding of a string is at least as long as the string and at
    most six times as long. *)
Lemma appendString_loop_length f s :
  (length s <= f)%nat ->
  (length s <= length (json.appendString_loop f s) <= 6 * length s)%nat.
Proof.
  revert s. induction f as [|f IH]; intros s Hf.
  - destruct s; simpl in *; lia.
  - destruct s as [|b t]; [simpl; lia|].
    cbn [json.appendString_loop].
    destruct (b2z b <? utf8.RuneSelf).
    + destruct (json.htmlSafeSet (b2z b)).
      * specialize (IH t ltac:(simpl in Hf; lia)). simpl length. lia.
      * specialize (IH t ltac:(simpl in Hf; lia)).
        pose proof (escapeByte_length b). rewrite length_app. simpl length. lia.
    + rewrite DecodeRune_firstn4.
      destruct (DecodeRune_decoded b t) as (r & n & -> & D).
      apply decoded_size in D. destruct D as [Dn Dl].
      assert (Hs : (length (skipn n (b :: t)) = length (b :: t) - n)%nat)
        by apply length_skipn.
      specialize (IH (skipn n (b :: t)) ltac:(rewrite Hs; simpl in *; lia)).
      assert (Hfn : length (firstn n (b :: t)) = n)
        by (apply firstn_length_le; exact Dl).
      destruct ((r =? utf8.RuneError) && (n =? 1)%nat) eqn:E.
      * apply andb_prop in E. destruct E as [_ E]. apply Nat.eqb_eq in E.
        subst n. rewrite length_app. simpl length in *. lia.
      * destruct ((r =? 8232) || (r =? 8233));
          rewrite length_app; [simpl length in * | rewrite Hfn]; lia.
Qed.

(** Unquoting the encoding of a string gives the string with its
    ill-formed bytes replaced. *)
Lemma stringBody_appendString_loop f :
  forall fuel s rest,
    (length s <= f)%nat -> (f < fuel)%nat ->
    json.stringBody fuel (json.appendString_loop f s ++ x22 :: rest)
    = Some (json.coerce_fuel f s, rest).
Proof.
  induction f as [|f IH]; intros fuel s rest Hs Hf.
  - destruct s; [|simpl in Hs; lia]. destruct fuel; [lia|]. reflexivity.
  - destruct fuel as [|fuel]; [lia|].
    destruct s as [|b t]; [reflexivity|].
    cbn [json.appendString_loop json.coerce_fuel].
    destruct (Z.ltb_spec (b2z b) utf8.RuneSelf) as [Hb | Hb];
      unfold utf8.RuneSelf in Hb.
    + pose proof (b2z_range b) as Rb.
      rewrite DecodeRune_ascii by exact Hb.
      rewrite EncodeRune_ascii, z2b_b2z by lia. cbn [skipn].
      assert (IHt := IH fuel t rest ltac:(simpl in Hs; lia) ltac:(lia)).
      destruct (json.htmlSafeSet (b2z b)) eqn:Hsafe.
      * cbn [app]. rewrite stringBody_safe by exact Hsafe.
        rewrite IHt. reflexivity.
      * rewrite <- app_assoc. rewrite stringBody_escape by assumption.
        rewrite IHt. reflexivity.
    + rewrite DecodeRune_firstn4.
      destruct (DecodeRune_decoded b t) as (r & n & E & D). rewrite E.
      pose proof (decoded_size _ _ _ D) as [Dn Dl].
      assert (Hsk : (length (skipn n (b :: t)) = length (b :: t) - n)%nat)
        by apply length_skipn.
      assert (IHt := IH fuel (skipn n (b :: t)) rest
                       ltac:(rewrite Hsk; simpl in *; lia) ltac:(lia)).
      destruct ((r =? utf8.RuneError) && (n =? 1)%nat) eqn:Eerr.
      * apply andb_prop in Eerr. destruct Eerr as [Er En].
        apply Z.eqb_eq in Er. apply Nat.eqb_eq in En. subst r n.
        rewrite <- app_assoc, stringBody_ufffd, IHt. reflexivity.
      * assert (Hne : ~ (r = utf8.RuneError /\ n = 1%nat)).
        { intros [-> ->]. cbn in Eerr. discriminate. }
        destruct (Z.eqb_spec r 8232) as [-> | N1].
        { cbn [orb]. rewrite <- app_assoc, stringBody_u2028, IHt. reflexivity. }
        destruct (Z.eqb_spec r 8233) as [-> | N2].
        { cbn [orb]. rewrite <- app_assoc, stringBody_u2029, IHt. reflexivity. }
        cbn [orb]. rewrite <- app_assoc.
        pose proof (decoded_prefix _ _ _
          (json.appendString_loop f (skipn n (b :: t)) ++ x22 :: rest) D Hne)
          as P.
        destruct n as [|n']; [lia|]. cbn [firstn app] in P |- *.
        rewrite (stringBody_multi _ _ _ _ _ Hb P).
        change (b :: firstn n' t ++ ?q) with (firstn (S n') (b :: t) ++ q).
        rewrite drop_app_length' by (symmetry; apply firstn_length_le; exact Dl).
        rewrite IHt. reflexivity.
Qed.

Lemma valid_coerce_fuel f :
  forall s, (length s <= f)%nat ->
    utf8.valid_fuel f s = true -> json.coerce_fuel f s = s.
Proof.
  induction f as [|f IH]; intros s Hs V.
  - destruct s; [reflexivity | simpl in Hs; lia].
  - destruct s as [|b t]; [reflexivity|].
    cbn [utf8.valid_fuel json.coerce_fuel] in *.
    destruct (DecodeRune_decoded b t) as (r & n & E & D). rewrite E in *.
    pose proof (decoded_size _ _ _ D) as [Dn Dl].
    destruct ((r =? utf8.RuneError) && (n =? 1)%nat) eqn:Eerr; [discriminate|].
    assert (Hne : ~ (r = utf8.RuneError /\ n = 1%nat)).
    { intros [-> ->]. cbn in Eerr. discriminate. }
    rewrite (EncodeRune_decoded _ _ _ D Hne).
    rewrite IH; [apply firstn_skipn | | exact V].
    rewrite length_skipn. simpl in *. lia.
Qed.

Lemma valid_coerce s : utf8.Valid s = true -> json.coerce s = s.
Proof. apply valid_coerce_fuel. lia. Qed.

Lemma coerce_fuel_length f :
  forall s, (length s <= f)%nat ->
    (length s <= length (json.coerce_fuel f s))%nat.
Proof.
  induction f as [|f IH]; intros s Hs.
  - destruct s; simpl in *; lia.
  - destruct s as [|b t]; [simpl; lia|].
    cbn [json.coerce_fuel].
    destruct (DecodeRune_decoded b t) as (r & n & E & D). rewrite E.
    pose proof (decoded_size _ _ _ D) as [Dn Dl].
    rewrite length_app.
    specialize (IH (skipn n (b :: t))
      ltac:(rewrite length_skipn; simpl in *; lia)).
    rewrite length_skipn in IH.
    assert (n <= length (utf8.EncodeRune r))%nat; [|lia].
    destruct ((r =? utf8.RuneError) && (n =? 1)%nat) eqn:Eerr.
    + apply andb_prop in Eerr. destruct Eerr as [Er En].
      apply Z.eqb_eq in Er. apply Nat.eqb_eq in En. subst r n.
      rewrite EncodeRune_RuneError. simpl. lia.
    + assert (Hne : ~ (r = utf8.RuneError /\ n = 1%nat)).
      { intros [-> ->]. cbn in Eerr. discriminate. }
      rewrite (EncodeRune_decoded _ _ _ D Hne).
      rewrite firstn_length_le by exact Dl. lia.
Qed.

(** A string that is not well-formed is changed by the replacement. *)
Lemma coerce_fuel_valid f :
  forall s, (length s <= f)%nat ->
    json.coerce_fuel f s = s -> utf8.valid_fuel f s = true.
Proof.
  induction f as [|f IH]; intros s Hs C.
  - reflexivity.
  - destruct s as [|b t]; [reflexivity|].
    cbn [utf8.valid_fuel json.coerce_fuel] in *.
    destruct (DecodeRune_decoded b t) as (r & n & E & D). rewrite E in *.
    pose proof (decoded_size _ _ _ D) as [Dn Dl].
    destruct ((r =? utf8.RuneError) && (n =? 1)%nat) eqn:Eerr.
    + apply andb_prop in Eerr. destruct Eerr as [Er En].
      apply Z.eqb_eq in Er. apply Nat.eqb_eq in En. subst r n.
      rewrite EncodeRune_RuneError in C.
      change (skipn 1 (b :: t)) with t in C.
      apply (f_equal length) in C. rewrite length_app in C.
      pose proof (coerce_fuel_length f t ltac:(simpl in Hs; lia)).
      simpl length in C. lia.
    + assert (Hne : ~ (r = utf8.RuneError /\ n = 1%nat)).
      { intros [-> ->]. cbn in Eerr. discriminate. }
      rewrite (EncodeRune_decoded _ _ _ D Hne) in C.
      apply IH; [rewrite length_skipn; simpl in *; lia|].
      rewrite <- (firstn_skipn n (b :: t)) in C at 3.
      apply app_inv_head in C. exact C.
Qed.

Lemma coerce_valid s : json.coerce s = s <-> utf8.Valid s = true.
Proof.
  split; [apply coerce_fuel_valid; lia | apply valid_coerce].
Qed.
(** * Facts about encoding/json: structs *)

Lemma parseValue_quote k dep t :
  json.parseValue (S k) dep (x22 :: t)
  = match json.stringBody (length t) t with
    | Some (str, out) => Some (json.String_ str, out)
    | None => None
    end.
Proof. reflexivity. Qed.

Lemma parseValue_appendString k dep s rest :
  json.parseValue (S k) dep (json.appendString s ++ rest)
  = Some (json.String_ (json.coerce s), rest).
Proof.
  unfold json.appendString. cbn [app]. rewrite parseValue_quote.
  rewrite <- app_assoc. cbn [app].
  rewrite stringBody_appendString_loop; [reflexivity | lia |].
  rewrite length_app. simpl length.
  pose proof (appendString_loop_length (length s) s ltac:(lia)). lia.
Qed.

Lemma parseValue_encodeField k dep v rest :
  json.parseValue (S k) dep (json.encodeField v ++ rest) = Some (valueOf v, rest).
Proof.
  destruct v as [s | [|]].
  - apply parseValue_appendString.
  - reflexivity.
  - reflexivity.
Qed.

Lemma parseMembers_quote k dep t :
  json.parseMembers (S k) dep (x22 :: t)
  = match json.stringBody (length t) t with
    | Some (key, t1) =>
      match json.skipSpace t1 with
      | col :: t2 =>
        if b2z col =? 0x3A then
          match json.parseValue k dep t2 with
          | Some (v, t3) =>
            match json.skipSpace t3 with
            | d :: t4 =>
              if b2z d =? 0x2C then
                match json.parseMembers k dep t4 with
                | Some (m, out) => Some ((key, v) :: m, out)
                | None => None
                end
              else if b2z d =? 0x7D then Some ([(key, v)], t4)
              else None
            | [] => None
            end
          | None => None
          end
        else None
      | [] => None
      end
    | None => None
    end.
Proof. reflexivity. Qed.

Lemma parseMembers_member k dep name v tail :
  json.parseMembers (S (S k)) dep
    (json.appendString name ++ x3a :: json.encodeField v ++ tail)
  = match json.skipSpace tail with
    | d :: t4 =>
      if b2z d =? 0x2C then
        match json.parseMembers (S k) dep t4 with
        | Some (m, out) => Some (memberOf (name, v) :: m, out)
        | None => None
        end
      else if b2z d =? 0x7D then Some ([memberOf (name, v)], t4)
      else None
    | [] => None
    end.
Proof.
  unfold json.appendString. cbn [app]. rewrite parseMembers_quote.
  rewrite <- app_assoc. cbn [app].
  rewrite stringBody_appendString_loop; cycle 1.
  { lia. }
  { rewrite length_app. simpl length.
    pose proof (appendString_loop_length (length name) name ltac:(lia)). lia. }
  change (json.skipSpace (x3a :: ?t)) with (x3a :: t).
  change (b2z x3a =? 58) with true. cbv iota.
  rewrite parseValue_encodeField. reflexivity.
Qed.

Ltac norm_app :=
  repeat first [rewrite <- app_assoc | rewrite app_nil_r | progress cbn [app]].

Lemma parseMembers_encodeMembers fs :
  forall k dep f rest,
    (length fs < k)%nat ->
    json.parseMembers (S k) dep
      (json.encodeMembers true (f :: fs) ++ x7d :: rest)
    = Some (map memberOf (f :: fs), rest).
Proof.
  induction fs as [|g fs IH]; intros k dep [name v] rest Hk;
    (destruct k as [|k]; [lia|]).
  - cbn [json.encodeMembers]. norm_app.
    rewrite parseMembers_member. reflexivity.
  - specialize (IH k dep g rest ltac:(simpl in Hk; lia)).
    destruct g as [name' v'].
    cbn [json.encodeMembers] in IH |- *.
    repeat first [rewrite <- app_assoc in IH | rewrite app_nil_r in IH | progress cbn [app] in IH].
    norm_app. rewrite parseMembers_member.
    change (json.skipSpace (x2c :: ?t)) with (x2c :: t).
    change (b2z x2c =? 44) with true. cbv iota.
    rewrite IH. reflexivity.
Qed.

Lemma encodeMembers_length b fs :
  (length fs <= length (json.encodeMembers b fs))%nat.
Proof.
  revert b. induction fs as [|[name v] fs IH]; intros b; [simpl; lia|].
  cbn [json.encodeMembers]. rewrite !length_app. specialize (IH false).
  simpl length. lia.
Qed.

(** Reading back an encoded struct gives its members, strings coerced. *)
Lemma readValue_Encode f fs :
  json.readValue (json.Encode (f :: fs)).1
  = inl (json.Object (map memberOf (f :: fs))).
Proof.
  unfold json.Encode, json.encodeStruct. cbn [fst app].
  unfold json.readValue.
  change (json.skipSpace (x7b :: ?t)) with (x7b :: t).
  set (data := x7b :: _).
  assert (Hlen : (length fs + 2 < 2 * length data)%nat).
  { subst data. destruct f as [name v]. cbn [json.encodeMembers].
    cbn [length]. rewrite !length_app.
    pose proof (encodeMembers_length false fs). simpl length. lia. }
  destruct (2 * length data)%nat as [|n]; [lia|]. subst data.
  destruct f as [name v].
  replace (json.parseValue (S (S n)) 0 _)
    with (match json.parseMembers (S n) 1
                  ((json.encodeMembers true ((name, v) :: fs) ++ [x7d]) ++ [x0a])
          with
          | Some (m, out) => Some (json.Object m, out)
          | None => None
          end) by reflexivity.
  rewrite <- app_assoc. cbn [app].
  rewrite parseMembers_encodeMembers by lia. reflexivity.
Qed.

Lemma readValue_Encode_User u :
  json.readValue (json.Encode (User_fields u)).1
  = inl (json.Object (map memberOf (User_fields u))).
Proof. exact (readValue_Encode _ _). Qed.

Lemma DecodeUser_Encode u :
  DecodeUser (Encode u).1 = (Some (coerceUser u), None).
Proof.
  unfold DecodeUser.
  change (Encode u).1 with (json.Encode (User_fields u)).1.
  unfold json.Decode. rewrite readValue_Encode_User.
  unfold coerceUser, User_fields.
  cbn [map]. unfold memberOf, valueOf. cbn [fst snd].
  generalize (json.coerce (UUID u)) (json.coerce (Username u))
    (json.coerce (Password u)) (IsAdmin u).
  intros a b c d. reflexivity.
Qed.
(** * Facts about encoding/json: the fuel of the parser *)

Lemma skipSpace_length (s : bytes) :
  (length (json.skipSpace s) <= length s)%nat.
Proof.
  induction s as [|c s IH]; [simpl; lia|].
  cbn [json.skipSpace]. destruct (json.isSpace (b2z c)); simpl length; lia.
Qed.

Ltac break_match_hyp H :=
  match type of H with
  | context [match ?x with _ => _ end] =>
    match type of x with
    | sumbool _ _ => destruct x
    | _ => destruct x eqn:?
    end
  | context [if ?x then _ else _] => destruct x eqn:?
  end.

Lemma stringBody_length f :
  forall (s key out : bytes),
    json.stringBody f s = Some (key, out) -> (length out < length s)%nat.
Proof.
  induction f as [|f IH]; intros s key out H; [discriminate|].
  cbn [json.stringBody] in H. cbv zeta in H.
  repeat (break_match_hyp H; try discriminate H);
    repeat match goal with
    | E : json.stringBody f _ = Some _ |- _ => apply IH in E
    end;
    injection H as <- <-; subst;
    rewrite ?length_skipn in *; simpl length in *; lia.
Qed.

Lemma digits_length (s : bytes) :
  (length (json.digits s).2 <= length s)%nat.
Proof.
  induction s as [|c s IH]; [simpl; lia|].
  cbn [json.digits]. destruct (json.isDigit (b2z c)); [|simpl; lia].
  destruct (json.digits s) as [d r]. cbn [snd length] in *. lia.
Qed.

Lemma numberLit_length (s n out : bytes) :
  json.numberLit s = Some (n, out) -> (length out < length s)%nat.
Proof.
  unfold json.numberLit. intros H.
  repeat (break_match_hyp H; try discriminate H).
  repeat match goal with
  | E : context [match ?x with _ => _ end] |- _ =>
    first [is_var x; destruct x | destruct x eqn:?]; try discriminate E
  | E : context [if ?x then _ else _] |- _ =>
    destruct x eqn:?; try discriminate E
  end; simplify_eq;
    repeat match goal with
    | E : json.digits ?x = (_, _) |- _ =>
      let L := fresh "L" in
      pose proof (digits_length x) as L; rewrite E in L; clear E
    end;
    cbn [snd length] in *; lia.
Qed.

Lemma expect_length (word s out : bytes) :
  json.expect word s = Some out -> (length out <= length s)%nat.
Proof.
  revert s. induction word as [|w word IH]; intros s H.
  - cbn in H. injection H as <-. lia.
  - destruct s as [|c s]; [discriminate|]. cbn [json.expect] in H.
    destruct (b2z w =? b2z c); [|discriminate]. apply IH in H.
    simpl length. lia.
Qed.

(** A value, a list of members and a list of elements each take at least
    a byte of the input. *)
Lemma parse_length n :
  forall dep (s : bytes),
    (forall v out, json.parseValue n dep s = Some (v, out) ->
                   (length out < length s)%nat) /\
    (forall m out, json.parseMembers n dep s = Some (m, out) ->
                   (length out < length s)%nat) /\
    (forall l out, json.parseElements n dep s = Some (l, out) ->
                   (length out < length s)%nat).
Proof.
  induction n as [|n IH]; intros dep s;
    [repeat split; intros; discriminate|].
  pose proof (skipSpace_length s) as Ls.
  repeat split.
  - intros v out H. cbn [json.parseValue] in H. cbv zeta in H.
    destruct (json.skipSpace s) as [|c t] eqn:Es; [discriminate|].
    pose proof (skipSpace_length t) as Lt.
    repeat (break_match_hyp H; try discriminate H);
      repeat match goal with
      | E : json.parseMembers n _ _ = Some _ |- _ => apply IH in E
      | E : json.parseElements n _ _ = Some _ |- _ => apply IH in E
      | E : json.stringBody _ _ = Some _ |- _ => apply stringBody_length in E
      | E : json.expect _ _ = Some _ |- _ => apply expect_length in E
      | E : json.numberLit _ = Some _ |- _ => apply numberLit_length in E
      end;
      injection H as <- <-; subst; simpl length in *; lia.
  - intros m out H. cbn [json.parseMembers] in H.
    destruct (json.skipSpace s) as [|q t] eqn:Es; [discriminate|].
    destruct (b2z q =? 34); [|discriminate].
    destruct (json.stringBody (length t) t) as [[key t1]|] eqn:E1;
      [|discriminate].
    apply stringBody_length in E1.
    pose proof (skipSpace_length t1) as L1.
    destruct (json.skipSpace t1) as [|col t2]; [discriminate|].
    destruct (b2z col =? 58); [|discriminate].
    destruct (json.parseValue n dep t2) as [[v t3]|] eqn:E2; [|discriminate].
    apply IH in E2.
    pose proof (skipSpace_length t3) as L3.
    destruct (json.skipSpace t3) as [|d t4]; [discriminate|].
    destruct (b2z d =? 44).
    + destruct (json.parseMembers n dep t4) as [[m' out']|] eqn:E3;
        [|discriminate].
      apply IH in E3. injection H as <- <-. simpl length in *. lia.
    + destruct (b2z d =? 125); [|discriminate].
      injection H as <- <-. simpl length in *. lia.
  - intros l out H. cbn [json.parseElements] in H.
    destruct (json.parseValue n dep s) as [[v t1]|] eqn:E1; [|discriminate].
    apply IH in E1.
    pose proof (skipSpace_length t1) as L1.
    destruct (json.skipSpace t1) as [|d t2]; [discriminate|].
    destruct (b2z d =? 44).
    + destruct (json.parseElements n dep t2) as [[l' out']|] eqn:E3;
        [|discriminate].
      apply IH in E3. injection H as <- <-. simpl length in *. lia.
    + destruct (b2z d =? 93); [|discriminate].
      injection H as <- <-. simpl length in *. lia.
Qed.

(** The parser gives the same result for every fuel above twice the
    length of the input, which is what [readValue] gives it. *)
Lemma parse_fuel n :
  forall m dep (s : bytes),
    ((2 * length s < n)%nat -> (2 * length s < m)%nat ->
     json.parseValue n dep s = json.parseValue m dep s) /\
    ((2 * length s + 1 < n)%nat -> (2 * length s + 1 < m)%nat ->
     json.parseMembers n dep s = json.parseMembers m dep s) /\
    ((2 * length s + 1 < n)%nat -> (2 * length s + 1 < m)%nat ->
     json.parseElements n dep s = json.parseElements m dep s).
Proof.
  induction n as [|n IH]; intros m dep s; [repeat split; intros; lia|].
  pose proof (skipSpace_length s) as Ls.
  destruct m as [|m]; [repeat split; intros; lia|].
  repeat split; intros Hn Hm.
  - cbn [json.parseValue]. cbv zeta.
    destruct (json.skipSpace s) as [|c t] eqn:Es; [reflexivity|].
    pose proof (skipSpace_length t) as Lt. simpl length in Ls.
    destruct (b2z c =? 123).
    { destruct (json.maxNestingDepth <? dep + 1); [reflexivity|].
      destruct (json.skipSpace t) as [|c' t'] eqn:Et; [reflexivity|].
      destruct (b2z c' =? 125); [reflexivity|].
      rewrite (proj1 (proj2 (IH m (dep + 1) t))) by lia. reflexivity. }
    destruct (b2z c =? 91).
    { destruct (json.maxNestingDepth <? dep + 1); [reflexivity|].
      destruct (json.skipSpace t) as [|c' t'] eqn:Et; [reflexivity|].
      destruct (b2z c' =? 93); [reflexivity|].
      rewrite (proj2 (proj2 (IH m (dep + 1) t))) by lia. reflexivity. }
    reflexivity.
  - cbn [json.parseMembers].
    destruct (json.skipSpace s) as [|q t] eqn:Es; [reflexivity|].
    simpl length in Ls.
    destruct (b2z q =? 34); [|reflexivity].
    destruct (json.stringBody (length t) t) as [[key t1]|] eqn:E1;
      [|reflexivity].
    apply stringBody_length in E1.
    pose proof (skipSpace_length t1) as L1.
    destruct (json.skipSpace t1) as [|col t2]; [reflexivity|].
    simpl length in L1.
    destruct (b2z col =? 58); [|reflexivity].
    rewrite (proj1 (IH m dep t2)) by lia.
    destruct (json.parseValue m dep t2) as [[v t3]|] eqn:E2; [|reflexivity].
    apply parse_length in E2.
    pose proof (skipSpace_length t3) as L3.
    destruct (json.skipSpace t3) as [|d t4]; [reflexivity|].
    simpl length in L3.
    destruct (b2z d =? 44); [|reflexivity].
    rewrite (proj1 (proj2 (IH m dep t4))) by lia. reflexivity.
  - cbn [json.parseElements].
    rewrite (proj1 (IH m dep s)) by lia.
    destruct (json.parseValue m dep s) as [[v t1]|] eqn:E1; [|reflexivity].
    apply parse_length in E1.
    pose proof (skipSpace_length t1) as L1.
    destruct (json.skipSpace t1) as [|d t2]; [reflexivity|].
    simpl length in L1.
    destruct (b2z d =? 44); [|reflexivity].
    rewrite (proj2 (proj2 (IH m dep t2))) by lia. reflexivity.
Qed.

Lemma parseValue_fuel (n : nat) (data : bytes) :
  (2 * length data < n)%nat ->
  json.parseValue n 0 data = json.parseValue (S (2 * length data)) 0 data.
Proof. intros H. apply parse_fuel; lia. Qed.

(** The loops over a string give the same result for every fuel that is
    at least the length of the string. *)
Lemma stringBody_fuel n :
  forall m (s : bytes),
    (length s <= n)%nat -> (length s <= m)%nat ->
    json.stringBody n s = json.stringBody m s.
Proof.
  induction n as [|n IH]; intros m s Hn Hm.
  - destruct s; [|simpl in Hn; lia]. destruct m; reflexivity.
  - destruct s as [|c rest]; [destruct m; reflexivity|].
    destruct m as [|m]; [simpl in Hm; lia|].
    simpl length in Hn, Hm.
    cbn [json.stringBody]. cbv zeta.
    destruct (b2z c =? 34); [reflexivity|].
    destruct (b2z c =? 92).
    { destruct rest as [|e rest']; [reflexivity|]. simpl length in Hn, Hm.
      destruct (b2z e =? 117).
      - destruct (json.getu4 (c :: e :: rest') <? 0); [reflexivity|].
        destruct (json.IsSurrogate _).
        + destruct (negb _).
          * rewrite (IH m (skipn 6 (skipn 6 (c :: e :: rest'))))
              by (rewrite !length_skipn; simpl length; lia).
            reflexivity.
          * rewrite (IH m (skipn 6 (c :: e :: rest')))
              by (rewrite !length_skipn; simpl length; lia).
            reflexivity.
        + rewrite (IH m (skipn 6 (c :: e :: rest')))
            by (rewrite !length_skipn; simpl length; lia).
          reflexivity.
      - destruct (json.unescape (b2z e)); [|reflexivity].
        rewrite (IH m rest') by lia. reflexivity. }
    destruct (b2z c <? 32); [reflexivity|].
    destruct (b2z c <? utf8.RuneSelf).
    { rewrite (IH m rest) by lia. reflexivity. }
    destruct (DecodeRune_decoded c rest) as (r & k & E & D). rewrite E.
    apply decoded_size in D. destruct D as [Dk Dl].
    rewrite (IH m (skipn k (c :: rest)))
      by (rewrite !length_skipn; simpl length; lia).
    reflexivity.
Qed.

Lemma appendString_loop_fuel n :
  forall m (s : bytes),
    (length s <= n)%nat -> (length s <= m)%nat ->
    json.appendString_loop n s = json.appendString_loop m s.
Proof.
  induction n as [|n IH]; intros m s Hn Hm.
  - destruct s; [|simpl in Hn; lia]. destruct m; reflexivity.
  - destruct s as [|c rest]; [destruct m; reflexivity|].
    destruct m as [|m]; [simpl in Hm; lia|].
    simpl length in Hn, Hm. cbn [json.appendString_loop].
    rewrite (IH m rest) by lia.
    destruct (b2z c <? utf8.RuneSelf); [reflexivity|].
    rewrite DecodeRune_firstn4.
    destruct (DecodeRune_decoded c rest) as (r & k & E & D). rewrite E.
    apply decoded_size in D. destruct D as [Dk Dl].
    rewrite (IH m (skipn k (c :: rest)))
      by (rewrite !length_skipn; simpl length; lia).
    reflexivity.
Qed.

Lemma coerce_fuel_fuel n :
  forall m (s : bytes),
    (length s <= n)%nat -> (length s <= m)%nat ->
    json.coerce_fuel n s = json.coerce_fuel m s.
Proof.
  induction n as [|n IH]; intros m s Hn Hm.
  - destruct s; [|simpl in Hn; lia]. destruct m; reflexivity.
  - destruct s as [|c rest]; [destruct m; reflexivity|].
    destruct m as [|m]; [simpl in Hm; lia|].
    simpl length in Hn, Hm. cbn [json.coerce_fuel].
    destruct (DecodeRune_decoded c rest) as (r & k & E & D). rewrite E.
    apply decoded_size in D. destruct D as [Dk Dl].
    rewrite (IH m (skipn k (c :: rest)))
      by (rewrite !length_skipn; simpl length; lia).
    reflexivity.
Qed.

Lemma valid_fuel_fuel n :
  forall m (s : bytes),
    (length s <= n)%nat -> (length s <= m)%nat ->
    utf8.valid_fuel n s = utf8.valid_fuel m s.
Proof.
  induction n as [|n IH]; intros m s Hn Hm.
  - destruct s; [|simpl in Hn; lia]. destruct m; reflexivity.
  - destruct s as [|c rest]; [destruct m; reflexivity|].
    destruct m as [|m]; [simpl in Hm; lia|].
    simpl length in Hn, Hm. cbn [utf8.valid_fuel].
    destruct (DecodeRune_decoded c rest) as (r & k & E & D). rewrite E.
    apply decoded_size in D. destruct D as [Dk Dl].
    rewrite (IH m (skipn k (c :: rest)))
      by (rewrite !length_skipn; simpl length; lia).
    reflexivity.
Qed.
(** * Facts about the store *)

Lemma lessEq_refl a : bolt.lessEq a a = true.
Proof.
  induction a as [|x a IH]; [reflexivity|].
  cbn [bolt.lessEq]. rewrite Z.ltb_irrefl. exact IH.
Qed.

Lemma lessEq_total a b : bolt.lessEq a b = true \/ bolt.lessEq b a = true.
Proof.
  revert b. induction a as [|x a IH]; intros [|y b]; cbn [bolt.lessEq]; auto.
  destruct (Z.ltb_spec (b2z x) (b2z y)), (Z.ltb_spec (b2z y) (b2z x));
    auto; lia.
Qed.

Lemma lessEq_trans a b c :
  bolt.lessEq a b = true -> bolt.lessEq b c = true -> bolt.lessEq a c = true.
Proof.
  revert b c. induction a as [|x a IH]; intros [|y b] [|z c];
    cbn [bolt.lessEq]; try congruence.
  destruct (Z.ltb_spec (b2z x) (b2z y)), (Z.ltb_spec (b2z y) (b2z x)),
    (Z.ltb_spec (b2z y) (b2z z)), (Z.ltb_spec (b2z z) (b2z y)),
    (Z.ltb_spec (b2z x) (b2z z)), (Z.ltb_spec (b2z z) (b2z x));
    try congruence; try lia. apply IH.
Qed.

Lemma lessEq_antisym a b :
  bolt.lessEq a b = true -> bolt.lessEq b a = true -> a = b.
Proof.
  revert b. induction a as [|x a IH]; intros [|y b];
    cbn [bolt.lessEq]; try congruence.
  destruct (Z.ltb_spec (b2z x) (b2z y)), (Z.ltb_spec (b2z y) (b2z x));
    try congruence; try lia.
  intros H1 H2. f_equal; [apply b2z_inj; lia | apply IH; assumption].
Qed.

#[global] Instance entry_le_total : Total bolt.entry_le.
Proof. intros x y. apply lessEq_total. Qed.

#[global] Instance entry_le_trans : Transitive bolt.entry_le.
Proof. intros x y z. apply lessEq_trans. Qed.

Lemma keyLess_spec a b :
  keyLess a b <-> bolt.lessEq a b = true /\ a <> b.
Proof.
  unfold keyLess. split.
  - intros H. split.
    + destruct (lessEq_total a b) as [E | E]; [exact E | congruence].
    + intros ->. rewrite lessEq_refl in H. discriminate.
  - intros [H N]. destruct (bolt.lessEq b a) eqn:E; [|reflexivity].
    exfalso. apply N. apply lessEq_antisym; assumption.
Qed.

Lemma Cursor_Permutation (m : gmap bytes bytes) :
  bolt.Cursor m ≡ₚ map_to_list m.
Proof. apply merge_sort_Permutation. Qed.

Lemma elem_of_Cursor (m : gmap bytes bytes) (k v : bytes) :
  (k, v) ∈ bolt.Cursor m <-> m !! k = Some v.
Proof. rewrite Cursor_Permutation. apply elem_of_map_to_list. Qed.

Lemma Cursor_NoDup (m : gmap bytes bytes) : NoDup (bolt.Cursor m).*1.
Proof.
  rewrite Cursor_Permutation. apply NoDup_fst_map_to_list.
Qed.

Lemma StronglySorted_strict (l : list (bytes * bytes)) :
  StronglySorted bolt.entry_le l -> NoDup l.*1 ->
  StronglySorted keyLess l.*1.
Proof.
  induction 1 as [|x l S IH F]; intros N; cbn [fmap list_fmap].
  - constructor.
  - apply NoDup_cons in N. destruct N as [Nx N].
    constructor; [apply IH, N|].
    apply Forall_fmap. apply Forall_forall. intros y Hy.
    rewrite Forall_forall in F. specialize (F y Hy).
    apply keyLess_spec. split; [exact F|].
    intros E. apply Nx. rewrite E. apply list_elem_of_fmap. exists y. auto.
Qed.

(** The cursor yields the keys of a bucket in ascending byte order, each
    once. *)
Lemma Cursor_ascending (m : gmap bytes bytes) :
  StronglySorted keyLess (bolt.Cursor m).*1.
Proof.
  apply StronglySorted_strict; [|apply Cursor_NoDup].
  apply StronglySorted_merge_sort; typeclasses eauto.
Qed.

Lemma filter_key_absent (l : list (bytes * bytes)) (k : bytes) :
  k ∉ l.*1 -> filter (fun kv => kv.1 = k) l = [].
Proof.
  induction l as [|[k' v'] l IH]; intros N; [reflexivity|].
  cbn in N. apply not_elem_of_cons in N. destruct N as [N1 N2].
  rewrite filter_cons_False by (intros E; cbn in E; congruence). apply IH, N2.
Qed.

Lemma filter_key_NoDup (l : list (bytes * bytes)) (k v : bytes) :
  NoDup l.*1 -> (k, v) ∈ l ->
  filter (fun kv => kv.1 = k) l = [(k, v)].
Proof.
  induction l as [|[k' v'] l IH]; intros N H.
  - apply elem_of_nil in H. contradiction.
  - cbn in N. apply NoDup_cons in N. destruct N as [Nk N].
    apply elem_of_cons in H. destruct H as [E | H].
    + inversion E; subst k' v'. rewrite filter_cons_True by reflexivity.
      f_equal. apply filter_key_absent, Nk.
    + assert (k' <> k).
      { intros ->. apply Nk. apply list_elem_of_fmap. exists (k, v). auto. }
      rewrite filter_cons_False by (intros E; cbn in E; congruence).
      apply IH; assumption.
Qed.

(** A key that is set has exactly one pair under the cursor. *)
Lemma Cursor_one_record (m : gmap bytes bytes) (k v : bytes) :
  m !! k = Some v ->
  filter (fun kv => kv.1 = k) (bolt.Cursor m) = [(k, v)].
Proof.
  intros H. apply filter_key_NoDup; [apply Cursor_NoDup|].
  apply elem_of_Cursor, H.
Qed.

Lemma contents_lookup (tx : gmap bytes (gmap bytes bytes)) (name : bytes) m :
  tx !! name = Some m -> bolt.contents name tx = m.
Proof. intros H. unfold bolt.contents. rewrite H. reflexivity. Qed.

Lemma length_eqb_0 {A} (l : list A) :
  (length l =? 0)%nat = false <-> l <> [].
Proof.
  destruct l; cbn; split; intros H; congruence.
Qed.

(** [CreateBucketIfNotExists] with a name: the bucket is there
    afterwards, with the contents it had. *)
Lemma CreateBucketIfNotExists_ok (name : bytes) (tx : gmap bytes (gmap bytes bytes)) :
  name <> [] ->
  exists tx',
    bolt.CreateBucketIfNotExists name tx = ((Some name, None), tx') /\
    tx' !! name = Some (bolt.contents name tx) /\
    (forall other, other <> name -> tx' !! other = tx !! other).
Proof.
  intros N. unfold bolt.CreateBucketIfNotExists.
  apply length_eqb_0 in N. rewrite N.
  destruct (tx !! name) as [m|] eqn:E.
  - exists tx. split; [reflexivity|]. split; [|reflexivity].
    rewrite E. f_equal. symmetry. apply contents_lookup, E.
  - exists (<[name:=∅]> tx). split; [reflexivity|]. split.
    + rewrite lookup_insert_eq. unfold bolt.contents. rewrite E. reflexivity.
    + intros other No. rewrite lookup_insert_ne by congruence. reflexivity.
Qed.

Lemma CreateBucketIfNotExists_empty_name (tx : gmap bytes (gmap bytes bytes)) :
  bolt.CreateBucketIfNotExists [] tx
  = ((None, Some bolt.ErrBucketNameRequired), tx).
Proof. reflexivity. Qed.

Lemma Put_ok (bucket key value : bytes) (tx : gmap bytes (gmap bytes bytes)) :
  validKey key -> validValue value ->
  bolt.Put bucket key value tx
  = (None, <[bucket := <[key := value]> (bolt.contents bucket tx)]> tx).
Proof.
  intros [Hk Hl] Hv. unfold bolt.Put.
  apply length_eqb_0 in Hk. rewrite Hk.
  destruct (Z.ltb_spec bolt.MaxKeySize (Z.of_nat (length key))); [lia|].
  destruct (Z.ltb_spec bolt.MaxValueSize (Z.of_nat (length value)));
    [unfold validValue in Hv; lia|].
  reflexivity.
Qed.

Lemma Put_error (bucket key value : bytes) (tx tx' : gmap bytes (gmap bytes bytes)) e :
  bolt.Put bucket key value tx = (Some e, tx') ->
  ~ (validKey key /\ validValue value).
Proof.
  intros H [Hk Hv]. rewrite Put_ok in H by assumption. discriminate.
Qed.
(** * Facts about bcrypt and uuid *)

Lemma copy_at_length (arr : bytes) n (src : bytes) :
  (n <= length arr)%nat -> length (bcrypt.copy_at arr n src) = length arr.
Proof.
  intros H. unfold bcrypt.copy_at.
  rewrite !length_app, !length_firstn, length_skipn. lia.
Qed.

Lemma copy_at_firstn (arr : bytes) k n (src : bytes) :
  (k <= n)%nat -> (n <= length arr)%nat ->
  firstn k (bcrypt.copy_at arr n src) = firstn k arr.
Proof.
  intros Hk Hn. unfold bcrypt.copy_at.
  rewrite take_app_le by (rewrite length_firstn; lia).
  rewrite take_take. f_equal. lia.
Qed.

Lemma Hash_header (h s : bytes) :
  let p := {| bcrypt.hash := h; bcrypt.salt := s; bcrypt.cost := 10;
              bcrypt.major := bcrypt.majorVersion;
              bcrypt.minor := bcrypt.minorVersion |} in
  length (bcrypt.Hash p) = 60%nat /\ firstn 7 (bcrypt.Hash p) = header.
Proof.
  intros p. unfold bcrypt.Hash. subst p.
  cbn [bcrypt.minor bcrypt.major bcrypt.cost bcrypt.salt bcrypt.hash].
  change (negb (b2z bcrypt.minorVersion =? 0)) with true.
  cbv iota zeta beta.
  set (a7 := bcrypt.copy_at _ (3 + 1 + 2) [x24]).
  assert (L7 : length a7 = 60%nat) by reflexivity.
  assert (F7 : firstn 7 a7 = header) by reflexivity.
  clearbody a7.
  change (3 + 1 + 2 + 1 + bcrypt.encodedSaltSize + bcrypt.encodedHashSize)%nat
    with 60%nat.
  change (3 + 1 + 2 + 1 + bcrypt.encodedSaltSize)%nat with 29%nat.
  change (3 + 1 + 2 + 1)%nat with 7%nat.
  assert (L1 : length (bcrypt.copy_at a7 7 s) = 60%nat)
    by (rewrite copy_at_length; lia).
  assert (L2 : length (bcrypt.copy_at (bcrypt.copy_at a7 7 s) 29 h) = 60%nat)
    by (rewrite copy_at_length; lia).
  split.
  - rewrite length_firstn. lia.
  - rewrite take_take. change (7 `min` 60)%nat with 7%nat.
    rewrite !copy_at_firstn by lia. exact F7.
Qed.

(** What [GenerateFromPassword] returns at cost 10: nothing and an
    error, or sixty bytes that start with the header. *)
Lemma GenerateFromPassword_cases c r (password : bytes) :
  let '((h, err), _) := bcrypt.GenerateFromPassword c r password 10 in
  (h = [] /\ err <> None) \/
  (err = None /\ length h = 60%nat /\ firstn 7 h = header).
Proof.
  unfold bcrypt.GenerateFromPassword.
  destruct (72 <? length password)%nat; [left; split; congruence|].
  unfold bcrypt.newFromPassword.
  change (10 <? bcrypt.MinCost) with false. cbv iota.
  change (bcrypt.checkCost 10) with (@None bcrypt.error). cbv iota.
  destruct (rand.ReadFull r bcrypt.maxSaltSize) as [salt r'].
  destruct (bcrypt.bcrypt c password 10 (bcrypt.base64Encode c salt))
    as [h [e|]].
  - left. split; congruence.
  - right. split; [reflexivity|]. apply Hash_header.
Qed.

Lemma GenerateFromPassword_too_long c r (password : bytes) :
  (72 < length password)%nat ->
  bcrypt.GenerateFromPassword c r password 10
  = (([], Some bcrypt.ErrPasswordTooLong), r).
Proof.
  intros H. unfold bcrypt.GenerateFromPassword.
  destruct (Nat.ltb_spec 72 (length password)); [reflexivity | lia].
Qed.

Lemma coerce_fuel_ascii f :
  forall s, (length s <= f)%nat -> ascii s -> json.coerce_fuel f s = s.
Proof.
  induction f as [|f IH]; intros s Hs A.
  - destruct s; [reflexivity | simpl in Hs; lia].
  - destruct A as [|b t Hb A]; [reflexivity|].
    cbn [json.coerce_fuel]. rewrite DecodeRune_ascii by exact Hb.
    pose proof (b2z_range b).
    rewrite EncodeRune_ascii, z2b_b2z by lia. cbn [skipn app].
    f_equal. apply IH; [simpl in Hs; lia | exact A].
Qed.

Lemma coerce_ascii s : ascii s -> json.coerce s = s.
Proof. apply coerce_fuel_ascii. lia. Qed.

Lemma coerce_fuel_ascii_app f :
  forall pre s, (length (pre ++ s) <= f)%nat -> ascii pre ->
    json.coerce_fuel f (pre ++ s)
    = pre ++ json.coerce_fuel (f - length pre) s.
Proof.
  induction f as [|f IH]; intros pre s Hs A.
  - destruct pre; [reflexivity | simpl in Hs; lia].
  - destruct A as [|b t Hb A]; [reflexivity|].
    cbn [app json.coerce_fuel]. rewrite DecodeRune_ascii by exact Hb.
    pose proof (b2z_range b).
    rewrite EncodeRune_ascii, z2b_b2z by lia. cbn [skipn app length].
    f_equal. change (S f - S (length t))%nat with (f - length t)%nat.
    apply IH; [simpl in Hs; lia | exact A].
Qed.

(** Coercion keeps an ASCII prefix. *)
Lemma coerce_prefix (pre s : bytes) :
  ascii pre -> firstn (length pre) (json.coerce (pre ++ s)) = pre.
Proof.
  intros A. unfold json.coerce.
  rewrite coerce_fuel_ascii_app by (exact A || lia).
  rewrite take_app_length. reflexivity.
Qed.

Lemma hextable_value i :
  0 <= i < 16 ->
  b2z (uuid.hextable i) = if i <? 10 then 48 + i else 87 + i.
Proof.
  intros H. unfold uuid.hextable.
  destruct (Z.ltb_spec i 10); rewrite b2z_z2b; lia.
Qed.

Lemma hex_pair_inj (v w : byte) :
  uuid.hextable (Z.shiftr (b2z v) 4) = uuid.hextable (Z.shiftr (b2z w) 4) ->
  uuid.hextable (Z.land (b2z v) 0x0F) = uuid.hextable (Z.land (b2z w) 0x0F) ->
  v = w.
Proof.
  pose proof (b2z_range v). pose proof (b2z_range w).
  rewrite !shiftr_4, !land_15. intros H1 H2.
  apply (f_equal b2z) in H1, H2.
  rewrite !hextable_value in H1, H2 by lia.
  apply b2z_inj.
  destruct (Z.ltb_spec (b2z v / 16) 10), (Z.ltb_spec (b2z w / 16) 10),
    (Z.ltb_spec (b2z v mod 16) 10), (Z.ltb_spec (b2z w mod 16) 10); lia.
Qed.

Lemma hex_Encode_inj (a b : bytes) :
  length a = length b -> uuid.hex_Encode a = uuid.hex_Encode b -> a = b.
Proof.
  revert b. induction a as [|v a IH]; intros [|w b] L E;
    try discriminate L; [reflexivity|].
  cbn [uuid.hex_Encode] in E. injection E as E1 E2 E3.
  f_equal; [apply hex_pair_inj; assumption|].
  apply IH; [simpl in L; lia | exact E3].
Qed.

Lemma hex_Encode_length (a : bytes) :
  length (uuid.hex_Encode a) = (2 * length a)%nat.
Proof. induction a as [|v a IH]; simpl in *; lia. Qed.

Lemma hextable_ascii i : 0 <= i < 16 -> b2z (uuid.hextable i) < 0x80.
Proof.
  intros H. rewrite hextable_value by exact H.
  destruct (Z.ltb_spec i 10); lia.
Qed.

Lemma hex_Encode_ascii (a : bytes) : ascii (uuid.hex_Encode a).
Proof.
  induction a as [|v a IH]; [constructor|].
  pose proof (b2z_range v).
  cbn [uuid.hex_Encode]. constructor; [|constructor; [|exact IH]].
  - apply hextable_ascii. rewrite shiftr_4. lia.
  - apply hextable_ascii. rewrite land_15. lia.
Qed.

Lemma NewRandom_length r : length (uuid.NewRandom r).1 = 16%nat.
Proof.
  unfold uuid.NewRandom, rand.ReadFull, uuid.setByte. cbn [fst].
  rewrite !length_insert, length_map, length_seq. reflexivity.
Qed.

Lemma slice_length (u : bytes) lo hi :
  (hi <= length u)%nat -> length (uuid.slice u lo hi) = (hi - lo)%nat.
Proof.
  intros H. unfold uuid.slice. rewrite length_firstn, length_skipn. lia.
Qed.

Lemma String_ascii (u : bytes) : ascii (uuid.String_ u).
Proof.
  unfold uuid.String_. destruct (negb _); [constructor|].
  unfold ascii. rewrite !Forall_app. repeat split;
    try apply hex_Encode_ascii; repeat constructor.
Qed.

Lemma String_length (u : bytes) :
  length u = 16%nat -> length (uuid.String_ u) = 36%nat.
Proof.
  intros L. unfold uuid.String_. rewrite L. cbn [Nat.eqb negb].
  rewrite !length_app, !hex_Encode_length, !slice_length by lia.
  reflexivity.
Qed.

(** Distinct identifiers have distinct texts. *)
Lemma String_inj (u v : bytes) :
  length u = 16%nat -> length v = 16%nat ->
  uuid.String_ u = uuid.String_ v -> u = v.
Proof.
  intros Lu Lv E.
  do 16 (destruct u as [|? u]; [discriminate Lu|]).
  destruct u; [|discriminate Lu].
  do 16 (destruct v as [|? v]; [discriminate Lv|]).
  destruct v; [|discriminate Lv].
  unfold uuid.String_, uuid.slice in E.
  cbn [length Nat.eqb negb firstn skipn Nat.sub uuid.hex_Encode app] in E.
  injection E. intros.
  repeat f_equal; apply hex_pair_inj; assumption.
Qed.

(** The text of a fresh identifier survives the encoding. *)
Lemma New_coerce r : json.coerce (uuid.New r).1 = (uuid.New r).1.
Proof.
  unfold uuid.New. destruct (uuid.NewRandom r) as [u r'].
  apply coerce_ascii, String_ascii.
Qed.

Lemma New_inj r1 r2 :
  (uuid.New r1).1 = (uuid.New r2).1 <->
  (uuid.NewRandom r1).1 = (uuid.NewRandom r2).1.
Proof.
  unfold uuid.New.
  pose proof (NewRandom_length r1) as L1.
  pose proof (NewRandom_length r2) as L2.
  destruct (uuid.NewRandom r1) as [u1 r1'], (uuid.NewRandom r2) as [u2 r2'].
  cbn [fst] in *. split; [apply String_inj; assumption | congruence].
Qed.
(** * The operations of the backend *)

Lemma appendString_length (s : bytes) :
  (length (json.appendString s) <= 6 * length s + 2)%nat.
Proof.
  unfold json.appendString. rewrite !length_app.
  pose proof (appendString_loop_length (length s) s ltac:(lia)).
  simpl length. lia.
Qed.

Lemma Encode_length (u : User) :
  (length (Encode u).1
   <= 6 * (length (UUID u) + length (Username u) + length (Password u)) + 200)%nat.
Proof.
  unfold Encode, json.Encode, json.encodeStruct, User_fields. cbn [fst].
  cbn [json.encodeMembers json.encodeField].
  pose proof (appendString_length (UUID u)).
  pose proof (appendString_length (Username u)).
  pose proof (appendString_length (Password u)).
  assert (length (if IsAdmin u then lit "true" else lit "false") <= 5)%nat
    by (destruct (IsAdmin u); simpl; lia).
  rewrite !length_app.
  change (length (json.appendString (lit "uuid"))) with 6%nat.
  change (length (json.appendString (lit "username"))) with 10%nat.
  change (length (json.appendString (lit "password"))) with 10%nat.
  change (length (json.appendString (lit "is_admin"))) with 10%nat.
  revert H H0 H1 H2.
  generalize (length (json.appendString (UUID u)))
    (length (json.appendString (Username u)))
    (length (json.appendString (Password u)))
    (length (if IsAdmin u then lit "true" else lit "false")).
  intros n1 n2 n3 n4 H1 H2 H3 H4. simpl length. lia.
Qed.

Lemma Encode_no_error (u : User) : (Encode u).2 = None.
Proof. reflexivity. Qed.

Lemma newUser_fields (c : bcrypt.Cipher) (r : rand.Reader)
    (username password : bytes) (admin : bool) :
  UUID (newUser c r username password admin)
    = (uuid.New (idReader c r password)).1 /\
  Username (newUser c r username password admin) = username /\
  Password (newUser c r username password admin)
    = (bcrypt.GenerateFromPassword c r password 10).1.1 /\
  IsAdmin (newUser c r username password admin) = admin.
Proof.
  unfold newUser, idReader.
  destruct (bcrypt.GenerateFromPassword c r password 10) as [[h e] r'].
  cbn [fst snd]. destruct (uuid.New r') as [uid r'']. cbn. auto.
Qed.

Lemma newUser_valid (c : bcrypt.Cipher) (r : rand.Reader)
    (username password : bytes) (admin : bool) :
  Z.of_nat (length username) <= bolt.MaxKeySize ->
  validValue (Encode (newUser c r username password admin)).1.
Proof.
  intros Hk. unfold validValue.
  pose proof (Encode_length (newUser c r username password admin)) as L.
  destruct (newUser_fields c r username password admin) as (E1 & E2 & E3 & _).
  rewrite E1, E2, E3 in L.
  assert (L1 : length (uuid.New (idReader c r password)).1 = 36%nat).
  { unfold uuid.New.
    pose proof (NewRandom_length (idReader c r password)) as Ln.
    destruct (uuid.NewRandom (idReader c r password)) as [x y].
    apply String_length, Ln. }
  assert (L3 : (length (bcrypt.GenerateFromPassword c r password 10).1.1
                <= 60)%nat).
  { pose proof (GenerateFromPassword_cases c r password) as G.
    destruct (bcrypt.GenerateFromPassword c r password 10) as [[h e] r'].
    cbn [fst]. destruct G as [[-> _] | (_ & -> & _)]; simpl; lia. }
  unfold bolt.MaxKeySize in Hk.
  change bolt.MaxValueSize with 2147483646. lia.
Qed.

(** [AddUser] with a keyspace name and a key the store accepts puts the
    new record under the username and returns nil. *)
Lemma AddUser_ok (b : BoltAuth) (c : bcrypt.Cipher) (r : rand.Reader)
    (username password : bytes) (admin : bool)
    (DS : gmap bytes (gmap bytes bytes)) :
  UserBucket b <> [] -> validKey username ->
  AddUser b c r username password admin DS
  = (None,
     <[ UserBucket b :=
          <[ username := (Encode (newUser c r username password admin)).1 ]>
            (bolt.contents (UserBucket b) DS) ]> DS).
Proof.
  intros Hb Hk. unfold AddUser, bolt.Update.
  destruct (CreateBucketIfNotExists_ok (UserBucket b) DS Hb)
    as (tx & E & L & O). rewrite E. cbv iota beta.
  pose proof (newUser_valid c r username password admin (proj2 Hk)) as V.
  unfold newUser in V |- *.
  destruct (bcrypt.GenerateFromPassword c r password 10) as [[h e] r'].
  destruct (uuid.New r') as [uid r''].
  set (u := {| UUID := uid; Username := username; Password := h;
               IsAdmin := admin |}) in *.
  change (Encode u) with ((Encode u).1, @None error). cbv iota beta.
  change (default [] (Some (UserBucket b))) with (UserBucket b).
  rewrite Put_ok by assumption. cbv iota beta. cbn [fst].
  f_equal. apply map_eq. intros name.
  destruct (decide (name = UserBucket b)) as [-> | N].
  - rewrite !lookup_insert_eq. rewrite (contents_lookup _ _ _ L). reflexivity.
  - rewrite !lookup_insert_ne by congruence. apply O, N.
Qed.

Lemma AddUser_empty_username (b : BoltAuth) (c : bcrypt.Cipher) (r : rand.Reader)
    (password : bytes) (admin : bool)
    (DS : gmap bytes (gmap bytes bytes)) :
  UserBucket b <> [] ->
  AddUser b c r [] password admin DS
  = (Some (BoltError bolt.ErrKeyRequired), DS).
Proof.
  intros Hb. unfold AddUser, bolt.Update.
  destruct (CreateBucketIfNotExists_ok (UserBucket b) DS Hb)
    as (tx & E & L & O). rewrite E. cbv iota beta.
  destruct (bcrypt.GenerateFromPassword c r password 10) as [[h e] r'].
  destruct (uuid.New r') as [uid r'']. reflexivity.
Qed.

Lemma GetUser_no_bucket (b : BoltAuth) (username : bytes)
    (DS : gmap bytes (gmap bytes bytes)) :
  DS !! UserBucket b = None ->
  GetUser b username DS = (None, Some (KeyspaceMissingError (UserBucket b))).
Proof.
  intros H. unfold GetUser, bolt.View, bolt.Tx_Bucket. rewrite H. reflexivity.
Qed.

Lemma GetUser_no_key (b : BoltAuth) (username : bytes)
    (DS : gmap bytes (gmap bytes bytes)) (m : gmap bytes bytes) :
  DS !! UserBucket b = Some m -> m !! username = None ->
  GetUser b username DS = (None, Some UserNotFoundError).
Proof.
  intros H K. unfold GetUser, bolt.View, bolt.Tx_Bucket, bolt.Get.
  rewrite H, (contents_lookup _ _ _ H), K. reflexivity.
Qed.

Lemma GetUser_found (b : BoltAuth) (username : bytes)
    (DS : gmap bytes (gmap bytes bytes)) (m : gmap bytes bytes) (val : bytes) :
  DS !! UserBucket b = Some m -> m !! username = Some val ->
  GetUser b username DS
  = match DecodeUser val with
    | (user, Some _) => (user, Some (DecodeError username))
    | (user, None) => (user, None)
    end.
Proof.
  intros H K. unfold GetUser, bolt.View, bolt.Tx_Bucket, bolt.Get.
  rewrite H, (contents_lookup _ _ _ H), K.
  destruct (DecodeUser val) as [user [e|]]; reflexivity.
Qed.

Lemma DecodeUser_error_nil (val : bytes) e :
  (DecodeUser val).2 = Some e -> (DecodeUser val).1 = None.
Proof.
  unfold DecodeUser. destruct (json.Decode (User_fields zeroUser) val) as [u [e'|]];
    cbn; congruence.
Qed.

(** The record stored by a successful [AddUser], as [GetUser] reads it. *)
Lemma GetUser_after_AddUser (b : BoltAuth) (c : bcrypt.Cipher) (r : rand.Reader)
    (username password : bytes) (admin : bool)
    (DS : gmap bytes (gmap bytes bytes)) :
  UserBucket b <> [] -> validKey username ->
  GetUser b username (AddUser b c r username password admin DS).2
  = (Some (coerceUser (newUser c r username password admin)), None).
Proof.
  intros Hb Hk. rewrite AddUser_ok by assumption. cbn [snd].
  erewrite GetUser_found;
    [| apply lookup_insert_eq | apply lookup_insert_eq].
  rewrite DecodeUser_Encode. reflexivity.
Qed.

Lemma SetValue_ok (b : BoltAuth) (key value : bytes)
    (DS DS' : gmap bytes (gmap bytes bytes)) :
  SetValue b key value DS = (None, DS') ->
  DS' = <[ TokenBucket b :=
             <[ key := value ]> (bolt.contents (TokenBucket b) DS) ]> DS.
Proof.
  unfold SetValue, bolt.Update, bolt.CreateBucketIfNotExists, bolt.Put.
  destruct (length (TokenBucket b) =? 0)%nat; [discriminate|].
  destruct (DS !! TokenBucket b) as [m|] eqn:E; cbv iota beta;
    change (default [] (Some (TokenBucket b))) with (TokenBucket b);
    destruct (length key =? 0)%nat; try discriminate;
    destruct (bolt.MaxKeySize <? Z.of_nat (length key)); try discriminate;
    destruct (bolt.MaxValueSize <? Z.of_nat (length value)); try discriminate;
    intros H; injection H as <-.
  - reflexivity.
  - unfold bolt.contents. rewrite lookup_insert_eq, E. cbn [default].
    apply insert_insert_eq.
Qed.

Lemma GetValue_no_bucket (b : BoltAuth) (key : bytes)
    (DS : gmap bytes (gmap bytes bytes)) :
  DS !! TokenBucket b = None ->
  GetValue b key DS = ([], Some (KeyspaceMissingError (TokenBucket b))).
Proof.
  intros H. unfold GetValue, bolt.View, bolt.Tx_Bucket. rewrite H. reflexivity.
Qed.

Lemma GetValue_no_key (b : BoltAuth) (key : bytes)
    (DS : gmap bytes (gmap bytes bytes)) :
  is_Some (DS !! TokenBucket b) ->
  bolt.Get (TokenBucket b) key DS = None ->
  GetValue b key DS = ([], Some (NotFoundError key)).
Proof.
  intros [m H] K. unfold GetValue, bolt.View, bolt.Tx_Bucket.
  rewrite H, K. reflexivity.
Qed.

Lemma delete_ok (b : BoltAuth) (key bucket : bytes)
    (DS : gmap bytes (gmap bytes bytes)) :
  bucket <> [] ->
  delete_ b key bucket DS
  = (None, <[ bucket := delete key (bolt.contents bucket DS) ]> DS).
Proof.
  intros Hb. unfold delete_, bolt.Update.
  destruct (CreateBucketIfNotExists_ok bucket DS Hb) as (tx & E & L & O).
  rewrite E. cbv iota beta.
  change (default [] (Some bucket)) with bucket.
  unfold bolt.Delete. f_equal. apply map_eq. intros name.
  destruct (decide (name = bucket)) as [-> | N].
  - rewrite !lookup_insert_eq. rewrite (contents_lookup _ _ _ L). reflexivity.
  - rewrite !lookup_insert_ne by congruence. apply O, N.
Qed.

Lemma GenerateFromPassword_error (c : bcrypt.Cipher) (r : rand.Reader)
    (password : bytes) e :
  (bcrypt.GenerateFromPassword c r password 10).1.2 = Some e ->
  (bcrypt.GenerateFromPassword c r password 10).1.1 = [].
Proof.
  pose proof (GenerateFromPassword_cases c r password) as G.
  destruct (bcrypt.GenerateFromPassword c r password 10) as [[h e'] r'].
  cbn [fst snd]. destruct G as [[-> _] | (-> & _)]; [reflexivity | discriminate].
Qed.

Lemma AddUser_success (b : BoltAuth) (c : bcrypt.Cipher) (r : rand.Reader)
    (username password : bytes) (admin : bool)
    (DS : gmap bytes (gmap bytes bytes)) :
  (AddUser b c r username password admin DS).1 = None ->
  UserBucket b <> [] /\ validKey username.
Proof.
  unfold AddUser, bolt.Update, bolt.CreateBucketIfNotExists.
  destruct (length (UserBucket b) =? 0)%nat eqn:Eb; [discriminate|].
  apply length_eqb_0 in Eb. intros H. split; [exact Eb|].
  destruct (DS !! UserBucket b); cbv iota beta in H;
    destruct (bcrypt.GenerateFromPassword c r password 10) as [[h e] r'];
    destruct (uuid.New r') as [uid r''];
    match type of H with
    | context [Encode ?u] =>
      change (Encode u) with ((Encode u).1, @None error) in H
    end; cbv iota beta in H; unfold bolt.Put in H;
    destruct (length username =? 0)%nat eqn:Ek; try discriminate H;
    destruct (Z.ltb_spec bolt.MaxKeySize (Z.of_nat (length username)));
    try discriminate H;
    (split; [apply length_eqb_0, Ek | lia]).
Qed.

(** A keyspace, once there, stays: no operation of the backend removes
    a bucket. *)
Lemma keyspace_persists (b : BoltAuth) (name : bytes)
    (DS : gmap bytes (gmap bytes bytes)) :
  is_Some (DS !! name) ->
  (forall c r (username password : bytes) (admin : bool),
     is_Some ((AddUser b c r username password admin DS).2 !! name)) /\
  (forall username : bytes, is_Some ((DeleteUser b username DS).2 !! name)) /\
  (forall key value : bytes, is_Some ((SetValue b key value DS).2 !! name)).
Proof.
  intros H.
  assert (Hins : forall (bucket : bytes) (m : gmap bytes bytes),
            is_Some (<[bucket := m]> DS !! name)).
  { intros bucket m. destruct (decide (bucket = name)) as [-> | N].
    - rewrite lookup_insert_eq. eauto.
    - rewrite lookup_insert_ne by exact N. exact H. }
  repeat split.
  - intros c r username password admin.
    destruct (AddUser b c r username password admin DS) as [[e|] DS'] eqn:E.
    + unfold AddUser, bolt.Update in E.
      destruct (let '(_, _, _) := _ in _) as [[e'|] tx]; simplify_eq. exact H.
    + pose proof (f_equal fst E) as E1. cbn [fst] in E1.
      apply AddUser_success in E1. destruct E1 as [Hb Hk].
      rewrite AddUser_ok in E by assumption. simplify_eq. apply Hins.
  - intros username. unfold DeleteUser.
    destruct (decide (UserBucket b = [])) as [Eb | Nb].
    + unfold delete_, bolt.Update. rewrite Eb. exact H.
    + rewrite delete_ok by exact Nb. apply Hins.
  - intros key value.
    destruct (SetValue b key value DS) as [[e|] DS'] eqn:E.
    + unfold SetValue, bolt.Update in E.
      destruct (let '(_, _, _) := _ in _) as [[e'|] tx]; simplify_eq. exact H.
    + apply SetValue_ok in E. subst DS'. apply Hins.
Qed.
(** * The properties of the specification *)

Lemma Sprintf_KeyspaceMissing quote (name : bytes) :
  Sprintf quote (lit "Bucket %q not found!") [name]
  = lit "Bucket " ++ quote name ++ lit " not found!".
Proof. reflexivity. Qed.

Lemma Sprintf_NotFound quote (key : bytes) :
  Sprintf quote (lit "key %q not found " ++ [x0a]) [key]
  = lit "key " ++ quote key ++ lit " not found " ++ [x0a].
Proof. reflexivity. Qed.

Lemma Sprintf_DecodeError quote (username : bytes) :
  Sprintf quote (lit "error while getting user %q " ++ [x0a]) [username]
  = lit "error while getting user " ++ quote username ++ lit " " ++ [x0a].
Proof. reflexivity. Qed.

Lemma Sprintf_UserNotFound quote :
  Sprintf quote (lit "user not found") [] = lit "user not found".
Proof. reflexivity. Qed.

(** ** The record codec *)

(** A [User] is decoded back to itself from its encoding exactly when
    its three strings are well-formed UTF-8. *)
Lemma DecodeUser_Encode_iff_valid (u : User) :
  DecodeUser (Encode u).1 = (Some u, None) <->
  utf8.Valid (UUID u) = true /\ utf8.Valid (Username u) = true /\
  utf8.Valid (Password u) = true.
Proof.
  rewrite DecodeUser_Encode. destruct u as [a b c d].
  unfold coerceUser. cbn [UUID Username Password IsAdmin]. split.
  - intros H. injection H as H1 H2 H3.
    repeat split; apply coerce_valid; assumption.
  - intros (V1 & V2 & V3). rewrite !valid_coerce by assumption. reflexivity.
Qed.

(** C2, as the code has it.  A [User] whose three strings are
    well-formed UTF-8 is encoded without error and decoded back to
    itself. *)
Theorem DecodeUser_Encode_roundtrip (u : User) :
  utf8.Valid (UUID u) = true -> utf8.Valid (Username u) = true ->
  utf8.Valid (Password u) = true ->
  (Encode u).2 = None /\ DecodeUser (Encode u).1 = (Some u, None).
Proof.
  intros V1 V2 V3. split; [reflexivity|].
  apply DecodeUser_Encode_iff_valid. auto.
Qed.

Lemma DecodeUser_Encode_roundtrip_witness :
  utf8.Valid (UUID sampleUser) = true /\
  utf8.Valid (Username sampleUser) = true /\
  utf8.Valid (Password sampleUser) = true /\
  (Encode sampleUser).2 = None /\
  DecodeUser (Encode sampleUser).1 = (Some sampleUser, None).
Proof.
  assert (V1 : utf8.Valid (UUID sampleUser) = true) by reflexivity.
  assert (V2 : utf8.Valid (Username sampleUser) = true) by reflexivity.
  assert (V3 : utf8.Valid (Password sampleUser) = true) by reflexivity.
  split; [exact V1|]. split; [exact V2|]. split; [exact V3|].
  apply (DecodeUser_Encode_roundtrip sampleUser V1 V2 V3).
Defined.

(** C2, as stated, fails: the encoder writes the byte [0xff] as the
    escape of U+FFFD, and the decoder returns a username of three
    bytes. *)
Lemma DecodeUser_Encode_changes_invalid_utf8 :
  (exists u,
     DecodeUser (Encode latin1User).1 = (Some u, None) /\
     Username u = [xef; xbf; xbd]) /\
  DecodeUser (Encode latin1User).1 <> (Some latin1User, None).
Proof.
  split.
  - eexists. split; [vm_compute; reflexivity | reflexivity].
  - vm_compute. discriminate.
Qed.

(** ** Single-key lookups *)

(** The error of [GetUser], by cases: the keyspace-missing error when
    the user keyspace does not exist, the not-found error when it exists
    without the username, and the decode error, with no user, when the
    record under the username does not decode.  In the one case left the
    error is nil and the user is what [DecodeUser] returned, which is a
    user or nil.  The three errors differ, as values and as texts. *)
Lemma GetUser_error_cases (b : BoltAuth) (username : bytes)
    (DS : gmap bytes (gmap bytes bytes)) :
  match DS !! UserBucket b with
  | None =>
    GetUser b username DS = (None, Some (KeyspaceMissingError (UserBucket b)))
  | Some bucket =>
    match bucket !! username with
    | None => GetUser b username DS = (None, Some UserNotFoundError)
    | Some val =>
      match (DecodeUser val).2 with
      | Some _ => GetUser b username DS = (None, Some (DecodeError username))
      | None => GetUser b username DS = ((DecodeUser val).1, None)
      end
    end
  end
  /\ KeyspaceMissingError (UserBucket b) <> UserNotFoundError
  /\ KeyspaceMissingError (UserBucket b) <> DecodeError username
  /\ UserNotFoundError <> DecodeError username
  /\ forall quote,
       Error quote (KeyspaceMissingError (UserBucket b))
         <> Error quote UserNotFoundError /\
       Error quote (KeyspaceMissingError (UserBucket b))
         <> Error quote (DecodeError username) /\
       Error quote UserNotFoundError <> Error quote (DecodeError username).
Proof.
  split.
  - destruct (DS !! UserBucket b) as [bucket|] eqn:E.
    + destruct (bucket !! username) as [val|] eqn:K.
      * rewrite (GetUser_found _ _ _ _ _ E K).
        pose proof (DecodeUser_error_nil val) as N.
        destruct (DecodeUser val) as [user [e|]]; cbn [fst snd] in *.
        -- rewrite (N e eq_refl). reflexivity.
        -- reflexivity.
      * apply (GetUser_no_key _ _ _ _ E K).
    + apply GetUser_no_bucket, E.
  - repeat split; discriminate.
Qed.

(** A record that does not decode gives the decode error and no user. *)
Lemma GetUser_malformed_record :
  DecodeUser (lit "{not json") = (None, Some (JsonError json.SyntaxError)) /\
  GetUser defaultBackend (lit "bob")
    (replaceRecord (lit "bob") (lit "{not json") twoUsers)
  = (None, Some (DecodeError (lit "bob"))).
Proof. split; vm_compute; reflexivity. Qed.

(** C7.  Where the record under the username decodes without error to no
    user, as the literal [null] does, [GetUser] returns neither a user
    nor an error: an outcome that is none of the three failures and
    gives no user. *)
Theorem GetUser_nil_record_no_user_no_error (b : BoltAuth)
    (username v : bytes) (DS : gmap bytes (gmap bytes bytes)) :
  bolt.Get (UserBucket b) username DS = Some v -> decodesToNil v ->
  GetUser b username DS = (None, None).
Proof.
  intros G N. unfold bolt.Get, bolt.contents in G.
  destruct (DS !! UserBucket b) as [m|] eqn:E;
    [|cbn in G; rewrite lookup_empty in G; discriminate G].
  cbn [default] in G. rewrite (GetUser_found _ _ _ _ _ E G).
  unfold decodesToNil in N. rewrite N. reflexivity.
Qed.

Lemma GetUser_nil_record_no_user_no_error_witness :
  bolt.Get UserBucketName (lit "k") nullStore = Some (lit "null") /\
  decodesToNil (lit "null") /\
  GetUser defaultBackend (lit "k") nullStore = (None, None).
Proof.
  assert (G : bolt.Get UserBucketName (lit "k") nullStore = Some (lit "null"))
    by reflexivity.
  assert (N : decodesToNil (lit "null")) by reflexivity.
  split; [exact G|]. split; [exact N|].
  apply (GetUser_nil_record_no_user_no_error defaultBackend (lit "k")
           (lit "null") nullStore G N).
Defined.

(** Such a record is written through the backend itself when it is
    built with one name for both keyspaces. *)
Lemma GetUser_nil_after_SetValue :
  let b := NewBoltDBAuthBackend (lit "auth") (lit "auth") in
  (SetValue b (lit "k") (lit "null") ∅).1 = None /\
  GetUser b (lit "k") (SetValue b (lit "k") (lit "null") ∅).2 = (None, None).
Proof. split; reflexivity. Qed.

(** C4. [GetValue] on a store whose token keyspace was never created
    fails with the keyspace-missing error; a successful [SetValue]
    creates the keyspace, and once it exists, which by
    [keyspace_persists] it does from then on, [GetValue] on a key that
    is not in it fails with the not-found error.  The two errors differ,
    as values and as texts. *)
Theorem GetValue_lookup_asymmetry (b : BoltAuth) :
  (forall (key : bytes) (DS : gmap bytes (gmap bytes bytes)),
     DS !! TokenBucket b = None ->
     GetValue b key DS = ([], Some (KeyspaceMissingError (TokenBucket b)))) /\
  (forall (k v : bytes) (DS DS' : gmap bytes (gmap bytes bytes)),
     SetValue b k v DS = (None, DS') -> is_Some (DS' !! TokenBucket b)) /\
  (forall (key : bytes) (DS : gmap bytes (gmap bytes bytes)),
     is_Some (DS !! TokenBucket b) ->
     bolt.Get (TokenBucket b) key DS = None ->
     GetValue b key DS = ([], Some (NotFoundError key))) /\
  (forall key : bytes,
     KeyspaceMissingError (TokenBucket b) <> NotFoundError key /\
     forall quote,
       Error quote (KeyspaceMissingError (TokenBucket b))
       <> Error quote (NotFoundError key)).
Proof.
  split; [|split; [|split]].
  - intros key DS. apply GetValue_no_bucket.
  - intros k v DS DS' H. apply SetValue_ok in H. subst DS'.
    rewrite lookup_insert_eq. eauto.
  - intros key DS. apply GetValue_no_key.
  - intros key. split; [discriminate|]. intros quote.
    unfold Error, KeyspaceMissingError, NotFoundError.
    rewrite Sprintf_KeyspaceMissing, Sprintf_NotFound. discriminate.
Qed.

Lemma GetValue_lookup_asymmetry_witness :
  GetValue defaultBackend (lit "session") ∅
    = ([], Some (KeyspaceMissingError TokenBucketName)) /\
  GetValue defaultBackend (lit "session")
    (SetValue defaultBackend (lit "other") (lit "token") ∅).2
    = ([], Some (NotFoundError (lit "session"))).
Proof.
  destruct (GetValue_lookup_asymmetry defaultBackend) as (H1 & H2 & H3 & _).
  split.
  - apply H1. reflexivity.
  - apply H3.
    + apply (H2 (lit "other") (lit "token") ∅). reflexivity.
    + reflexivity.
Defined.

(** ** Deleting *)

(** C8. With a keyspace name, [DeleteUser] returns nil whether or not
    the username is there (so also when it is absent); afterwards the
    username is absent, and deleting it again returns nil and leaves the
    store as it is. *)
Theorem DeleteUser_idempotent (b : BoltAuth) (username : bytes)
    (DS : gmap bytes (gmap bytes bytes)) :
  UserBucket b <> [] ->
  (DeleteUser b username DS).1 = None /\
  bolt.Get (UserBucket b) username (DeleteUser b username DS).2 = None /\
  DeleteUser b username (DeleteUser b username DS).2
  = (None, (DeleteUser b username DS).2).
Proof.
  intros Hb. unfold DeleteUser. rewrite !delete_ok by exact Hb.
  cbn [fst snd]. split; [reflexivity|]. split.
  - unfold bolt.Get, bolt.contents. rewrite lookup_insert_eq. cbn [default].
    apply lookup_delete_eq.
  - f_equal. unfold bolt.contents at 1. rewrite lookup_insert_eq.
    cbn [default]. rewrite insert_insert_eq. f_equal.
    apply delete_id. apply lookup_delete_eq.
Qed.

Lemma DeleteUser_idempotent_witness :
  (DeleteUser defaultBackend (lit "nobody") ∅).1 = None /\
  bolt.Get UserBucketName (lit "nobody")
    (DeleteUser defaultBackend (lit "nobody") ∅).2 = None /\
  DeleteUser defaultBackend (lit "nobody")
    (DeleteUser defaultBackend (lit "nobody") ∅).2
  = (None, (DeleteUser defaultBackend (lit "nobody") ∅).2).
Proof.
  apply (DeleteUser_idempotent defaultBackend (lit "nobody") ∅).
  discriminate.
Defined.

(** ** Adding users *)

(** C10. When hashing the password fails, [AddUser] on a keyspace name
    and a username the store accepts still returns nil, and the record it
    has stored has the empty string for its password. *)
Theorem AddUser_ignores_hashing_failure (b : BoltAuth) (c : bcrypt.Cipher)
    (r : rand.Reader) (username password : bytes) (admin : bool)
    (DS : gmap bytes (gmap bytes bytes)) (e : bcrypt.error) :
  (bcrypt.GenerateFromPassword c r password 10).1.2 = Some e ->
  UserBucket b <> [] -> validKey username ->
  (AddUser b c r username password admin DS).1 = None /\
  exists u,
    bolt.Get (UserBucket b) username
      (AddUser b c r username password admin DS).2 = Some (Encode u).1 /\
    Password u = [] /\
    exists u',
      GetUser b username (AddUser b c r username password admin DS).2
      = (Some u', None) /\
      Password u' = [] /\ IsAdmin u' = admin.
Proof.
  intros He Hb Hk.
  pose proof (GetUser_after_AddUser b c r username password admin DS Hb Hk) as G.
  rewrite AddUser_ok in G |- * by assumption. cbn [fst snd] in *.
  split; [reflexivity|].
  destruct (newUser_fields c r username password admin) as (_ & _ & E3 & E4).
  rewrite (GenerateFromPassword_error _ _ _ _ He) in E3.
  exists (newUser c r username password admin). split; [|split].
  - unfold bolt.Get, bolt.contents. rewrite lookup_insert_eq. cbn [default].
    apply lookup_insert_eq.
  - exact E3.
  - eexists. split; [exact G|]. unfold coerceUser. cbn [Password IsAdmin].
    rewrite E3. split; [reflexivity | exact E4].
Qed.

Lemma AddUser_ignores_hashing_failure_witness :
  (AddUser defaultBackend sampleCipher (sampleReader 1) (lit "bob")
     longPassword false ∅).1 = None /\
  exists u,
    bolt.Get UserBucketName (lit "bob")
      (AddUser defaultBackend sampleCipher (sampleReader 1) (lit "bob")
         longPassword false ∅).2 = Some (Encode u).1 /\
    Password u = [] /\
    exists u',
      GetUser defaultBackend (lit "bob")
        (AddUser defaultBackend sampleCipher (sampleReader 1) (lit "bob")
           longPassword false ∅).2
      = (Some u', None) /\
      Password u' = [] /\ IsAdmin u' = false.
Proof.
  apply (AddUser_ignores_hashing_failure defaultBackend sampleCipher
           (sampleReader 1) (lit "bob") longPassword false ∅
           bcrypt.ErrPasswordTooLong).
  - reflexivity.
  - discriminate.
  - split; [discriminate | vm_compute; discriminate].
Defined.

(** X22. The password field of the record that a successful [AddUser]
    stores is the empty string when hashing failed and otherwise a string of
    bcrypt's form, which starts with the header [$2a$10$]; so it differs
    from every plaintext that is not empty and does not itself start with
    that header. *)
Lemma AddUser_password_opacity (b : BoltAuth) (c : bcrypt.Cipher)
    (r : rand.Reader) (username password : bytes) (admin : bool)
    (DS : gmap bytes (gmap bytes bytes)) :
  (AddUser b c r username password admin DS).1 = None ->
  password <> [] -> firstn 7 password <> header ->
  exists u,
    GetUser b username (AddUser b c r username password admin DS).2
    = (Some u, None) /\
    (Password u = [] \/ firstn 7 (Password u) = header) /\
    Password u <> password.
Proof.
  intros Hok Hne Hpre. apply AddUser_success in Hok. destruct Hok as [Hb Hk].
  rewrite GetUser_after_AddUser by assumption.
  eexists. split; [reflexivity|].
  unfold coerceUser. cbn [Password].
  destruct (newUser_fields c r username password admin) as (_ & _ & -> & _).
  pose proof (GenerateFromPassword_cases c r password) as G.
  destruct (bcrypt.GenerateFromPassword c r password 10) as [[h e] r'].
  cbn [fst]. destruct G as [[-> _] | (_ & L & F)].
  - split; [left; reflexivity|]. cbn. congruence.
  - assert (P : firstn 7 (json.coerce h) = header).
    { rewrite <- (firstn_skipn 7 h), F.
      apply (coerce_prefix header). repeat constructor. }
    split; [right; exact P|]. intros E. apply Hpre. rewrite <- E. exact P.
Qed.

Lemma AddUser_password_opacity_example :
  exists u,
    GetUser defaultBackend (lit "bob")
      (AddUser defaultBackend sampleCipher (sampleReader 1) (lit "bob")
         (lit "secret") false ∅).2
    = (Some u, None) /\
    (Password u = [] \/ firstn 7 (Password u) = header) /\
    Password u <> lit "secret".
Proof.
  apply (AddUser_password_opacity defaultBackend sampleCipher
           (sampleReader 1) (lit "bob") (lit "secret") false ∅).
  - reflexivity.
  - discriminate.
  - discriminate.
Defined.

(** C6.  For a plaintext of 73 bytes hashing fails with
    [ErrPasswordTooLong]; [AddUser] discards the error and succeeds, and
    the password field of the record it has stored is the empty string,
    not a hash of the plaintext. *)
Theorem AddUser_stores_no_hash_for_long_password :
  bcrypt.GenerateFromPassword sampleCipher (sampleReader 1) longPassword 10
    = (([], Some bcrypt.ErrPasswordTooLong), sampleReader 1) /\
  (AddUser defaultBackend sampleCipher (sampleReader 1) (lit "bob")
     longPassword false ∅).1 = None /\
  exists u,
    GetUser defaultBackend (lit "bob")
      (AddUser defaultBackend sampleCipher (sampleReader 1) (lit "bob")
         longPassword false ∅).2
    = (Some u, None) /\
    Password u = [].
Proof.
  split; [reflexivity|]. split; [reflexivity|].
  eexists. split; [vm_compute; reflexivity | reflexivity].
Qed.

(** C3, as the code has it.  For a keyspace name and a username the
    store accepts, two calls of [AddUser] with the username both return
    nil and leave one record under it; the record has the admin flag of
    the second call and the identifier drawn in the second call, which
    differs from the one drawn in the first call exactly when the two
    draws differ. *)
Theorem AddUser_twice_overwrites (b : BoltAuth) (c : bcrypt.Cipher)
    (r1 r2 : rand.Reader) (username p1 p2 : bytes) (a1 a2 : bool)
    (DS : gmap bytes (gmap bytes bytes)) :
  UserBucket b <> [] -> validKey username ->
  let first := AddUser b c r1 username p1 a1 DS in
  let second := AddUser b c r2 username p2 a2 first.2 in
  first.1 = None /\ second.1 = None /\
  exists record u1 u2,
    filter (fun kv => kv.1 = username)
      (bolt.Cursor (bolt.contents (UserBucket b) second.2))
    = [(username, record)] /\
    DecodeUser record = (Some u2, None) /\
    GetUser b username first.2 = (Some u1, None) /\
    GetUser b username second.2 = (Some u2, None) /\
    IsAdmin u2 = a2 /\
    UUID u1 = (uuid.New (idReader c r1 p1)).1 /\
    UUID u2 = (uuid.New (idReader c r2 p2)).1 /\
    (UUID u2 <> UUID u1 <->
     (uuid.NewRandom (idReader c r2 p2)).1
     <> (uuid.NewRandom (idReader c r1 p1)).1).
Proof.
  intros Hb Hk first second. subst first second.
  pose proof (GetUser_after_AddUser b c r1 username p1 a1 DS Hb Hk) as G1.
  pose proof (GetUser_after_AddUser b c r2 username p2 a2
                (AddUser b c r1 username p1 a1 DS).2 Hb Hk) as G2.
  rewrite (AddUser_ok b c r2) in G2 |- * by assumption.
  rewrite (AddUser_ok b c r1) in G1, G2 |- * by assumption.
  cbn [fst snd] in *.
  split; [reflexivity|]. split; [reflexivity|].
  exists (Encode (newUser c r2 username p2 a2)).1,
    (coerceUser (newUser c r1 username p1 a1)),
    (coerceUser (newUser c r2 username p2 a2)).
  destruct (newUser_fields c r1 username p1 a1) as (U1 & _ & _ & _).
  destruct (newUser_fields c r2 username p2 a2) as (U2 & _ & _ & A2).
  change (IsAdmin (coerceUser ?u)) with (IsAdmin u).
  repeat change (UUID (coerceUser ?u)) with (json.coerce (UUID u)).
  rewrite U1, U2, !New_coerce.
  split.
  { apply Cursor_one_record. unfold bolt.contents.
    rewrite lookup_insert_eq. cbn [default]. apply lookup_insert_eq. }
  split; [apply DecodeUser_Encode|].
  split; [exact G1|]. split; [exact G2|]. split; [exact A2|].
  split; [reflexivity|]. split; [reflexivity|].
  split; intros N E; apply N.
  - apply (proj2 (New_inj _ _)). exact E.
  - apply (proj1 (New_inj _ _)). exact E.
Qed.

Lemma AddUser_twice_overwrites_witness :
  UserBucket defaultBackend <> [] /\ validKey (lit "alice") /\
  let first :=
    AddUser defaultBackend sampleCipher (sampleReader 1) (lit "alice")
      (lit "pw1") false ∅ in
  let second :=
    AddUser defaultBackend sampleCipher (sampleReader 2) (lit "alice")
      (lit "pw2") true first.2 in
  first.1 = None /\ second.1 = None /\
  exists record u1 u2,
    filter (fun kv => kv.1 = lit "alice")
      (bolt.Cursor (bolt.contents (UserBucket defaultBackend) second.2))
    = [(lit "alice", record)] /\
    DecodeUser record = (Some u2, None) /\
    GetUser defaultBackend (lit "alice") first.2 = (Some u1, None) /\
    GetUser defaultBackend (lit "alice") second.2 = (Some u2, None) /\
    IsAdmin u2 = true /\
    UUID u1 = (uuid.New (idReader sampleCipher (sampleReader 1) (lit "pw1"))).1 /\
    UUID u2 = (uuid.New (idReader sampleCipher (sampleReader 2) (lit "pw2"))).1 /\
    (UUID u2 <> UUID u1 <->
     (uuid.NewRandom (idReader sampleCipher (sampleReader 2) (lit "pw2"))).1
     <> (uuid.NewRandom (idReader sampleCipher (sampleReader 1) (lit "pw1"))).1).
Proof.
  assert (Hb : UserBucket defaultBackend <> []) by discriminate.
  assert (Hk : validKey (lit "alice"))
    by (split; [discriminate | vm_compute; discriminate]).
  split; [exact Hb|]. split; [exact Hk|].
  apply (AddUser_twice_overwrites defaultBackend sampleCipher
           (sampleReader 1) (sampleReader 2) (lit "alice")
           (lit "pw1") (lit "pw2") false true ∅ Hb Hk).
Defined.

(** With a reader that repeats itself the two identifiers are the same:
    nothing but the draw makes them differ. *)
Lemma AddUser_twice_same_draw :
  let first :=
    AddUser defaultBackend sampleCipher (sampleReader 1) (lit "alice")
      (lit "pw1") false ∅ in
  let second :=
    AddUser defaultBackend sampleCipher (sampleReader 1) (lit "alice")
      (lit "pw2") true first.2 in
  exists u1 u2,
    GetUser defaultBackend (lit "alice") first.2 = (Some u1, None) /\
    GetUser defaultBackend (lit "alice") second.2 = (Some u2, None) /\
    UUID u2 = UUID u1.
Proof.
  eexists _, _. split; [vm_compute; reflexivity|].
  split; [vm_compute; reflexivity | reflexivity].
Qed.

(** C3, as stated, fails at the empty username: the store refuses the
    key, both calls return an error and no record is stored under it. *)
Lemma AddUser_twice_empty_username :
  (AddUser defaultBackend sampleCipher (sampleReader 1) []
     (lit "pw1") false ∅).1 = Some (BoltError bolt.ErrKeyRequired) /\
  (AddUser defaultBackend sampleCipher (sampleReader 2) []
     (lit "pw2") true
     (AddUser defaultBackend sampleCipher (sampleReader 1) []
        (lit "pw1") false ∅).2).1 = Some (BoltError bolt.ErrKeyRequired) /\
  filter (fun kv : bytes * bytes => kv.1 = [])
    (bolt.Cursor
       (bolt.contents UserBucketName
          (AddUser defaultBackend sampleCipher (sampleReader 2) []
             (lit "pw2") true
             (AddUser defaultBackend sampleCipher (sampleReader 1) []
                (lit "pw1") false ∅).2).2))
  = [].
Proof. repeat split. Qed.

(** ** Scanning the users *)

Lemma GetAllUsers_loop_returns (kvs : list (bytes * bytes)) :
  forall acc users,
    GetAllUsers_loop kvs acc = Returns users ->
    users = acc ++ omap decodable kvs.
Proof.
  induction kvs as [|[k v] kvs IH]; intros acc users H.
  - cbn in H. injection H as <-. rewrite app_nil_r. reflexivity.
  - cbn [GetAllUsers_loop omap list_omap] in *. unfold decodable at 1.
    cbn [snd]. destruct (DecodeUser v) as [[u|] [e|]]; try discriminate H.
    + apply IH, H.
    + apply IH in H. rewrite <- app_assoc in H. exact H.
    + apply IH, H.
Qed.

Lemma GetAllUsers_loop_no_nil (kvs : list (bytes * bytes)) :
  forall acc,
    Forall (fun kv => ~ decodesToNil kv.2) kvs ->
    GetAllUsers_loop kvs acc = Returns (acc ++ omap decodable kvs).
Proof.
  induction kvs as [|[k v] kvs IH]; intros acc F.
  - cbn. rewrite app_nil_r. reflexivity.
  - apply Forall_cons in F. destruct F as [N F]. unfold decodesToNil in N.
    cbn [GetAllUsers_loop omap list_omap snd] in *. unfold decodable at 1.
    cbn [snd]. destruct (DecodeUser v) as [[u|] [e|]].
    + apply IH, F.
    + rewrite IH by exact F. rewrite <- app_assoc. reflexivity.
    + apply IH, F.
    + contradiction.
Qed.

Lemma GetAllUsers_loop_nil (kvs : list (bytes * bytes)) :
  forall acc,
    Exists (fun kv => decodesToNil kv.2) kvs ->
    GetAllUsers_loop kvs acc = Panics NilPointerDereference.
Proof.
  induction kvs as [|[k v] kvs IH]; intros acc X.
  - apply Exists_nil in X. contradiction.
  - cbn [GetAllUsers_loop].
    destruct (DecodeUser v) as [[u|] [e|]] eqn:E;
      try (apply IH; apply Exists_cons in X; destruct X as [X | X];
           [unfold decodesToNil in X; cbn [snd] in X; congruence | exact X]).
    reflexivity.
Qed.

Lemma Cursor_empty : bolt.Cursor ∅ = [].
Proof. unfold bolt.Cursor. rewrite map_to_list_empty. reflexivity. Qed.

(** When no record of the user keyspace decodes to nil, [GetAllUsers]
    returns the users of the records that decode, and no error; an
    absent keyspace gives the empty sequence. *)
Lemma GetAllUsers_returns (b : BoltAuth) (DS : gmap bytes (gmap bytes bytes)) :
  (forall k v : bytes,
     bolt.Get (UserBucket b) k DS = Some v -> ~ decodesToNil v) ->
  GetAllUsers b DS
  = Returns (omap decodable (bolt.Cursor (bolt.contents (UserBucket b) DS)),
             None).
Proof.
  intros H. unfold GetAllUsers, bolt.View, bolt.Tx_Bucket.
  destruct (DS !! UserBucket b) as [m|] eqn:E.
  - rewrite GetAllUsers_loop_no_nil; [reflexivity|].
    apply Forall_forall. intros [k v] Hkv. cbn [snd].
    apply (H k). unfold bolt.Get. apply elem_of_Cursor, Hkv.
  - unfold bolt.contents. rewrite E. cbn [default]. rewrite Cursor_empty.
    reflexivity.
Qed.

(** C9. The sequence that [GetAllUsers] returns is made of the users of
    the decodable records of the user keyspace, in the order of the
    cursor, which is the ascending byte order of the keys. *)
Theorem GetAllUsers_in_key_order (b : BoltAuth)
    (DS : gmap bytes (gmap bytes bytes)) (users : list User)
    (err : option error) :
  GetAllUsers b DS = Returns (users, err) ->
  let records := bolt.Cursor (bolt.contents (UserBucket b) DS) in
  err = None /\
  users = omap decodable records /\
  StronglySorted keyLess records.*1 /\
  forall k v : bytes,
    (k, v) ∈ records <-> bolt.Get (UserBucket b) k DS = Some v.
Proof.
  intros H records. subst records.
  split; [|split; [|split]].
  - unfold GetAllUsers, bolt.View in H.
    destruct (bolt.Tx_Bucket (UserBucket b) DS); [|congruence].
    destruct (GetAllUsers_loop _ _); congruence.
  - unfold GetAllUsers, bolt.View, bolt.Tx_Bucket in H.
    destruct (DS !! UserBucket b) as [m|] eqn:E.
    + destruct (GetAllUsers_loop _ _) as [us|] eqn:L; [|discriminate H].
      apply GetAllUsers_loop_returns in L. cbn [app] in L. congruence.
    + unfold bolt.contents. rewrite E. cbn [default]. rewrite Cursor_empty.
      cbn. congruence.
  - apply Cursor_ascending.
  - intros k v. apply elem_of_Cursor.
Qed.

Lemma GetAllUsers_in_key_order_witness :
  let records := bolt.Cursor (bolt.contents UserBucketName sampleStore) in
  records.*1 = [lit "alice"; lit "bob"] /\
  GetAllUsers defaultBackend sampleStore
  = Returns (omap decodable records, None) /\
  StronglySorted keyLess records.*1.
Proof.
  intros records.
  assert (H : GetAllUsers defaultBackend sampleStore
              = Returns (omap decodable records, None))
    by (vm_compute; reflexivity).
  split; [vm_compute; reflexivity|]. split; [exact H|].
  apply (GetAllUsers_in_key_order defaultBackend sampleStore _ _ H).
Defined.

(** C1.  Where a record of the user keyspace decodes without error to no
    user, [GetAllUsers] does not return: it dereferences the nil pointer
    and panics. *)
Theorem GetAllUsers_panics_on_nil_record (b : BoltAuth)
    (DS : gmap bytes (gmap bytes bytes)) (k v : bytes) :
  bolt.Get (UserBucket b) k DS = Some v -> decodesToNil v ->
  GetAllUsers b DS = Panics NilPointerDereference.
Proof.
  intros G N. unfold GetAllUsers, bolt.View, bolt.Tx_Bucket.
  unfold bolt.Get, bolt.contents in G.
  destruct (DS !! UserBucket b) as [m|] eqn:E;
    [|cbn in G; rewrite lookup_empty in G; discriminate G].
  cbn [default] in G. rewrite (contents_lookup _ _ _ E).
  rewrite GetAllUsers_loop_nil; [reflexivity|].
  apply Exists_exists. exists (k, v). split; [|exact N].
  apply elem_of_Cursor, G.
Qed.

Lemma GetAllUsers_panics_on_nil_record_witness :
  bolt.Get UserBucketName (lit "k") nullStore = Some (lit "null") /\
  decodesToNil (lit "null") /\
  GetAllUsers defaultBackend nullStore = Panics NilPointerDereference.
Proof.
  assert (G : bolt.Get UserBucketName (lit "k") nullStore = Some (lit "null"))
    by reflexivity.
  assert (N : decodesToNil (lit "null")) by reflexivity.
  split; [exact G|]. split; [exact N|].
  apply (GetAllUsers_panics_on_nil_record defaultBackend nullStore
           (lit "k") (lit "null") G N).
Defined.

(** Such a store is reached through the backend itself when it is built
    with one name for both keyspaces. *)
Lemma GetAllUsers_panics_after_SetValue :
  let b := NewBoltDBAuthBackend (lit "auth") (lit "auth") in
  (SetValue b (lit "k") (lit "null") ∅).1 = None /\
  GetAllUsers b (SetValue b (lit "k") (lit "null") ∅).2
  = Panics NilPointerDereference.
Proof. split; reflexivity. Qed.

(** C5.  Of three stored records, one replaced by the literal [null]:
    [GetAllUsers] panics, and returns neither of the other two. *)
Theorem GetAllUsers_three_records_one_null :
  GetAllUsers defaultBackend (replaceRecord (lit "bob") (lit "null") twoUsers)
  = Panics NilPointerDereference.
Proof. vm_compute. reflexivity. Qed.

(** A record that fails to decode is skipped, as specified. *)
Lemma GetAllUsers_three_records_one_malformed :
  exists alice carol,
    GetAllUsers defaultBackend
      (replaceRecord (lit "bob") (lit "{not json") twoUsers)
    = Returns ([alice; carol], None) /\
    Username alice = lit "alice" /\ Username carol = lit "carol".
Proof.
  eexists _, _. split; [vm_compute; reflexivity|]. split; reflexivity.
Qed.

(** * How the operations compose *)

Lemma Update_error {E : Type} (DS DS' : gmap bytes (gmap bytes bytes))
    (fn : gmap bytes (gmap bytes bytes) ->
          option E * gmap bytes (gmap bytes bytes)) (e : E) :
  bolt.Update DS fn = (Some e, DS') -> DS' = DS.
Proof.
  unfold bolt.Update. destruct (fn DS) as [[e'|] tx]; congruence.
Qed.

Lemma insert_contents (name : bytes) (m : gmap bytes bytes)
    (DS : gmap bytes (gmap bytes bytes)) :
  bolt.contents name (<[ name := m ]> DS) = m.
Proof. unfold bolt.contents. rewrite lookup_insert_eq. reflexivity. Qed.

Lemma insert_contents_ne (name other : bytes) (m : gmap bytes bytes)
    (DS : gmap bytes (gmap bytes bytes)) :
  name <> other ->
  bolt.contents other (<[ name := m ]> DS) = bolt.contents other DS.
Proof.
  intros N. unfold bolt.contents. rewrite lookup_insert_ne by exact N.
  reflexivity.
Qed.

Lemma SetValue_accepts (b : BoltAuth) (key value : bytes)
    (DS : gmap bytes (gmap bytes bytes)) :
  TokenBucket b <> [] -> validKey key -> validValue value ->
  SetValue b key value DS
  = (None,
     <[ TokenBucket b :=
          <[ key := value ]> (bolt.contents (TokenBucket b) DS) ]> DS).
Proof.
  intros Hb Hk Hv. unfold SetValue, bolt.Update.
  destruct (CreateBucketIfNotExists_ok (TokenBucket b) DS Hb)
    as (tx & E & L & O). rewrite E. cbv iota beta.
  change (default [] (Some (TokenBucket b))) with (TokenBucket b).
  rewrite Put_ok by assumption. cbv iota beta.
  f_equal. apply map_eq. intros name.
  destruct (decide (name = TokenBucket b)) as [-> | N].
  - rewrite !lookup_insert_eq. rewrite (contents_lookup _ _ _ L). reflexivity.
  - rewrite !lookup_insert_ne by congruence. apply O, N.
Qed.

Lemma GetValue_found (b : BoltAuth) (key val : bytes)
    (DS : gmap bytes (gmap bytes bytes)) (m : gmap bytes bytes) :
  DS !! TokenBucket b = Some m -> m !! key = Some val ->
  GetValue b key DS = (val, None).
Proof.
  intros H K. unfold GetValue, bolt.View, bolt.Tx_Bucket, bolt.Get.
  rewrite H, (contents_lookup _ _ _ H), K. reflexivity.
Qed.

(** What the lookups read of the store: the one keyspace. *)
Lemma GetValue_reads_keyspace (b : BoltAuth) (key : bytes)
    (DS DS' : gmap bytes (gmap bytes bytes)) :
  DS' !! TokenBucket b = DS !! TokenBucket b ->
  GetValue b key DS' = GetValue b key DS.
Proof.
  intros H. unfold GetValue, bolt.View, bolt.Tx_Bucket, bolt.Get, bolt.contents.
  rewrite H. destruct (DS !! TokenBucket b) eqn:E; [|reflexivity].
  cbv iota beta. rewrite H, E. reflexivity.
Qed.

Lemma GetUser_reads_keyspace (b : BoltAuth) (username : bytes)
    (DS DS' : gmap bytes (gmap bytes bytes)) :
  DS' !! UserBucket b = DS !! UserBucket b ->
  GetUser b username DS' = GetUser b username DS.
Proof.
  intros H. unfold GetUser, bolt.View, bolt.Tx_Bucket, bolt.Get, bolt.contents.
  rewrite H. destruct (DS !! UserBucket b) eqn:E; [|reflexivity].
  cbv iota beta. rewrite H, E. reflexivity.
Qed.

Lemma GetAllUsers_reads_keyspace (b : BoltAuth)
    (DS DS' : gmap bytes (gmap bytes bytes)) :
  DS' !! UserBucket b = DS !! UserBucket b ->
  GetAllUsers b DS' = GetAllUsers b DS.
Proof.
  intros H. unfold GetAllUsers, bolt.View, bolt.Tx_Bucket, bolt.contents.
  rewrite H. destruct (DS !! UserBucket b) eqn:E; [|reflexivity].
  cbv iota beta. rewrite H, E. reflexivity.
Qed.

Lemma GetValue_reads_key (b : BoltAuth) (key : bytes)
    (DS DS' : gmap bytes (gmap bytes bytes)) :
  is_Some (DS' !! TokenBucket b) -> is_Some (DS !! TokenBucket b) ->
  bolt.Get (TokenBucket b) key DS' = bolt.Get (TokenBucket b) key DS ->
  GetValue b key DS' = GetValue b key DS.
Proof.
  intros [m' H'] [m H] G. unfold GetValue, bolt.View, bolt.Tx_Bucket.
  rewrite H', H. cbv iota beta. rewrite G. reflexivity.
Qed.

Lemma GetUser_reads_key (b : BoltAuth) (username : bytes)
    (DS DS' : gmap bytes (gmap bytes bytes)) :
  is_Some (DS' !! UserBucket b) -> is_Some (DS !! UserBucket b) ->
  bolt.Get (UserBucket b) username DS' = bolt.Get (UserBucket b) username DS ->
  GetUser b username DS' = GetUser b username DS.
Proof.
  intros [m' H'] [m H] G. unfold GetUser, bolt.View, bolt.Tx_Bucket.
  rewrite H', H. cbv iota beta. rewrite G. reflexivity.
Qed.

Lemma SetValue_success (b : BoltAuth) (key value : bytes)
    (DS : gmap bytes (gmap bytes bytes)) :
  (SetValue b key value DS).1 = None ->
  TokenBucket b <> [] /\ validKey key /\ validValue value.
Proof.
  unfold SetValue, bolt.Update, bolt.CreateBucketIfNotExists.
  destruct (length (TokenBucket b) =? 0)%nat eqn:Eb; [discriminate|].
  apply length_eqb_0 in Eb. intros H. split; [exact Eb|].
  destruct (DS !! TokenBucket b); cbv iota beta in H; unfold bolt.Put in H;
    destruct (length key =? 0)%nat eqn:Ek; try discriminate H;
    destruct (Z.ltb_spec bolt.MaxKeySize (Z.of_nat (length key)));
    try discriminate H;
    destruct (Z.ltb_spec bolt.MaxValueSize (Z.of_nat (length value)));
    try discriminate H;
    (split; [split; [apply length_eqb_0, Ek | lia] | exact H1]).
Qed.

(** What a call changes of the store: at most the one keyspace. *)
Lemma SetValue_other_keyspace (b : BoltAuth) (key value name : bytes)
    (DS : gmap bytes (gmap bytes bytes)) :
  name <> TokenBucket b ->
  (SetValue b key value DS).2 !! name = DS !! name.
Proof.
  intros N. destruct (SetValue b key value DS) as [[e|] DS'] eqn:E.
  - unfold SetValue in E. apply Update_error in E. subst DS'. reflexivity.
  - apply SetValue_ok in E. subst DS'. cbn [snd].
    apply lookup_insert_ne. congruence.
Qed.

Lemma AddUser_other_keyspace (b : BoltAuth) (c : bcrypt.Cipher)
    (r : rand.Reader) (username password : bytes) (admin : bool)
    (name : bytes) (DS : gmap bytes (gmap bytes bytes)) :
  name <> UserBucket b ->
  (AddUser b c r username password admin DS).2 !! name = DS !! name.
Proof.
  intros N.
  destruct (AddUser b c r username password admin DS) as [[e|] DS'] eqn:E.
  - unfold AddUser in E. apply Update_error in E. subst DS'. reflexivity.
  - pose proof (f_equal fst E) as E1. cbn [fst] in E1.
    apply AddUser_success in E1. destruct E1 as [Hb Hk].
    rewrite AddUser_ok in E by assumption. simplify_eq. cbn [snd].
    apply lookup_insert_ne. congruence.
Qed.

Lemma DeleteUser_other_keyspace (b : BoltAuth) (username name : bytes)
    (DS : gmap bytes (gmap bytes bytes)) :
  name <> UserBucket b ->
  (DeleteUser b username DS).2 !! name = DS !! name.
Proof.
  intros N. unfold DeleteUser.
  destruct (delete_ b username (UserBucket b) DS) as [[e|] DS'] eqn:E.
  - unfold delete_ in E. apply Update_error in E. subst DS'. reflexivity.
  - destruct (decide (UserBucket b = [])) as [Eb | Nb].
    + unfold delete_, bolt.Update in E. rewrite Eb in E. discriminate E.
    + rewrite delete_ok in E by exact Nb. simplify_eq. cbn [snd].
      apply lookup_insert_ne. congruence.
Qed.

(** ** The token keyspace *)

(** X1. A value written by [SetValue] under a key the store accepts is
    the value [GetValue] returns for the key, with a nil error. *)
Theorem GetValue_after_SetValue (b : BoltAuth) (key value : bytes)
    (DS : gmap bytes (gmap bytes bytes)) :
  TokenBucket b <> [] -> validKey key -> validValue value ->
  (SetValue b key value DS).1 = None /\
  GetValue b key (SetValue b key value DS).2 = (value, None).
Proof.
  intros Hb Hk Hv. rewrite SetValue_accepts by assumption.
  split; [reflexivity|]. cbn [snd].
  apply (GetValue_found _ _ _ _ _ (lookup_insert_eq _ _ _)).
  apply lookup_insert_eq.
Qed.

Lemma GetValue_after_SetValue_witness :
  (SetValue defaultBackend (lit "token") (lit "abc") ∅).1 = None /\
  GetValue defaultBackend (lit "token")
    (SetValue defaultBackend (lit "token") (lit "abc") ∅).2
  = (lit "abc", None).
Proof.
  apply (GetValue_after_SetValue defaultBackend (lit "token") (lit "abc") ∅).
  - discriminate.
  - split; [discriminate | vm_compute; discriminate].
  - vm_compute; discriminate.
Defined.

(** X2. [SetValue] fails in four cases and in no other: without a
    keyspace name, with an empty key, with a key of more than 32768
    bytes and with a value of more than 2^31 - 2 bytes.  A call that
    fails leaves the store as it was: the keyspace that the transaction
    had created is rolled back with it. *)
Theorem SetValue_fails_in_four_cases (b : BoltAuth) (key value : bytes)
    (DS : gmap bytes (gmap bytes bytes)) :
  (SetValue b key value DS).1
  = (if decide (TokenBucket b = []) then
       Some (BoltError bolt.ErrBucketNameRequired)
     else if decide (key = []) then Some (BoltError bolt.ErrKeyRequired)
     else if decide (bolt.MaxKeySize < Z.of_nat (length key)) then
       Some (BoltError bolt.ErrKeyTooLarge)
     else if decide (bolt.MaxValueSize < Z.of_nat (length value)) then
       Some (BoltError bolt.ErrValueTooLarge)
     else None) /\
  ((SetValue b key value DS).1 <> None -> (SetValue b key value DS).2 = DS).
Proof.
  split.
  - unfold SetValue, bolt.Update, bolt.CreateBucketIfNotExists.
    destruct (decide (TokenBucket b = [])) as [Eb | Nb];
      [rewrite Eb; reflexivity|].
    apply length_eqb_0 in Nb. rewrite Nb.
    assert (P : forall tx,
      (bolt.Put (TokenBucket b) key value tx).1
      = if decide (key = []) then Some bolt.ErrKeyRequired
        else if decide (bolt.MaxKeySize < Z.of_nat (length key))
        then Some bolt.ErrKeyTooLarge
        else if decide (bolt.MaxValueSize < Z.of_nat (length value))
        then Some bolt.ErrValueTooLarge
        else None).
    { intros tx. unfold bolt.Put.
      destruct (decide (key = [])) as [-> | Nk]; [reflexivity|].
      apply length_eqb_0 in Nk. rewrite Nk.
      destruct (Z.ltb_spec bolt.MaxKeySize (Z.of_nat (length key)));
        destruct (decide (bolt.MaxKeySize < Z.of_nat (length key)));
        try lia; [reflexivity|].
      destruct (Z.ltb_spec bolt.MaxValueSize (Z.of_nat (length value)));
        destruct (decide (bolt.MaxValueSize < Z.of_nat (length value)));
        try lia; reflexivity. }
    destruct (DS !! TokenBucket b); cbv iota beta;
      change (default [] (Some (TokenBucket b))) with (TokenBucket b);
      match goal with
      | |- context [bolt.Put ?x ?y ?z ?tx] =>
        specialize (P tx); destruct (bolt.Put x y z tx) as [[e|] tx']
      end; cbn [fst] in P |- *;
      repeat match type of P with
             | context [decide ?X] => destruct (decide X)
             end; congruence.
  - destruct (SetValue b key value DS) as [[e|] DS'] eqn:E;
      [|intros H; contradiction H; reflexivity].
    intros _. unfold SetValue in E. apply Update_error in E. exact E.
Qed.

(** X3. [SetValue] leaves the other keys of the token keyspace as they
    were: once the keyspace is there, [GetValue] for another key
    returns after the call what it returned before. *)
Theorem SetValue_keeps_other_keys (b : BoltAuth) (key value other : bytes)
    (DS : gmap bytes (gmap bytes bytes)) :
  other <> key -> is_Some (DS !! TokenBucket b) ->
  GetValue b other (SetValue b key value DS).2 = GetValue b other DS.
Proof.
  intros N H.
  destruct (SetValue b key value DS) as [[e|] DS'] eqn:E.
  - unfold SetValue in E. apply Update_error in E. subst DS'. reflexivity.
  - apply SetValue_ok in E. subst DS'. cbn [snd].
    apply GetValue_reads_key; [rewrite lookup_insert_eq; eauto | exact H |].
    unfold bolt.Get. rewrite insert_contents.
    apply lookup_insert_ne. congruence.
Qed.

Lemma SetValue_keeps_other_keys_witness :
  let DS := (SetValue defaultBackend (lit "a") (lit "1") ∅).2 in
  lit "a" <> lit "b" /\
  is_Some (DS !! TokenBucket defaultBackend) /\
  GetValue defaultBackend (lit "a")
    (SetValue defaultBackend (lit "b") (lit "2") DS).2
  = GetValue defaultBackend (lit "a") DS.
Proof.
  intros DS.
  assert (N : lit "a" <> lit "b") by discriminate.
  assert (H : is_Some (DS !! TokenBucket defaultBackend)).
  { subst DS. rewrite SetValue_accepts;
      [| discriminate | split; [discriminate | vm_compute; discriminate]
       | vm_compute; discriminate].
    cbn [snd]. rewrite lookup_insert_eq. eauto. }
  split; [exact N|]. split; [exact H|].
  apply (SetValue_keeps_other_keys defaultBackend (lit "b") (lit "2")
           (lit "a") DS N H).
Defined.

(** X4. The last write wins: a [SetValue] for a key, with a value the
    store accepts, returns the same and leaves the same store whether or
    not another [SetValue] for the key came before it. *)
Theorem SetValue_last_write_wins (b : BoltAuth) (key value1 value2 : bytes)
    (DS : gmap bytes (gmap bytes bytes)) :
  validValue value2 ->
  SetValue b key value2 (SetValue b key value1 DS).2
  = SetValue b key value2 DS.
Proof.
  intros Hv.
  destruct (SetValue b key value1 DS) as [[e|] DS'] eqn:E.
  - unfold SetValue in E. apply Update_error in E. subst DS'. reflexivity.
  - pose proof (f_equal fst E) as E1. cbn [fst] in E1.
    apply SetValue_success in E1. destruct E1 as (Hb & Hk & _).
    apply SetValue_ok in E. subst DS'. cbn [snd].
    rewrite !SetValue_accepts by assumption.
    rewrite insert_contents, insert_insert_eq, insert_insert_eq.
    reflexivity.
Qed.

Lemma SetValue_last_write_wins_witness :
  validValue (lit "2") /\
  SetValue defaultBackend (lit "a") (lit "2")
    (SetValue defaultBackend (lit "a") (lit "1") ∅).2
  = SetValue defaultBackend (lit "a") (lit "2") ∅.
Proof.
  assert (V : validValue (lit "2")) by (vm_compute; discriminate).
  split; [exact V|].
  apply (SetValue_last_write_wins defaultBackend (lit "a") (lit "1")
           (lit "2") ∅ V).
Defined.

(** ** The user keyspace *)

Lemma AddUser_key_too_large (b : BoltAuth) (c : bcrypt.Cipher)
    (r : rand.Reader) (username password : bytes) (admin : bool)
    (DS : gmap bytes (gmap bytes bytes)) :
  UserBucket b <> [] -> username <> [] ->
  bolt.MaxKeySize < Z.of_nat (length username) ->
  AddUser b c r username password admin DS
  = (Some (BoltError bolt.ErrKeyTooLarge), DS).
Proof.
  intros Hb Hk Hl. unfold AddUser, bolt.Update.
  destruct (CreateBucketIfNotExists_ok (UserBucket b) DS Hb)
    as (tx & E & L & O). rewrite E. cbv iota beta.
  destruct (bcrypt.GenerateFromPassword c r password 10) as [[h e] r'].
  destruct (uuid.New r') as [uid r''].
  match goal with
  | |- context [Encode ?u] => change (Encode u) with ((Encode u).1, @None error)
  end. cbv iota beta. unfold bolt.Put.
  apply length_eqb_0 in Hk. rewrite Hk.
  destruct (Z.ltb_spec bolt.MaxKeySize (Z.of_nat (length username)));
    [reflexivity | lia].
Qed.

Lemma DeleteUser_no_name (b : BoltAuth) (username : bytes)
    (DS : gmap bytes (gmap bytes bytes)) :
  UserBucket b = [] ->
  DeleteUser b username DS
  = (Some (BoltError bolt.ErrBucketNameRequired), DS).
Proof.
  intros Eb. unfold DeleteUser, delete_, bolt.Update. rewrite Eb. reflexivity.
Qed.

(** X5. [AddUser] fails in three cases and in no other: without a
    keyspace name, with an empty username and with a username of more
    than 32768 bytes; neither the password nor the hashing nor the
    encoding of the record makes it fail.  A call that fails leaves the
    store as it was. *)
Theorem AddUser_fails_in_three_cases (b : BoltAuth) (c : bcrypt.Cipher)
    (r : rand.Reader) (username password : bytes) (admin : bool)
    (DS : gmap bytes (gmap bytes bytes)) :
  (AddUser b c r username password admin DS).1
  = (if decide (UserBucket b = []) then
       Some (BoltError bolt.ErrBucketNameRequired)
     else if decide (username = []) then Some (BoltError bolt.ErrKeyRequired)
     else if decide (bolt.MaxKeySize < Z.of_nat (length username)) then
       Some (BoltError bolt.ErrKeyTooLarge)
     else None) /\
  ((AddUser b c r username password admin DS).1 <> None ->
   (AddUser b c r username password admin DS).2 = DS).
Proof.
  split.
  - destruct (decide (UserBucket b = [])) as [Eb | Nb].
    { unfold AddUser, bolt.Update. rewrite Eb. reflexivity. }
    destruct (decide (username = [])) as [-> | Nk].
    { rewrite AddUser_empty_username by exact Nb. reflexivity. }
    destruct (decide (bolt.MaxKeySize < Z.of_nat (length username)))
      as [Hl | Hl].
    { rewrite AddUser_key_too_large by assumption. reflexivity. }
    rewrite AddUser_ok; [reflexivity | exact Nb | split; [exact Nk | lia]].
  - destruct (AddUser b c r username password admin DS) as [[e|] DS'] eqn:E;
      [|intros H; contradiction H; reflexivity].
    intros _. unfold AddUser in E. apply Update_error in E. exact E.
Qed.

(** X6. A user added under a username that is well-formed UTF-8 is the
    user [GetUser] returns for the username, with a nil error: it has the
    username and the admin flag of the call, and for its password what
    bcrypt returned for the plaintext. *)
Theorem GetUser_returns_added_user (b : BoltAuth) (c : bcrypt.Cipher)
    (r : rand.Reader) (username password : bytes) (admin : bool)
    (DS : gmap bytes (gmap bytes bytes)) :
  UserBucket b <> [] -> validKey username ->
  utf8.Valid username = true ->
  exists u,
    GetUser b username (AddUser b c r username password admin DS).2
    = (Some u, None) /\
    Username u = username /\ IsAdmin u = admin /\
    Password u
    = json.coerce (bcrypt.GenerateFromPassword c r password 10).1.1.
Proof.
  intros Hb Hk V. rewrite GetUser_after_AddUser by assumption.
  eexists. split; [reflexivity|].
  destruct (newUser_fields c r username password admin)
    as (_ & E2 & E3 & E4).
  unfold coerceUser. cbn [Username Password IsAdmin].
  rewrite E2, E3, E4. rewrite valid_coerce by exact V. auto.
Qed.

Lemma GetUser_returns_added_user_witness :
  exists u,
    GetUser defaultBackend (lit "bob")
      (AddUser defaultBackend sampleCipher (sampleReader 1) (lit "bob")
         (lit "secret") true ∅).2
    = (Some u, None) /\
    Username u = lit "bob" /\ IsAdmin u = true /\
    Password u
    = json.coerce
        (bcrypt.GenerateFromPassword sampleCipher (sampleReader 1)
           (lit "secret") 10).1.1.
Proof.
  apply (GetUser_returns_added_user defaultBackend sampleCipher
           (sampleReader 1) (lit "bob") (lit "secret") true ∅).
  - discriminate.
  - split; [discriminate | vm_compute; discriminate].
  - reflexivity.
Defined.

(** X7. [AddUser] leaves the other users as they were: once the user
    keyspace is there, [GetUser] for another username returns after the
    call what it returned before. *)
Theorem AddUser_keeps_other_users (b : BoltAuth) (c : bcrypt.Cipher)
    (r : rand.Reader) (username password other : bytes) (admin : bool)
    (DS : gmap bytes (gmap bytes bytes)) :
  other <> username -> is_Some (DS !! UserBucket b) ->
  GetUser b other (AddUser b c r username password admin DS).2
  = GetUser b other DS.
Proof.
  intros N H.
  destruct (AddUser b c r username password admin DS) as [[e|] DS'] eqn:E.
  - unfold AddUser in E. apply Update_error in E. subst DS'. reflexivity.
  - pose proof (f_equal fst E) as E1. cbn [fst] in E1.
    apply AddUser_success in E1. destruct E1 as [Hb Hk].
    rewrite AddUser_ok in E by assumption. simplify_eq. cbn [snd].
    apply GetUser_reads_key; [rewrite lookup_insert_eq; eauto | exact H |].
    unfold bolt.Get. rewrite insert_contents.
    apply lookup_insert_ne. congruence.
Qed.

Lemma AddUser_keeps_other_users_witness :
  let DS := (AddUser defaultBackend sampleCipher (sampleReader 1) (lit "bob")
               (lit "pw1") false ∅).2 in
  lit "bob" <> lit "alice" /\
  is_Some (DS !! UserBucket defaultBackend) /\
  GetUser defaultBackend (lit "bob")
    (AddUser defaultBackend sampleCipher (sampleReader 2) (lit "alice")
       (lit "pw2") true DS).2
  = GetUser defaultBackend (lit "bob") DS.
Proof.
  intros DS.
  assert (N : lit "bob" <> lit "alice") by discriminate.
  assert (H : is_Some (DS !! UserBucket defaultBackend)).
  { subst DS. rewrite AddUser_ok;
      [| discriminate | split; [discriminate | vm_compute; discriminate]].
    cbn [snd]. rewrite lookup_insert_eq. eauto. }
  split; [exact N|]. split; [exact H|].
  apply (AddUser_keeps_other_users defaultBackend sampleCipher
           (sampleReader 2) (lit "alice") (lit "pw2") (lit "bob") true DS N H).
Defined.

(** X8. After [DeleteUser] for a username, on whatever store, [GetUser]
    for the username fails with the user-not-found error: also where the
    user keyspace was not there before the call, which creates it. *)
Theorem GetUser_after_DeleteUser (b : BoltAuth) (username : bytes)
    (DS : gmap bytes (gmap bytes bytes)) :
  UserBucket b <> [] ->
  GetUser b username (DeleteUser b username DS).2
  = (None, Some UserNotFoundError).
Proof.
  intros Hb. unfold DeleteUser. rewrite delete_ok by exact Hb. cbn [snd].
  apply (GetUser_no_key _ _ _ _ (lookup_insert_eq _ _ _)).
  apply lookup_delete_eq.
Qed.

Lemma GetUser_after_DeleteUser_witness :
  GetUser defaultBackend (lit "bob") ∅
  = (None, Some (KeyspaceMissingError UserBucketName)) /\
  GetUser defaultBackend (lit "bob")
    (DeleteUser defaultBackend (lit "bob") ∅).2
  = (None, Some UserNotFoundError).
Proof.
  split; [reflexivity|].
  apply (GetUser_after_DeleteUser defaultBackend (lit "bob") ∅).
  discriminate.
Defined.

(** X9. [DeleteUser] leaves the other users as they were: once the user
    keyspace is there, [GetUser] for another username returns after the
    call what it returned before. *)
Theorem DeleteUser_keeps_other_users (b : BoltAuth) (username other : bytes)
    (DS : gmap bytes (gmap bytes bytes)) :
  other <> username -> is_Some (DS !! UserBucket b) ->
  GetUser b other (DeleteUser b username DS).2 = GetUser b other DS.
Proof.
  intros N H. destruct (decide (UserBucket b = [])) as [Eb | Nb].
  - rewrite DeleteUser_no_name by exact Eb. reflexivity.
  - unfold DeleteUser. rewrite delete_ok by exact Nb. cbn [snd].
    apply GetUser_reads_key; [rewrite lookup_insert_eq; eauto | exact H |].
    unfold bolt.Get. rewrite insert_contents.
    apply lookup_delete_ne. congruence.
Qed.

Lemma DeleteUser_keeps_other_users_witness :
  let DS := (AddUser defaultBackend sampleCipher (sampleReader 1) (lit "bob")
               (lit "pw1") false ∅).2 in
  lit "bob" <> lit "alice" /\
  is_Some (DS !! UserBucket defaultBackend) /\
  GetUser defaultBackend (lit "bob")
    (DeleteUser defaultBackend (lit "alice") DS).2
  = GetUser defaultBackend (lit "bob") DS.
Proof.
  intros DS.
  assert (N : lit "bob" <> lit "alice") by discriminate.
  assert (H : is_Some (DS !! UserBucket defaultBackend)).
  { subst DS. rewrite AddUser_ok;
      [| discriminate | split; [discriminate | vm_compute; discriminate]].
    cbn [snd]. rewrite lookup_insert_eq. eauto. }
  split; [exact N|]. split; [exact H|].
  apply (DeleteUser_keeps_other_users defaultBackend (lit "alice")
           (lit "bob") DS N H).
Defined.

(** X10. Deleting a user that was just added, where the user keyspace
    was there and had no record under the username, leaves the store
    exactly as it was before the two calls. *)
Theorem DeleteUser_undoes_AddUser (b : BoltAuth) (c : bcrypt.Cipher)
    (r : rand.Reader) (username password : bytes) (admin : bool)
    (DS : gmap bytes (gmap bytes bytes)) (m : gmap bytes bytes) :
  DS !! UserBucket b = Some m -> m !! username = None ->
  (DeleteUser b username
     (AddUser b c r username password admin DS).2).2 = DS.
Proof.
  intros H K.
  assert (D : forall DS0 : gmap bytes (gmap bytes bytes),
            UserBucket b <> [] ->
            (DeleteUser b username DS0).2
            = <[ UserBucket b :=
                   delete username (bolt.contents (UserBucket b) DS0) ]> DS0).
  { intros DS0 Nb. unfold DeleteUser. rewrite delete_ok by exact Nb.
    reflexivity. }
  assert (I : <[ UserBucket b := m ]> DS = DS) by (apply insert_id, H).
  destruct (decide (UserBucket b = [])) as [Eb | Nb].
  { rewrite DeleteUser_no_name by exact Eb. cbn [snd].
    destruct (AddUser b c r username password admin DS) as [[e|] DS'] eqn:E.
    - unfold AddUser in E. apply Update_error in E. exact E.
    - pose proof (f_equal fst E) as E1. cbn [fst] in E1.
      apply AddUser_success in E1. destruct E1 as [Hb _]. contradiction. }
  rewrite D by exact Nb.
  destruct (AddUser b c r username password admin DS) as [[e|] DS'] eqn:E.
  - unfold AddUser in E. apply Update_error in E. subst DS'. cbn [snd].
    rewrite (contents_lookup _ _ _ H), delete_id by exact K. exact I.
  - pose proof (f_equal fst E) as E1. cbn [fst] in E1.
    apply AddUser_success in E1. destruct E1 as [_ Hk].
    rewrite AddUser_ok in E by assumption. simplify_eq. cbn [snd].
    rewrite insert_contents, insert_insert_eq, (contents_lookup _ _ _ H).
    rewrite delete_insert_id by exact K. exact I.
Qed.

Lemma DeleteUser_undoes_AddUser_witness :
  let DS : gmap bytes (gmap bytes bytes) := <[ UserBucketName := ∅ ]> ∅ in
  (DeleteUser defaultBackend (lit "bob")
     (AddUser defaultBackend sampleCipher (sampleReader 1) (lit "bob")
        (lit "pw1") false DS).2).2 = DS.
Proof.
  intros DS.
  apply (DeleteUser_undoes_AddUser defaultBackend sampleCipher
           (sampleReader 1) (lit "bob") (lit "pw1") false DS ∅).
  - apply lookup_insert_eq.
  - apply lookup_empty.
Defined.

(** X11. [DeleteUser] fails only without a keyspace name, with bolt's
    error for it and the store left as it was; with a name it returns
    nil for every username, the empty one too. *)
Theorem DeleteUser_fails_only_without_name (b : BoltAuth) (username : bytes)
    (DS : gmap bytes (gmap bytes bytes)) :
  (DeleteUser b username DS).1
  = (if decide (UserBucket b = []) then
       Some (BoltError bolt.ErrBucketNameRequired)
     else None) /\
  ((DeleteUser b username DS).1 <> None -> (DeleteUser b username DS).2 = DS).
Proof.
  destruct (decide (UserBucket b = [])) as [Eb | Nb].
  - rewrite DeleteUser_no_name by exact Eb. split; reflexivity.
  - unfold DeleteUser. rewrite delete_ok by exact Nb. cbn [fst snd].
    split; [reflexivity | intros H; contradiction H; reflexivity].
Qed.

(** X12. With different names for the two keyspaces, the calls on one
    keyspace do not show in the other: [SetValue] changes no result of
    [GetUser] or [GetAllUsers], and [AddUser] and [DeleteUser] change no
    result of [GetValue]. *)
Theorem keyspaces_independent (b : BoltAuth)
    (DS : gmap bytes (gmap bytes bytes)) :
  TokenBucket b <> UserBucket b ->
  (forall key value username : bytes,
     GetUser b username (SetValue b key value DS).2 = GetUser b username DS) /\
  (forall key value : bytes,
     GetAllUsers b (SetValue b key value DS).2 = GetAllUsers b DS) /\
  (forall c r (username password : bytes) (admin : bool) (key : bytes),
     GetValue b key (AddUser b c r username password admin DS).2
     = GetValue b key DS) /\
  (forall username key : bytes,
     GetValue b key (DeleteUser b username DS).2 = GetValue b key DS).
Proof.
  intros N. split; [|split; [|split]].
  - intros key value username. apply GetUser_reads_keyspace.
    apply SetValue_other_keyspace. congruence.
  - intros key value. apply GetAllUsers_reads_keyspace.
    apply SetValue_other_keyspace. congruence.
  - intros c r username password admin key. apply GetValue_reads_keyspace.
    apply AddUser_other_keyspace. exact N.
  - intros username key. apply GetValue_reads_keyspace.
    apply DeleteUser_other_keyspace. exact N.
Qed.

Lemma keyspaces_independent_witness :
  TokenBucket defaultBackend <> UserBucket defaultBackend /\
  GetUser defaultBackend (lit "bob")
    (SetValue defaultBackend (lit "bob") (lit "null") sampleStore).2
  = GetUser defaultBackend (lit "bob") sampleStore.
Proof.
  assert (N : TokenBucket defaultBackend <> UserBucket defaultBackend)
    by discriminate.
  split; [exact N|].
  apply (keyspaces_independent defaultBackend sampleStore N).
Defined.



(** ** Scanning the users, again *)

Lemma Get_reads_keyspace (name key : bytes)
    (DS DS' : gmap bytes (gmap bytes bytes)) :
  DS' !! name = DS !! name -> bolt.Get name key DS' = bolt.Get name key DS.
Proof. intros H. unfold bolt.Get, bolt.contents. rewrite H. reflexivity. Qed.

Lemma userRecords_empty (b : BoltAuth) : userRecords b ∅.
Proof.
  intros k v H. unfold bolt.Get, bolt.contents in H.
  rewrite lookup_empty in H. cbn in H. rewrite lookup_empty in H.
  discriminate H.
Qed.

Lemma userRecords_perform (b : BoltAuth) (cl : call)
    (DS : gmap bytes (gmap bytes bytes)) :
  TokenBucket b <> UserBucket b ->
  userRecords b DS -> userRecords b (perform b DS cl).
Proof.
  intros N R. destruct cl as [c r username password admin | username | key value];
    cbn [perform].
  - destruct (AddUser b c r username password admin DS) as [[e|] DS'] eqn:E.
    + unfold AddUser in E. apply Update_error in E. subst DS'. exact R.
    + pose proof (f_equal fst E) as E1. cbn [fst] in E1.
      apply AddUser_success in E1. destruct E1 as [Hb Hk].
      rewrite AddUser_ok in E by assumption. simplify_eq. cbn [snd].
      intros k v. unfold bolt.Get. rewrite insert_contents.
      destruct (decide (k = username)) as [-> | Nk].
      * rewrite lookup_insert_eq. intros H. simplify_eq.
        exists (coerceUser (newUser c r username password admin)).
        cbn [fst snd]. split; [apply DecodeUser_Encode|].
        unfold coerceUser. cbn [Username].
        destruct (newUser_fields c r username password admin) as (_ & -> & _).
        reflexivity.
      * rewrite lookup_insert_ne by congruence. apply R.
  - destruct (decide (UserBucket b = [])) as [Eb | Nb].
    + rewrite DeleteUser_no_name by exact Eb. exact R.
    + unfold DeleteUser. rewrite delete_ok by exact Nb. cbn [snd].
      intros k v. unfold bolt.Get. rewrite insert_contents.
      destruct (decide (k = username)) as [-> | Nk].
      * rewrite lookup_delete_eq. discriminate.
      * rewrite lookup_delete_ne by congruence. apply R.
  - intros k v.
    rewrite (Get_reads_keyspace _ _ DS) by
      (apply SetValue_other_keyspace; congruence).
    apply R.
Qed.

Lemma userRecords_performAll (b : BoltAuth) (calls : list call) :
  TokenBucket b <> UserBucket b ->
  forall DS, userRecords b DS -> userRecords b (performAll b calls DS).
Proof.
  intros N. unfold performAll.
  induction calls as [|cl calls IH]; intros DS R; [exact R|].
  cbn [fold_left]. apply IH, userRecords_perform; assumption.
Qed.

Lemma GetAllUsers_loop_userRecords (kvs : list (bytes * bytes)) :
  Forall userRecord kvs ->
  forall acc, exists users,
    GetAllUsers_loop kvs acc = Returns (acc ++ users) /\
    length users = length kvs /\
    Username <$> users = json.coerce <$> kvs.*1.
Proof.
  induction 1 as [|[k v] kvs (u & D & U) F IH]; intros acc.
  - exists []. rewrite app_nil_r. repeat split.
  - cbn [fst snd] in D, U. destruct (IH (acc ++ [u])) as (users & L & Hl & Hu).
    exists (u :: users). cbn [GetAllUsers_loop]. rewrite D.
    rewrite L, <- app_assoc. cbn. rewrite Hl, U, <- Hu. repeat split.
Qed.

Lemma GetAllUsers_userRecords (b : BoltAuth)
    (DS : gmap bytes (gmap bytes bytes)) :
  userRecords b DS ->
  exists users,
    GetAllUsers b DS = Returns (users, None) /\
    length users = size (bolt.contents (UserBucket b) DS) /\
    Username <$> users
    = json.coerce <$> (bolt.Cursor (bolt.contents (UserBucket b) DS)).*1.
Proof.
  intros R.
  assert (F : Forall userRecord (bolt.Cursor (bolt.contents (UserBucket b) DS))).
  { apply Forall_forall. intros [k v] H. apply R.
    unfold bolt.Get. apply elem_of_Cursor, H. }
  destruct (GetAllUsers_loop_userRecords _ F []) as (users & L & Hl & Hu).
  exists users. split; [|split; [|exact Hu]].
  - unfold GetAllUsers, bolt.View, bolt.Tx_Bucket.
    destruct (DS !! UserBucket b) as [m|] eqn:E.
    + rewrite L. reflexivity.
    + unfold bolt.contents in L. rewrite E in L. cbn [default] in L.
      rewrite Cursor_empty in L. cbn in L. congruence.
  - rewrite Hl. rewrite (Permutation_length (Cursor_Permutation _)).
    apply length_map_to_list.
Qed.

Lemma GetAllUsers_loop_panics (kvs : list (bytes * bytes)) :
  forall acc p,
    GetAllUsers_loop kvs acc = Panics p ->
    Exists (fun kv => decodesToNil kv.2) kvs.
Proof.
  induction kvs as [|[k v] kvs IH]; intros acc p H; [discriminate H|].
  cbn [GetAllUsers_loop] in H.
  destruct (DecodeUser v) as [[u|] [e|]] eqn:D;
    try (apply Exists_cons_tl; eapply IH; exact H).
  apply Exists_cons_hd. exact D.
Qed.

(** X14. Every sequence of calls of [AddUser], [DeleteUser] and
    [SetValue] on the empty database, through a backend with different
    names for the two keyspaces, leaves a store on which [GetAllUsers]
    returns, with a nil error and one user for each record of the user
    keyspace. *)
Theorem GetAllUsers_returns_after_calls (b : BoltAuth) (calls : list call) :
  TokenBucket b <> UserBucket b ->
  exists users,
    GetAllUsers b (performAll b calls ∅) = Returns (users, None) /\
    length users
    = size (bolt.contents (UserBucket b) (performAll b calls ∅)).
Proof.
  intros N.
  destruct (GetAllUsers_userRecords b (performAll b calls ∅))
    as (users & H & L & _).
  - apply userRecords_performAll; [exact N | apply userRecords_empty].
  - exists users. split; assumption.
Qed.

Lemma GetAllUsers_returns_after_calls_witness :
  let calls :=
    [ CallAddUser sampleCipher (sampleReader 1) (lit "bob") (lit "pw1") false;
      CallSetValue (lit "bob") (lit "null");
      CallAddUser sampleCipher (sampleReader 2) (lit "alice") longPassword true;
      CallDeleteUser (lit "bob") ] in
  exists users,
    GetAllUsers defaultBackend (performAll defaultBackend calls ∅)
    = Returns (users, None) /\
    length users
    = size (bolt.contents (UserBucket defaultBackend)
              (performAll defaultBackend calls ∅)).
Proof.
  intros calls.
  apply (GetAllUsers_returns_after_calls defaultBackend calls).
  discriminate.
Defined.

(** X15. On such a store the users that [GetAllUsers] returns carry the
    keys of the records as their usernames, in the order of the cursor:
    the usernames are the keys, as the encoding keeps them. *)
Theorem GetAllUsers_usernames_are_keys (b : BoltAuth) (calls : list call)
    (users : list User) (err : option error) :
  TokenBucket b <> UserBucket b ->
  GetAllUsers b (performAll b calls ∅) = Returns (users, err) ->
  Username <$> users
  = json.coerce
      <$> (bolt.Cursor
             (bolt.contents (UserBucket b) (performAll b calls ∅))).*1.
Proof.
  intros N H.
  destruct (GetAllUsers_userRecords b (performAll b calls ∅))
    as (users' & H' & _ & U).
  - apply userRecords_performAll; [exact N | apply userRecords_empty].
  - rewrite H' in H. simplify_eq. exact U.
Qed.

Lemma GetAllUsers_usernames_are_keys_witness :
  let calls :=
    [ CallAddUser sampleCipher (sampleReader 1) (lit "bob") (lit "pw1") false;
      CallAddUser sampleCipher (sampleReader 2) (lit "alice") (lit "pw2")
        true ] in
  let records :=
    bolt.Cursor
      (bolt.contents (UserBucket defaultBackend)
         (performAll defaultBackend calls ∅)) in
  TokenBucket defaultBackend <> UserBucket defaultBackend /\
  GetAllUsers defaultBackend (performAll defaultBackend calls ∅)
  = Returns (omap decodable records, None) /\
  Username <$> omap decodable records = json.coerce <$> records.*1.
Proof.
  intros calls records.
  assert (N : TokenBucket defaultBackend <> UserBucket defaultBackend)
    by discriminate.
  assert (H : GetAllUsers defaultBackend (performAll defaultBackend calls ∅)
              = Returns (omap decodable records, None))
    by (vm_compute; reflexivity).
  split; [exact N|]. split; [exact H|].
  apply (GetAllUsers_usernames_are_keys defaultBackend calls _ None N H).
Defined.

(** X16. The users that [GetAllUsers] returns are the users that
    [GetUser] returns for some username: the scan and the lookups
    agree. *)
Theorem GetAllUsers_agrees_with_GetUser (b : BoltAuth)
    (DS : gmap bytes (gmap bytes bytes)) (users : list User)
    (err : option error) :
  GetAllUsers b DS = Returns (users, err) ->
  forall u : User,
    u ∈ users <-> exists username : bytes,
                    GetUser b username DS = (Some u, None).
Proof.
  intros H u.
  assert (Hu : users
               = omap decodable (bolt.Cursor (bolt.contents (UserBucket b) DS))).
  { unfold GetAllUsers, bolt.View, bolt.Tx_Bucket in H.
    destruct (DS !! UserBucket b) as [m|] eqn:E.
    - destruct (GetAllUsers_loop _ _) as [us|] eqn:L; [|discriminate H].
      apply GetAllUsers_loop_returns in L. cbn [app] in L. congruence.
    - unfold bolt.contents. rewrite E. cbn [default]. rewrite Cursor_empty.
      cbn. congruence. }
  subst users. rewrite list_elem_of_omap. split.
  - intros ([k v] & I & D). exists k. apply elem_of_Cursor in I.
    unfold decodable in D. cbn [snd] in D.
    unfold bolt.contents in I.
    destruct (DS !! UserBucket b) as [m|] eqn:E;
      [|cbn in I; rewrite lookup_empty in I; discriminate I].
    cbn [default] in I. rewrite (GetUser_found _ _ _ _ _ E I).
    destruct (DecodeUser v) as [[u'|] [e|]]; congruence.
  - intros (k & G). unfold GetUser, bolt.View, bolt.Tx_Bucket in G.
    destruct (DS !! UserBucket b) as [m|] eqn:E; [|discriminate G].
    cbv iota beta in G.
    destruct (bolt.Get (UserBucket b) k DS) as [v|] eqn:I; [|discriminate G].
    exists (k, v). split; [apply elem_of_Cursor, I|].
    unfold decodable. cbn [snd].
    destruct (DecodeUser v) as [[u'|] [e|]]; congruence.
Qed.

Lemma GetAllUsers_agrees_with_GetUser_witness :
  exists users,
    GetAllUsers defaultBackend sampleStore = Returns (users, None) /\
    forall u : User,
      u ∈ users <-> exists username : bytes,
                      GetUser defaultBackend username sampleStore
                      = (Some u, None).
Proof.
  eexists. split; [vm_compute; reflexivity|].
  apply (GetAllUsers_agrees_with_GetUser defaultBackend sampleStore _ None).
  vm_compute; reflexivity.
Defined.

(** X17. [GetAllUsers] panics on exactly the stores whose user keyspace
    holds a record that decodes without error to no user; on every
    other store it returns. *)
Theorem GetAllUsers_panics_exactly_on_nil_record (b : BoltAuth)
    (DS : gmap bytes (gmap bytes bytes)) :
  GetAllUsers b DS = Panics NilPointerDereference <->
  exists k v : bytes,
    bolt.Get (UserBucket b) k DS = Some v /\ decodesToNil v.
Proof.
  split.
  - intros H. unfold GetAllUsers, bolt.View, bolt.Tx_Bucket in H.
    destruct (DS !! UserBucket b) as [m|] eqn:E; [|discriminate H].
    destruct (GetAllUsers_loop _ _) as [us|p] eqn:L; [discriminate H|].
    apply GetAllUsers_loop_panics in L. apply Exists_exists in L.
    destruct L as ([k v] & I & D). exists k, v. split; [|exact D].
    unfold bolt.Get. apply elem_of_Cursor, I.
  - intros (k & v & G & D). unfold GetAllUsers, bolt.View, bolt.Tx_Bucket.
    unfold bolt.Get, bolt.contents in G.
    destruct (DS !! UserBucket b) as [m|] eqn:E;
      [|cbn in G; rewrite lookup_empty in G; discriminate G].
    cbn [default] in G. rewrite (contents_lookup _ _ _ E).
    rewrite GetAllUsers_loop_nil; [reflexivity|].
    apply Exists_exists. exists (k, v). split; [|exact D].
    apply elem_of_Cursor, G.
Qed.

(** ** The identifier and the codec, again *)

Lemma hextable_4 z : z / 16 = 4 -> uuid.hextable (Z.shiftr z 4) = x34.
Proof. intros H. rewrite shiftr_4, H. reflexivity. Qed.

Lemma hextable_variant z :
  8 <= z / 16 < 12 ->
  uuid.hextable (Z.shiftr z 4) ∈ [x38; x39; x61; x62].
Proof.
  intros H. rewrite shiftr_4.
  assert (C : z / 16 = 8 \/ z / 16 = 9 \/ z / 16 = 10 \/ z / 16 = 11) by lia.
  destruct C as [E | [E | [E | E]]]; rewrite E;
    change (uuid.hextable 8) with x38; change (uuid.hextable 9) with x39;
    change (uuid.hextable 10) with x61; change (uuid.hextable 11) with x62;
    repeat constructor.
Qed.

(** A fresh identifier is written as 36 bytes, with dashes after 8, 13,
    18 and 23 of them; the digit after the second dash is the version,
    4, and the digit after the third one holds the variant. *)
Lemma New_version4 (r : rand.Reader) :
  length (uuid.New r).1 = 36%nat /\
  (uuid.New r).1 !! 8%nat = Some x2d /\
  (uuid.New r).1 !! 13%nat = Some x2d /\
  (uuid.New r).1 !! 18%nat = Some x2d /\
  (uuid.New r).1 !! 23%nat = Some x2d /\
  (uuid.New r).1 !! 14%nat = Some x34 /\
  exists v, (uuid.New r).1 !! 19%nat = Some v /\ v ∈ [x38; x39; x61; x62].
Proof.
  unfold uuid.New, uuid.NewRandom, rand.ReadFull, uuid.setByte.
  cbn [map seq]. unfold utf8.at_. cbn [nth list_insert fst].
  generalize (r 0%nat) (r 1%nat) (r 2%nat) (r 3%nat) (r 4%nat) (r 5%nat)
    (r 6%nat) (r 7%nat) (r 8%nat) (r 9%nat) (r 10%nat) (r 11%nat)
    (r 12%nat) (r 13%nat) (r 14%nat) (r 15%nat).
  intros a0 a1 a2 a3 a4 a5 a6 a7 a8 a9 a10 a11 a12 a13 a14 a15.
  unfold uuid.String_, uuid.slice.
  cbn [length Nat.eqb negb firstn skipn Nat.sub uuid.hex_Encode app fst].
  cbn -[uuid.hextable z2b b2z Z.lor Z.land Z.shiftr].
  repeat split.
  - apply f_equal, hextable_4. rewrite b2z_z2b, land_15, Z.lor_comm.
    rewrite (lor_add 64 (b2z a6 mod 16) 6) by lia. lia.
  - eexists. split; [reflexivity|]. apply hextable_variant.
    rewrite b2z_z2b, land_63, Z.lor_comm.
    rewrite (lor_add 128 (b2z a8 mod 64) 6) by lia. lia.
Qed.

(** The encoding of a rune that [DecodeRune] has produced is read back
    as one rune. *)
Lemma valid_fuel_app_rune (n : nat) (p q : bytes) (r : Z) (k : nat) :
  decoded p r k -> ~ (r = utf8.RuneError /\ k = 1%nat) ->
  utf8.valid_fuel (S n) (firstn k p ++ q) = utf8.valid_fuel n q.
Proof.
  intros D N. pose proof (decoded_size _ _ _ D) as [Hk Hl].
  assert (L : length (firstn k p) = k) by (apply firstn_length_le; lia).
  cbn [utf8.valid_fuel].
  destruct (firstn k p ++ q) as [|c t] eqn:E.
  { apply (f_equal (@length byte)) in E. rewrite length_app, L in E.
    simpl in E. lia. }
  rewrite <- E. rewrite (decoded_prefix _ _ _ q D N).
  replace ((r =? utf8.RuneError) && (k =? 1)%nat) with false.
  - rewrite drop_app_length' by (symmetry; exact L). reflexivity.
  - symmetry. apply andb_false_iff.
    destruct (Z.eqb_spec r utf8.RuneError) as [Er | Nr]; [|left; reflexivity].
    right. apply Nat.eqb_neq. intros Ek. apply N. split; assumption.
Qed.

Lemma decoded_RuneError : decoded [xef; xbf; xbd] utf8.RuneError 3.
Proof.
  change utf8.RuneError with (rune3 (b2z xef) (b2z xbf) (b2z xbd)).
  apply dec_three; unfold rune3; change (b2z xef) with 239;
    change (b2z xbf) with 191; change (b2z xbd) with 189; lia.
Qed.

Lemma rune_error_dec (r : Z) (k : nat) :
  (r = utf8.RuneError /\ k = 1%nat) \/ ~ (r = utf8.RuneError /\ k = 1%nat).
Proof.
  destruct (Z.eq_dec r utf8.RuneError) as [-> | N];
    destruct (Nat.eq_dec k 1%nat) as [-> | M]; intuition congruence.
Qed.

Lemma coerce_fuel_wellformed (f : nat) :
  forall (s : bytes) (n : nat),
    (length s <= f)%nat -> (length (json.coerce_fuel f s) <= n)%nat ->
    utf8.valid_fuel n (json.coerce_fuel f s) = true.
Proof.
  induction f as [|f IH]; intros s n Hs Hn.
  - destruct n; reflexivity.
  - destruct s as [|b t]; [destruct n; reflexivity|].
    destruct (DecodeRune_decoded b t) as (r & k & E & D).
    cbn [json.coerce_fuel] in Hn |- *. rewrite E in Hn |- *.
    pose proof (decoded_size _ _ _ D) as [Hk Hl].
    assert (Hskip : (length (skipn k (b :: t)) <= f)%nat).
    { rewrite length_skipn. simpl in Hs |- *. lia. }
    destruct (rune_error_dec r k) as [[-> ->] | N].
    + rewrite EncodeRune_RuneError in Hn |- *.
      destruct n as [|n]; [cbn [length app] in Hn; lia|].
      change [xef; xbf; xbd] with (firstn 3 [xef; xbf; xbd]).
      rewrite (valid_fuel_app_rune n _ _ _ _ decoded_RuneError)
        by (intros [_ H]; discriminate H).
      apply IH; [exact Hskip|]. cbn [length app] in Hn. lia.
    + rewrite (EncodeRune_decoded _ _ _ D N) in Hn |- *.
      destruct n as [|n].
      { rewrite length_app, firstn_length_le in Hn by lia. lia. }
      rewrite (valid_fuel_app_rune n _ _ _ _ D N).
      apply IH; [exact Hskip|].
      rewrite length_app, firstn_length_le in Hn by lia. lia.
Qed.

Lemma coerce_wellformed (s : bytes) : utf8.Valid (json.coerce s) = true.
Proof.
  unfold utf8.Valid, json.coerce. apply coerce_fuel_wellformed; lia.
Qed.

Lemma coerce_coerce (s : bytes) : json.coerce (json.coerce s) = json.coerce s.
Proof. apply valid_coerce, coerce_wellformed. Qed.

Lemma readValue_Encode_app f fs (rest : bytes) :
  json.readValue ((json.Encode (f :: fs)).1 ++ rest)
  = inl (json.Object (map memberOf (f :: fs))).
Proof.
  unfold json.Encode, json.encodeStruct. cbn [fst app].
  unfold json.readValue.
  change (json.skipSpace (x7b :: ?t)) with (x7b :: t).
  set (data := x7b :: _).
  assert (Hlen : (length fs + 2 < 2 * length data)%nat).
  { subst data. destruct f as [name v]. cbn [json.encodeMembers].
    cbn [length]. rewrite !length_app.
    pose proof (encodeMembers_length false fs). simpl length. lia. }
  destruct (2 * length data)%nat as [|n]; [lia|]. subst data.
  destruct f as [name v].
  replace (json.parseValue (S (S n)) 0 _)
    with (match json.parseMembers (S n) 1
                  (((json.encodeMembers true ((name, v) :: fs) ++ [x7d])
                    ++ [x0a]) ++ rest)
          with
          | Some (m, out) => Some (json.Object m, out)
          | None => None
          end) by reflexivity.
  rewrite <- !app_assoc. cbn [app].
  rewrite parseMembers_encodeMembers by lia. reflexivity.
Qed.

Lemma readValue_Encode_User_app (u : User) (rest : bytes) :
  json.readValue ((json.Encode (User_fields u)).1 ++ rest)
  = inl (json.Object (map memberOf (User_fields u))).
Proof. exact (readValue_Encode_app _ _ rest). Qed.

Lemma skipSpace_blank (ws : bytes) :
  Forall (fun c => json.isSpace (b2z c) = true) ws -> json.skipSpace ws = [].
Proof.
  induction 1 as [|c ws H F IH]; [reflexivity|].
  cbn [json.skipSpace]. rewrite H. exact IH.
Qed.

(** X18. The identifier of a user that was added is the text of a
    version 4 UUID: 36 bytes, with dashes after 8, 13, 18 and 23 of
    them, the version digit 4 after the second dash and one of 8, 9, a
    and b, for the variant, after the third. *)
Theorem AddUser_identifier_is_version4 (b : BoltAuth) (c : bcrypt.Cipher)
    (r : rand.Reader) (username password : bytes) (admin : bool)
    (DS : gmap bytes (gmap bytes bytes)) :
  UserBucket b <> [] -> validKey username ->
  exists u,
    GetUser b username (AddUser b c r username password admin DS).2
    = (Some u, None) /\
    length (UUID u) = 36%nat /\
    UUID u !! 8%nat = Some x2d /\ UUID u !! 13%nat = Some x2d /\
    UUID u !! 18%nat = Some x2d /\ UUID u !! 23%nat = Some x2d /\
    UUID u !! 14%nat = Some x34 /\
    exists v, UUID u !! 19%nat = Some v /\ v ∈ [x38; x39; x61; x62].
Proof.
  intros Hb Hk. rewrite GetUser_after_AddUser by assumption.
  eexists. split; [reflexivity|].
  unfold coerceUser. cbn [UUID].
  destruct (newUser_fields c r username password admin) as (-> & _).
  rewrite New_coerce. apply New_version4.
Qed.

Lemma AddUser_identifier_is_version4_witness :
  exists u,
    GetUser defaultBackend (lit "bob")
      (AddUser defaultBackend sampleCipher (sampleReader 1) (lit "bob")
         (lit "secret") false ∅).2
    = (Some u, None) /\
    length (UUID u) = 36%nat /\
    UUID u !! 8%nat = Some x2d /\ UUID u !! 13%nat = Some x2d /\
    UUID u !! 18%nat = Some x2d /\ UUID u !! 23%nat = Some x2d /\
    UUID u !! 14%nat = Some x34 /\
    exists v, UUID u !! 19%nat = Some v /\ v ∈ [x38; x39; x61; x62].
Proof.
  apply (AddUser_identifier_is_version4 defaultBackend sampleCipher
           (sampleReader 1) (lit "bob") (lit "secret") false ∅).
  - discriminate.
  - split; [discriminate | vm_compute; discriminate].
Defined.

(** X19. Decoding the encoding of a user always gives a user, and one
    that the codec keeps as it is: its strings are well-formed UTF-8,
    and the encoding of the decoded user is decoded to the same user
    again. *)
Theorem DecodeUser_Encode_stable (u : User) :
  exists u',
    DecodeUser (Encode u).1 = (Some u', None) /\
    utf8.Valid (UUID u') = true /\ utf8.Valid (Username u') = true /\
    utf8.Valid (Password u') = true /\ IsAdmin u' = IsAdmin u /\
    DecodeUser (Encode u').1 = (Some u', None).
Proof.
  exists (coerceUser u). split; [apply DecodeUser_Encode|].
  unfold coerceUser at 1 2 3 4. cbn [UUID Username Password IsAdmin].
  repeat (split; [first [apply coerce_wellformed | reflexivity]|]).
  rewrite DecodeUser_Encode. unfold coerceUser.
  cbn [UUID Username Password IsAdmin]. rewrite !coerce_coerce. reflexivity.
Qed.

(** X20. [DecodeUser] reads the first value of its input and leaves
    what follows it: the encoding of a user followed by any bytes is
    decoded as the encoding alone. *)
Theorem DecodeUser_ignores_trailing_bytes (u : User) (rest : bytes) :
  DecodeUser ((Encode u).1 ++ rest) = DecodeUser (Encode u).1.
Proof.
  rewrite DecodeUser_Encode. unfold DecodeUser.
  change (Encode u).1 with (json.Encode (User_fields u)).1.
  unfold json.Decode. rewrite readValue_Encode_User_app.
  unfold coerceUser, User_fields.
  cbn [map]. unfold memberOf, valueOf. cbn [fst snd].
  generalize (json.coerce (UUID u)) (json.coerce (Username u))
    (json.coerce (Password u)) (IsAdmin u).
  intros a b c d. reflexivity.
Qed.

(** X21. An input with no value in it, empty or made of white space,
    is refused with [io.EOF]: [DecodeUser] returns no user for it, so
    [GetUser] fails on a record with such a value. *)
Theorem DecodeUser_blank_input (ws : bytes) :
  Forall (fun c => json.isSpace (b2z c) = true) ws ->
  DecodeUser ws = (None, Some (JsonError json.EOF)) /\
  forall (b : BoltAuth) (username : bytes)
         (DS : gmap bytes (gmap bytes bytes)),
    is_Some (DS !! UserBucket b) ->
    bolt.Get (UserBucket b) username DS = Some ws ->
    GetUser b username DS = (None, Some (DecodeError username)).
Proof.
  intros F.
  assert (D : DecodeUser ws = (None, Some (JsonError json.EOF))).
  { unfold DecodeUser, json.Decode, json.readValue.
    rewrite (skipSpace_blank ws F). reflexivity. }
  split; [exact D|]. intros b username DS [m H] G.
  unfold bolt.Get in G. rewrite (contents_lookup _ _ _ H) in G.
  rewrite (GetUser_found _ _ _ _ _ H G), D. reflexivity.
Qed.

Lemma DecodeUser_blank_input_witness :
  DecodeUser [] = (None, Some (JsonError json.EOF)) /\
  DecodeUser (lit "  ") = (None, Some (JsonError json.EOF)).
Proof.
  split.
  - apply (DecodeUser_blank_input []). constructor.
  - apply (DecodeUser_blank_input (lit "  ")). repeat constructor.
Defined.

(** X23. No call removes a keyspace: a keyspace that is in the store is
    in it after every sequence of calls of [AddUser], [DeleteUser] and
    [SetValue]. *)
Theorem keyspace_persists_through_calls (b : BoltAuth) (name : bytes)
    (calls : list call) (DS : gmap bytes (gmap bytes bytes)) :
  is_Some (DS !! name) -> is_Some (performAll b calls DS !! name).
Proof.
  unfold performAll. revert DS.
  induction calls as [|cl calls IH]; intros DS H; [exact H|].
  cbn [fold_left]. apply IH.
  destruct (keyspace_persists b name DS H) as (A & D & S).
  destruct cl as [c r username password admin | username | key value];
    cbn [perform]; [apply A | apply D | apply S].
Qed.

Lemma keyspace_persists_through_calls_witness :
  let DS : gmap bytes (gmap bytes bytes) := <[ UserBucketName := ∅ ]> ∅ in
  let calls :=
    [ CallDeleteUser (lit "bob"); CallSetValue (lit "k") (lit "v");
      CallAddUser sampleCipher (sampleReader 1) [] (lit "pw") false ] in
  is_Some (DS !! UserBucketName) /\
  is_Some (performAll defaultBackend calls DS !! UserBucketName).
Proof.
  intros DS calls.
  assert (H : is_Some (DS !! UserBucketName))
    by (subst DS; rewrite lookup_insert_eq; eauto).
  split; [exact H|].
  apply (keyspace_persists_through_calls defaultBackend UserBucketName
           calls DS H).
Defined.

(** X24. Different users with well-formed strings have different
    encodings: [Encode] loses nothing of them. *)
Theorem Encode_injective_on_wellformed (u v : User) :
  utf8.Valid (UUID u) = true -> utf8.Valid (Username u) = true ->
  utf8.Valid (Password u) = true ->
  utf8.Valid (UUID v) = true -> utf8.Valid (Username v) = true ->
  utf8.Valid (Password v) = true ->
  u <> v -> (Encode u).1 <> (Encode v).1.
Proof.
  intros U1 U2 U3 V1 V2 V3 N E. apply N.
  assert (Du : DecodeUser (Encode u).1 = (Some u, None))
    by (apply DecodeUser_Encode_iff_valid; auto).
  assert (Dv : DecodeUser (Encode v).1 = (Some v, None))
    by (apply DecodeUser_Encode_iff_valid; auto).
  rewrite E in Du. congruence.
Qed.

Lemma Encode_injective_on_wellformed_witness :
  let v := {| UUID := UUID sampleUser; Username := lit "carol";
              Password := Password sampleUser; IsAdmin := false |} in
  sampleUser <> v /\ (Encode sampleUser).1 <> (Encode v).1.
Proof.
  intros v.
  assert (N : sampleUser <> v) by discriminate.
  split; [exact N|].
  apply (Encode_injective_on_wellformed sampleUser v);
    first [reflexivity | exact N].
Defined.

(** ** The scan after a call *)

Lemma GetAllUsers_Returns_inv (b : BoltAuth)
    (DS : gmap bytes (gmap bytes bytes)) (users : list User)
    (err : option error) :
  GetAllUsers b DS = Returns (users, err) ->
  err = None /\
  users = omap decodable (bolt.Cursor (bolt.contents (UserBucket b) DS)) /\
  forall k v : bytes,
    bolt.Get (UserBucket b) k DS = Some v -> ~ decodesToNil v.
Proof.
  intros H. unfold GetAllUsers, bolt.View, bolt.Tx_Bucket in H.
  destruct (DS !! UserBucket b) as [m|] eqn:E.
  - destruct (GetAllUsers_loop _ _) as [us|] eqn:L; [|discriminate H].
    split; [congruence|]. split.
    + apply GetAllUsers_loop_returns in L. cbn [app] in L. congruence.
    + intros k v G D. rewrite GetAllUsers_loop_nil in L; [discriminate L|].
      apply Exists_exists. exists (k, v). split; [|exact D].
      apply elem_of_Cursor, G.
  - split; [congruence|]. split.
    + unfold bolt.contents. rewrite E. cbn [default]. rewrite Cursor_empty.
      cbn. congruence.
    + intros k v G. unfold bolt.Get, bolt.contents in G. rewrite E in G.
      cbn [default] in G. rewrite lookup_empty in G. discriminate G.
Qed.

Lemma elem_of_decodable (b : BoltAuth) (DS : gmap bytes (gmap bytes bytes))
    (u : User) :
  u ∈ omap decodable (bolt.Cursor (bolt.contents (UserBucket b) DS)) <->
  exists k v : bytes,
    bolt.Get (UserBucket b) k DS = Some v /\ DecodeUser v = (Some u, None).
Proof.
  rewrite list_elem_of_omap. unfold bolt.Get. split.
  - intros ([k v] & I & D). exists k, v. split; [apply elem_of_Cursor, I|].
    unfold decodable in D. cbn [snd] in D.
    destruct (DecodeUser v) as [[u'|] [e|]]; congruence.
  - intros (k & v & G & D). exists (k, v). split; [apply elem_of_Cursor, G|].
    unfold decodable. cbn [snd]. rewrite D. reflexivity.
Qed.

(** X25. A user that is added shows in the scan: where [GetAllUsers]
    returned before a successful [AddUser], it returns after it, with a
    nil error; the user that [GetUser] returns for the username is among
    its users, and the others are among those it returned before. *)
Theorem GetAllUsers_lists_added_user (b : BoltAuth) (c : bcrypt.Cipher)
    (r : rand.Reader) (username password : bytes) (admin : bool)
    (DS : gmap bytes (gmap bytes bytes)) (users : list User)
    (err : option error) :
  UserBucket b <> [] -> validKey username ->
  GetAllUsers b DS = Returns (users, err) ->
  exists users' u,
    GetAllUsers b (AddUser b c r username password admin DS).2
    = Returns (users', None) /\
    GetUser b username (AddUser b c r username password admin DS).2
    = (Some u, None) /\
    u ∈ users' /\
    forall v : User, v ∈ users' -> v = u \/ v ∈ users.
Proof.
  intros Hb Hk H. apply GetAllUsers_Returns_inv in H.
  destruct H as (_ & -> & NN).
  pose proof (GetUser_after_AddUser b c r username password admin DS Hb Hk)
    as G.
  rewrite AddUser_ok in G |- * by assumption. cbn [snd] in G |- *.
  set (bts := (Encode (newUser c r username password admin)).1) in *.
  set (DS' := <[ UserBucket b := _ ]> DS) in *.
  assert (Get' : forall k : bytes,
            bolt.Get (UserBucket b) k DS'
            = if decide (k = username) then Some bts
              else bolt.Get (UserBucket b) k DS).
  { intros k. subst DS'. unfold bolt.Get. rewrite insert_contents.
    destruct (decide (k = username)) as [-> | N].
    - apply lookup_insert_eq.
    - apply lookup_insert_ne. congruence. }
  eexists _, _. split; [|split; [exact G|split]].
  - apply GetAllUsers_returns. intros k v. rewrite Get'.
    destruct (decide (k = username)) as [-> | N]; [|apply NN].
    intros E. injection E as <-. unfold decodesToNil. subst bts.
    rewrite DecodeUser_Encode. discriminate.
  - apply elem_of_decodable. exists username, bts. rewrite Get'.
    rewrite decide_True by reflexivity. split; [reflexivity|].
    subst bts. apply DecodeUser_Encode.
  - intros v Hv. apply elem_of_decodable in Hv.
    destruct Hv as (k & w & Gk & D). rewrite Get' in Gk.
    destruct (decide (k = username)) as [-> | N].
    + left. injection Gk as <-. subst bts.
      rewrite DecodeUser_Encode in D. congruence.
    + right. apply elem_of_decodable. exists k, w. split; assumption.
Qed.

Lemma GetAllUsers_lists_added_user_witness :
  exists users' u,
    GetAllUsers defaultBackend
      (AddUser defaultBackend sampleCipher (sampleReader 3) (lit "dave")
         (lit "pw3") false sampleStore).2
    = Returns (users', None) /\
    GetUser defaultBackend (lit "dave")
      (AddUser defaultBackend sampleCipher (sampleReader 3) (lit "dave")
         (lit "pw3") false sampleStore).2
    = (Some u, None) /\
    u ∈ users' /\
    forall v : User,
      v ∈ users' ->
      v = u \/
      v ∈ omap decodable
            (bolt.Cursor (bolt.contents UserBucketName sampleStore)).
Proof.
  apply (GetAllUsers_lists_added_user defaultBackend sampleCipher
           (sampleReader 3) (lit "dave") (lit "pw3") false sampleStore
           _ None).
  - discriminate.
  - split; [discriminate | vm_compute; discriminate].
  - vm_compute; reflexivity.
Defined.

(** X26. A user that is deleted leaves the scan, and no other does:
    where [GetAllUsers] returned before [DeleteUser], it returns after
    it, with a nil error, and its users are the users that [GetUser]
    returned before the call for the other usernames. *)
Theorem GetAllUsers_drops_deleted_user (b : BoltAuth) (username : bytes)
    (DS : gmap bytes (gmap bytes bytes)) (users : list User)
    (err : option error) :
  UserBucket b <> [] ->
  GetAllUsers b DS = Returns (users, err) ->
  exists users',
    GetAllUsers b (DeleteUser b username DS).2 = Returns (users', None) /\
    forall v : User,
      v ∈ users' <->
      exists other : bytes,
        other <> username /\ GetUser b other DS = (Some v, None).
Proof.
  intros Hb H. apply GetAllUsers_Returns_inv in H.
  destruct H as (_ & -> & NN).
  unfold DeleteUser. rewrite delete_ok by exact Hb. cbn [snd].
  set (DS' := <[ UserBucket b := _ ]> DS).
  assert (Get' : forall k : bytes,
            bolt.Get (UserBucket b) k DS'
            = if decide (k = username) then None
              else bolt.Get (UserBucket b) k DS).
  { intros k. subst DS'. unfold bolt.Get. rewrite insert_contents.
    destruct (decide (k = username)) as [-> | N].
    - apply lookup_delete_eq.
    - apply lookup_delete_ne. congruence. }
  eexists. split.
  - apply GetAllUsers_returns. intros k v. rewrite Get'.
    destruct (decide (k = username)); [discriminate | apply NN].
  - intros v. rewrite elem_of_decodable. split.
    + intros (k & w & Gk & D). rewrite Get' in Gk.
      destruct (decide (k = username)) as [|N]; [discriminate Gk|].
      exists k. split; [exact N|].
      unfold GetUser, bolt.View, bolt.Tx_Bucket.
      unfold bolt.Get, bolt.contents in Gk.
      destruct (DS !! UserBucket b) as [m|] eqn:E;
        [|cbn in Gk; rewrite lookup_empty in Gk; discriminate Gk].
      cbv iota beta. unfold bolt.Get, bolt.contents. rewrite E.
      cbn [default] in Gk |- *. rewrite Gk, D. reflexivity.
    + intros (k & N & G). unfold GetUser, bolt.View, bolt.Tx_Bucket in G.
      destruct (DS !! UserBucket b) as [m|] eqn:E; [|discriminate G].
      cbv iota beta in G.
      destruct (bolt.Get (UserBucket b) k DS) as [w|] eqn:Gk;
        [|discriminate G].
      exists k, w. rewrite Get'. rewrite decide_False by exact N.
      split; [exact Gk|].
      destruct (DecodeUser w) as [[u'|] [e|]]; congruence.
Qed.

Lemma GetAllUsers_drops_deleted_user_witness :
  exists users',
    GetAllUsers defaultBackend
      (DeleteUser defaultBackend (lit "bob") sampleStore).2
    = Returns (users', None) /\
    forall v : User,
      v ∈ users' <->
      exists other : bytes,
        other <> lit "bob" /\
        GetUser defaultBackend other sampleStore = (Some v, None).
Proof.
  apply (GetAllUsers_drops_deleted_user defaultBackend (lit "bob")
           sampleStore
           (omap decodable
              (bolt.Cursor (bolt.contents UserBucketName sampleStore)))
           None).
  - discriminate.
  - vm_compute; reflexivity.
Defined.
